(** * LearnSphere AI: the content-processing pipeline

    A shallow embedding of the generation pipeline of the repository
    (the [ContentProcessor] service, the [TextValidator] it consults and
    the [ChromeAIService] wrapper it calls), together with the properties
    of the pipeline stated in the specification.  The capability check of
    the service and the [StorageService] of the sessions are embedded as
    well, each in a module of its own.

    Conventions of the embedding.

    - A JavaScript string is a [string]: a sequence of 8-bit characters read
      as the code units 0..255 (Latin-1).  The character classes [\s], [\w]
      and the case mappings below are the JavaScript ones restricted to that
      range.
    - Asynchronous methods are functions in the monad [M]: a state monad over
      [World] whose computations either return a value or throw a [Thrown]
      value.  [await] is sequencing; the event trace of the world records the
      order of the calls made on the browser's capability objects.
    - The browser (capability objects, clock) is an [Env] of oracles.  The
      progress callback and the [destroy()] method of a handle are taken
      not to throw. *)

From Stdlib Require Import ZArith Floats Ascii String List Sorted.
From stdpp Require Import base option list strings pretty gmap.

Local Open Scope string_scope.
Local Open Scope nat_scope.
Local Open Scope list_scope.

(** ** JavaScript string primitives *)

Module JS.

Definition code (c : ascii) : nat := nat_of_ascii c.

(** The class [\s] (white space and line terminators) on code units 0..255. *)
Definition is_space (c : ascii) : bool :=
  let n := code c in
  ((9 <=? n) && (n <=? 13)) || (n =? 32) || (n =? 160).

Definition is_digit (c : ascii) : bool :=
  let n := code c in (48 <=? n) && (n <=? 57).

Definition is_upper (c : ascii) : bool :=
  let n := code c in (65 <=? n) && (n <=? 90).

Definition is_lower (c : ascii) : bool :=
  let n := code c in (97 <=? n) && (n <=? 122).

(** The class [[a-zA-Z0-9]]. *)
Definition is_alnum (c : ascii) : bool :=
  is_lower c || is_upper c || is_digit c.

(** The class [\w], that is [[A-Za-z0-9_]]. *)
Definition is_word (c : ascii) : bool :=
  is_alnum c || (code c =? 95).

(** [String.prototype.toLowerCase] on a code unit below 256: the letters
    A-Z and the Latin-1 capitals (192..222 except the multiplication sign
    215) move up by 32. *)
Definition lower_char (c : ascii) : ascii :=
  let n := code c in
  if is_upper c || ((192 <=? n) && (n <=? 222) && negb (n =? 215))
  then ascii_of_nat (n + 32) else c.

(** [toUpperCase] on the characters of [\w]; the pipeline only applies it
    to the first character of a cleaned word. *)
Definition upper_char (c : ascii) : ascii :=
  if is_lower c then ascii_of_nat (code c - 32) else c.

Fixpoint map_chars (f : ascii -> ascii) (s : string) : string :=
  match s with
  | EmptyString => EmptyString
  | String c t => String (f c) (map_chars f t)
  end.

Fixpoint filter_chars (p : ascii -> bool) (s : string) : string :=
  match s with
  | EmptyString => EmptyString
  | String c t => if p c then String c (filter_chars p t) else filter_chars p t
  end.

Fixpoint exists_char (p : ascii -> bool) (s : string) : bool :=
  match s with
  | EmptyString => false
  | String c t => p c || exists_char p t
  end.

Fixpoint forall_char (p : ascii -> bool) (s : string) : bool :=
  match s with
  | EmptyString => true
  | String c t => p c && forall_char p t
  end.

Definition toLowerCase (s : string) : string := map_chars lower_char s.

Fixpoint drop_while (p : ascii -> bool) (s : string) : string :=
  match s with
  | EmptyString => EmptyString
  | String c t => if p c then drop_while p t else s
  end.

(** [drop_while_end p s] removes the longest suffix of [p]-characters. *)
Fixpoint drop_while_end (p : ascii -> bool) (s : string) : string :=
  match s with
  | EmptyString => EmptyString
  | String c t =>
      match drop_while_end p t with
      | EmptyString => if p c then EmptyString else String c EmptyString
      | r => String c r
      end
  end.

(** [String.prototype.trim]. *)
Definition trim (s : string) : string :=
  drop_while_end is_space (drop_while is_space s).

(** [s.split(/[C]+/)] for a character class [C]: the fields between the
    maximal runs of [C]-characters.  A run at the start or at the end
    leaves an empty first or last field; the empty string gives one
    empty field.  [cur] is the field being read and [in_run] says that
    the previous character was a separator. *)
Fixpoint split_runs_go (sep : ascii -> bool) (s : string)
         (cur : string) (in_run : bool) : list string :=
  match s with
  | EmptyString => [cur]
  | String c t =>
      if sep c
      then if in_run then split_runs_go sep t EmptyString true
           else cur :: split_runs_go sep t EmptyString true
      else split_runs_go sep t (cur +:+ String c EmptyString) false
  end.

Definition split_runs (sep : ascii -> bool) (s : string) : list string :=
  split_runs_go sep s EmptyString false.

(** [s.split(c)] for a one-character separator. *)
Fixpoint split_char_go (sep : ascii) (s : string) (cur : string) : list string :=
  match s with
  | EmptyString => [cur]
  | String c t =>
      if Ascii.eqb c sep then cur :: split_char_go sep t EmptyString
      else split_char_go sep t (cur +:+ String c EmptyString)
  end.

Definition split_char (sep : ascii) (s : string) : list string :=
  split_char_go sep s EmptyString.

(** [Array.prototype.join]. *)
Fixpoint join (sep : string) (l : list string) : string :=
  match l with
  | [] => EmptyString
  | [x] => x
  | x :: t => x +:+ sep +:+ join sep t
  end.

(** [s.startsWith(p)]. *)
Definition startsWith (p s : string) : bool := String.prefix p s.

(** [s.includes(p)]. *)
Fixpoint includes (p s : string) : bool :=
  String.prefix p s ||
  match s with
  | EmptyString => false
  | String _ t => includes p t
  end.

(** [s.substring(0, n)]. *)
Definition substring0 (n : nat) (s : string) : string := String.substring 0 n s.

(** The decimal text of a number, as a template literal prints it. *)
Definition of_nat (n : nat) : string := pretty n.
Definition of_Z (z : Z) : string := pretty z.

End JS.

(** ** Learner preferences (types/user-preferences) *)

Inductive GradeLevel :=
| GRADE_1 | GRADE_2 | GRADE_3 | GRADE_4 | GRADE_5 | GRADE_6 | GRADE_7
| GRADE_8 | GRADE_9 | GRADE_10 | GRADE_11 | GRADE_12 | UNDERGRAD.

(** The string value of each member of the [GradeLevel] enum. *)
Definition gradeLevel_value (g : GradeLevel) : string :=
  match g with
  | GRADE_1 => "1" | GRADE_2 => "2" | GRADE_3 => "3" | GRADE_4 => "4"
  | GRADE_5 => "5" | GRADE_6 => "6" | GRADE_7 => "7" | GRADE_8 => "8"
  | GRADE_9 => "9" | GRADE_10 => "10" | GRADE_11 => "11" | GRADE_12 => "12"
  | UNDERGRAD => "undergrad"
  end.

Inductive Interest :=
| READING | SCIENCE | ART | WRITING | PHOTOGRAPHY | NATURE | SOCCER | CYCLING
| COOKING | GAMING | BASKETBALL | FOOTBALL | TABLE_TENNIS | TENNIS
| TECHNOLOGY | SKATEBOARDING.

Definition interest_value (i : Interest) : string :=
  match i with
  | READING => "reading" | SCIENCE => "science" | ART => "art"
  | WRITING => "writing" | PHOTOGRAPHY => "photography" | NATURE => "nature"
  | SOCCER => "soccer" | CYCLING => "cycling" | COOKING => "cooking"
  | GAMING => "gaming" | BASKETBALL => "basketball" | FOOTBALL => "football"
  | TABLE_TENNIS => "table_tennis" | TENNIS => "tennis"
  | TECHNOLOGY => "technology" | SKATEBOARDING => "skateboarding"
  end.

Record UserPreferences := {
  gradeLevel : GradeLevel;
  interest : Interest
}.

Inductive Complexity := elementary | middle | high | college.

Definition complexity_value (c : Complexity) : string :=
  match c with
  | elementary => "elementary" | middle => "middle"
  | high => "high" | college => "college"
  end.

Record GradeLevelInfo := {
  displayName : string;
  description : string;
  ageRange : string;
  complexity : Complexity;
  order : nat
}.

Definition GRADE_LEVEL_INFO (g : GradeLevel) : GradeLevelInfo :=
  match g with
  | GRADE_1 => {| displayName := "Grade 1";
                  description := "First grade level with simple vocabulary";
                  ageRange := "6-7 years"; complexity := elementary; order := 1 |}
  | GRADE_2 => {| displayName := "Grade 2";
                  description := "Second grade level with basic concepts";
                  ageRange := "7-8 years"; complexity := elementary; order := 2 |}
  | GRADE_3 => {| displayName := "Grade 3";
                  description := "Third grade level with expanding vocabulary";
                  ageRange := "8-9 years"; complexity := elementary; order := 3 |}
  | GRADE_4 => {| displayName := "Grade 4";
                  description := "Fourth grade level with more complex ideas";
                  ageRange := "9-10 years"; complexity := elementary; order := 4 |}
  | GRADE_5 => {| displayName := "Grade 5";
                  description := "Fifth grade level with intermediate concepts";
                  ageRange := "10-11 years"; complexity := elementary; order := 5 |}
  | GRADE_6 => {| displayName := "Grade 6";
                  description := "Sixth grade level transitioning to middle school";
                  ageRange := "11-12 years"; complexity := middle; order := 6 |}
  | GRADE_7 => {| displayName := "Grade 7";
                  description := "Seventh grade level with abstract thinking";
                  ageRange := "12-13 years"; complexity := middle; order := 7 |}
  | GRADE_8 => {| displayName := "Grade 8";
                  description := "Eighth grade level preparing for high school";
                  ageRange := "13-14 years"; complexity := middle; order := 8 |}
  | GRADE_9 => {| displayName := "Grade 9";
                  description := "Freshman level with complex analysis";
                  ageRange := "14-15 years"; complexity := high; order := 9 |}
  | GRADE_10 => {| displayName := "Grade 10";
                   description := "Sophomore level with advanced concepts";
                   ageRange := "15-16 years"; complexity := high; order := 10 |}
  | GRADE_11 => {| displayName := "Grade 11";
                   description := "Junior level with specialized knowledge";
                   ageRange := "16-17 years"; complexity := high; order := 11 |}
  | GRADE_12 => {| displayName := "Grade 12";
                   description := "Senior level preparing for college";
                   ageRange := "17-18 years"; complexity := high; order := 12 |}
  | UNDERGRAD => {| displayName := "Undergraduate";
                    description := "College level with academic depth";
                    ageRange := "18+ years"; complexity := college; order := 13 |}
  end.

Inductive InterestCategory := academic | sports | creative | technology | lifestyle.

Record InterestInfo := {
  i_displayName : string;
  i_description : string;
  i_category : InterestCategory;
  analogyExamples : list string
}.

Definition INTEREST_INFO (i : Interest) : InterestInfo :=
  match i with
  | READING => {| i_displayName := "Reading";
      i_description := "Books, literature, and storytelling"; i_category := academic;
      analogyExamples := ["like chapters in a book"; "similar to plot development";
                          "as in a story narrative"] |}
  | SCIENCE => {| i_displayName := "Science";
      i_description := "Scientific discovery and experimentation"; i_category := academic;
      analogyExamples := ["like a scientific experiment"; "similar to laboratory research";
                          "as in hypothesis testing"] |}
  | ART => {| i_displayName := "Art";
      i_description := "Visual arts, creativity, and design"; i_category := creative;
      analogyExamples := ["like painting a masterpiece"; "similar to artistic composition";
                          "as in creative expression"] |}
  | WRITING => {| i_displayName := "Writing";
      i_description := "Creative writing and communication"; i_category := creative;
      analogyExamples := ["like writing a story"; "similar to crafting sentences";
                          "as in editing a draft"] |}
  | PHOTOGRAPHY => {| i_displayName := "Photography";
      i_description := "Capturing moments and visual storytelling"; i_category := creative;
      analogyExamples := ["like framing a perfect shot"; "similar to adjusting camera settings";
                          "as in capturing the moment"] |}
  | NATURE => {| i_displayName := "Nature";
      i_description := "Outdoor exploration and environmental awareness"; i_category := lifestyle;
      analogyExamples := ["like exploring a forest"; "similar to observing wildlife";
                          "as in ecosystem balance"] |}
  | SOCCER => {| i_displayName := "Soccer";
      i_description := "Football/soccer strategy and teamwork"; i_category := sports;
      analogyExamples := ["like scoring a goal"; "similar to team coordination";
                          "as in strategic positioning"] |}
  | CYCLING => {| i_displayName := "Cycling";
      i_description := "Bicycle riding and endurance sports"; i_category := sports;
      analogyExamples := ["like pedaling uphill"; "similar to maintaining momentum";
                          "as in finding the right gear"] |}
  | COOKING => {| i_displayName := "Cooking";
      i_description := "Culinary arts and food preparation"; i_category := lifestyle;
      analogyExamples := ["like following a recipe"; "similar to mixing ingredients";
                          "as in timing the cooking process"] |}
  | GAMING => {| i_displayName := "Gaming";
      i_description := "Video games and interactive entertainment"; i_category := technology;
      analogyExamples := ["like leveling up a character"; "similar to completing a quest";
                          "as in strategic gameplay"] |}
  | BASKETBALL => {| i_displayName := "Basketball";
      i_description := "Basketball strategy and teamwork"; i_category := sports;
      analogyExamples := ["like shooting a three-pointer"; "similar to team plays";
                          "as in defensive strategy"] |}
  | FOOTBALL => {| i_displayName := "Football";
      i_description := "American football strategy and tactics"; i_category := sports;
      analogyExamples := ["like executing a play"; "similar to quarterback strategy";
                          "as in touchdown celebration"] |}
  | TABLE_TENNIS => {| i_displayName := "Table Tennis";
      i_description := "Ping pong skill and precision"; i_category := sports;
      analogyExamples := ["like a perfect serve"; "similar to quick reflexes";
                          "as in precise paddle control"] |}
  | TENNIS => {| i_displayName := "Tennis";
      i_description := "Tennis technique and competition"; i_category := sports;
      analogyExamples := ["like an ace serve"; "similar to baseline strategy";
                          "as in match point pressure"] |}
  | TECHNOLOGY => {| i_displayName := "Technology";
      i_description := "Digital innovation and computing"; i_category := technology;
      analogyExamples := ["like programming code"; "similar to software algorithms";
                          "as in system optimization"] |}
  | SKATEBOARDING => {| i_displayName := "Skateboarding";
      i_description := "Skateboarding tricks and culture"; i_category := sports;
      analogyExamples := ["like landing a trick"; "similar to finding balance";
                          "as in mastering the board"] |}
  end.

(** ** Text content types and limits (types/text-content) *)

Record ContentLimits := {
  minCharacters : nat;
  maxCharacters : nat;
  minWords : nat;
  maxWords : nat;
  maxSentences : option nat
}.

#[local] Set Warnings "-abstract-large-number".

Definition DEFAULT_CONTENT_LIMITS : ContentLimits :=
  {| minCharacters := 50; maxCharacters := 50000;
     minWords := 10; maxWords := 10000; maxSentences := Some 500 |}.

(** The advisory [warnings] list of the validator (built from
    floating-point ratios) is not part of the embedding: nothing in the
    pipeline reads it, and [isValid] depends on [errors] alone. *)
Record ContentValidation := {
  isValid : bool;
  errors : list string;
  wordCount : nat;
  characterCount : nat;
  estimatedReadingTime : nat
}.

Record TextStatistics := {
  words : nat;
  characters : nat;
  sentences : nat;
  readingTime : nat
}.

(** ** The text validator (utils/text-validator) *)

Module Regex.

(** Case-insensitive comparison of code units, as the [i] flag does it
    on the ASCII letters of the patterns below. *)
Definition eq_ci (a b : ascii) : bool :=
  Ascii.eqb (JS.lower_char a) (JS.lower_char b).

Fixpoint prefix_ci (p s : string) : bool :=
  match p, s with
  | EmptyString, _ => true
  | String a p', String b s' => eq_ci a b && prefix_ci p' s'
  | String _ _, EmptyString => false
  end.

(** Offset of the first occurrence of [p] in [s], ignoring case. *)
Fixpoint find_ci (p s : string) : option nat :=
  if prefix_ci p s then Some 0
  else match s with
       | EmptyString => None
       | String _ t => S <$> find_ci p t
       end.

Fixpoint drop (n : nat) (s : string) : string :=
  match n, s with
  | 0, _ => s
  | S n', String _ t => drop n' t
  | S _, EmptyString => EmptyString
  end.

(** The script and iframe patterns have one shape: the opening text
    ([<script] or [<iframe]), a word boundary, any text in which no
    [<] begins the closing text, then the closing text ([</script>] or
    [</iframe>]), all compared without regard to case.  Anchored at the
    start of [s] such a pattern matches exactly when [s] begins with the
    opening text, the next character exists and is not a word character,
    and the closing text occurs from there on; the match ends with the
    first such occurrence.  The result is the length of the match. *)
Definition tag_match_here (opening closing s : string) : option nat :=
  if prefix_ci opening s then
    match drop (String.length opening) s with
    | EmptyString => None
    | String c _ as rest =>
        if JS.is_word c then None
        else (fun j => String.length opening + j + String.length closing)
               <$> find_ci closing rest
    end
  else None.

(** The leftmost match that starts at an index [>= from]; [pos] is the
    index of the first character of [s] in the whole subject.  The result
    is the index just after the match. *)
Fixpoint tag_exec_go (opening closing s : string) (pos from : nat) : option nat :=
  match (if from <=? pos then tag_match_here opening closing s else None) with
  | Some len => Some (pos + len)
  | None =>
      match s with
      | EmptyString => None
      | String _ t => tag_exec_go opening closing t (S pos) from
      end
  end.

Definition tag_exec (opening closing subject : string) (from : nat) : option nat :=
  tag_exec_go opening closing subject 0 from.

(** [RegExp.prototype.test] on a regular expression with the [g] flag:
    the search starts at [lastIndex], a match moves [lastIndex] to its end
    and a failure resets it to 0. *)
Definition test_global (exec : string -> nat -> option nat)
           (subject : string) (lastIndex : nat) : bool * nat :=
  if String.length subject <? lastIndex then (false, 0)
  else match exec subject lastIndex with
       | Some e => (true, e)
       | None => (false, 0)
       end.

(** The pattern of a string made of white space only. *)
Definition only_whitespace (s : string) : bool := JS.forall_char JS.is_space s.

Definition script_tag : string -> nat -> option nat := tag_exec "<script" "</script>".
Definition iframe_tag : string -> nat -> option nat := tag_exec "<iframe" "</iframe>".

End Regex.

(** The two forbidden patterns written with the [g] flag are objects of the
    validator singleton; their [lastIndex] survives from one call of
    [validate] to the next. *)
Record ValidatorState := {
  scriptLastIndex : nat;
  iframeLastIndex : nat
}.

Definition validator_init : ValidatorState :=
  {| scriptLastIndex := 0; iframeLastIndex := 0 |}.

Module TextValidator.

Definition limits : ContentLimits := DEFAULT_CONTENT_LIMITS.
Definition requireAlphanumeric : bool := true.

Definition countWords (text : string) : nat :=
  if String.eqb (JS.trim text) EmptyString then 0
  else length (JS.split_runs JS.is_space (JS.trim text)).

Definition is_terminal (c : ascii) : bool :=
  Ascii.eqb c "." || Ascii.eqb c "!" || Ascii.eqb c "?".

Definition nonblank (s : string) : bool := 0 <? String.length (JS.trim s).

Definition countSentences (text : string) : nat :=
  if String.eqb (JS.trim text) EmptyString then 0
  else Nat.max 1 (length (List.filter nonblank (JS.split_runs is_terminal text))).

Definition ceil_div (a b : nat) : nat := (a + (b - 1)) / b.

Definition getTextStatistics (text : string) : TextStatistics :=
  let trimmedText := JS.trim text in
  if String.eqb trimmedText EmptyString then
    {| words := 0; characters := 0; sentences := 0; readingTime := 0 |}
  else
    let w := countWords trimmedText in
    {| words := w;
       characters := String.length text;
       sentences := countSentences trimmedText;
       readingTime := ceil_div w 200 |}.

Definition validateLength (stats : TextStatistics) : list string :=
  (if characters stats <? minCharacters limits
   then ["Content must be at least " +:+ JS.of_nat (minCharacters limits) +:+
         " characters long (currently " +:+ JS.of_nat (characters stats) +:+ ")"]
   else []) ++
  (if maxCharacters limits <? characters stats
   then ["Content must not exceed " +:+ JS.of_nat (maxCharacters limits) +:+
         " characters (currently " +:+ JS.of_nat (characters stats) +:+ ")"]
   else []) ++
  (if words stats <? minWords limits
   then ["Content must contain at least " +:+ JS.of_nat (minWords limits) +:+
         " words (currently " +:+ JS.of_nat (words stats) +:+ ")"]
   else []) ++
  (if maxWords limits <? words stats
   then ["Content must not exceed " +:+ JS.of_nat (maxWords limits) +:+
         " words (currently " +:+ JS.of_nat (words stats) +:+ ")"]
   else []).

Definition validateQuality (content : string) : list string :=
  if requireAlphanumeric && negb (JS.exists_char JS.is_alnum content)
  then ["Content must contain alphanumeric characters"]
  else [].

(** The loop over [forbiddenPatterns] stops at the first pattern that
    matches, so a later pattern is not tested and keeps its [lastIndex]. *)
Definition validateSecurity (content : string) (st : ValidatorState)
  : list string * ValidatorState :=
  let forbidden := ["Content contains forbidden patterns or potentially unsafe elements"] in
  if Regex.only_whitespace content then (forbidden, st)
  else
    let (m1, i1) := Regex.test_global Regex.script_tag content (scriptLastIndex st) in
    if m1 then (forbidden, {| scriptLastIndex := i1; iframeLastIndex := iframeLastIndex st |})
    else
      let (m2, i2) := Regex.test_global Regex.iframe_tag content (iframeLastIndex st) in
      (if m2 then forbidden else [],
       {| scriptLastIndex := i1; iframeLastIndex := i2 |}).

Definition validate (content : string) (st : ValidatorState)
  : ContentValidation * ValidatorState :=
  let stats := getTextStatistics content in
  let lengthErrors := validateLength stats in
  let qualityErrors := validateQuality content in
  let (securityErrors, st') := validateSecurity content st in
  let errs := lengthErrors ++ qualityErrors ++ securityErrors in
  ({| isValid := length errs =? 0;
      errors := errs;
      wordCount := words stats;
      characterCount := characters stats;
      estimatedReadingTime := readingTime stats |}, st').

End TextValidator.

(** ** Generated materials (types/generated-materials) *)

(** Times are milliseconds on the clock of the host, as integers. *)
Record GenerationMetadata := {
  generatedAt : Z;
  processingTime : Z;
  md_gradeLevel : GradeLevel;
  md_interest : Interest
}.

Record SummaryContent := {
  sm_text : string;
  keyPoints : list string;
  sm_wordCount : nat;
  sm_type : string;
  sm_metadata : GenerationMetadata
}.

Record AdaptedContent := {
  ad_text : string;
  originalLength : nat;
  adaptedLength : nat;
  adaptations : list string;
  ad_gradeLevel : GradeLevel;
  ad_interest : Interest;
  ad_metadata : GenerationMetadata
}.

Inductive NodeCategory := main_topic | subtopic | example | definition | process.
Inductive EdgeType := hierarchical | associative | causal | temporal.

Record MindMapNode := {
  node_id : string;
  label : string;
  node_description : string;
  level : nat;
  category : NodeCategory;
  importance : nat
}.

Record MindMapEdge := {
  edge_id : string;
  sourceId : string;
  targetId : string;
  relationship : string;
  weight : nat;
  edge_type : EdgeType
}.

Record Layout := { width : nat; height : nat; centerX : nat; centerY : nat }.

Record MindMapData := {
  nodes : list MindMapNode;
  edges : list MindMapEdge;
  rootNodeId : string;
  layout : Layout;
  mm_metadata : GenerationMetadata
}.

(** Segment times are JavaScript numbers, that is IEEE-754 doubles: they
    are kept as binary64 floats, and the arithmetic on them is the rounded
    arithmetic of the source. *)
Record AudioSegment := {
  seg_id : string;
  seg_text : string;
  startTime : float;
  endTime : float;
  isPlaying : bool;
  seg_speed : float
}.

Record AudioData := {
  au_text : string;
  duration : nat;
  au_speed : float;
  language : string;
  segments : list AudioSegment;
  au_metadata : GenerationMetadata
}.

Inductive Difficulty := easy | medium | hard.

Record QuizOption := {
  opt_id : string;
  opt_text : string;
  isCorrect : bool;
  opt_explanation : string
}.

Record QuizQuestion := {
  q_id : string;
  q_type : string;
  question : string;
  options : list QuizOption;
  correctAnswer : string;
  q_explanation : string;
  points : nat;
  q_category : string;
  q_difficulty : Difficulty;
  timeLimit : nat
}.

Record Quiz := {
  quiz_id : string;
  title : string;
  questions : list QuizQuestion;
  totalPoints : nat;
  timeEstimate : nat;
  quiz_difficulty : GradeLevel;
  quiz_metadata : GenerationMetadata
}.

Record GeneratedMaterials := {
  summary : SummaryContent;
  adaptedContent : AdaptedContent;
  mindMap : MindMapData;
  audioLesson : AudioData;
  quiz : Quiz;
  gm_processingTime : Z;
  gm_generatedAt : Z;
  version : string
}.

Inductive Status := pending | in_progress | completed | error.

Record GenerationProgress := {
  step : string;
  status : Status;
  progress : nat;
  message : option string;
  gp_startTime : option Z;
  gp_endTime : option Z
}.

Record Stats := {
  totalTime : Z;
  stepTimes : gmap string Z;
  apiCalls : nat;
  tokensUsed : nat
}.

Record GenerationResult := {
  success : bool;
  materials : option GeneratedMaterials;
  gr_error : option string;
  stats : Stats
}.

(** ** The host: capability objects, thrown values, the clock *)

Inductive AIErrorCode :=
| API_UNAVAILABLE | MODEL_NOT_READY | RATE_LIMITED | CONTENT_TOO_LONG
| PROCESSING_ERROR | NETWORK_ERROR | UNKNOWN_ERROR.

(** What a [throw] can carry: an instance of [Error] with its name and
    message, the plain [AIServiceError] object that [handleError] builds
    (which is not an instance of [Error]), or any other value. *)
Inductive Thrown :=
| JsError (name msg : string)
| JsServiceError (code : AIErrorCode) (msg apiName : string) (originalError : Thrown)
| JsOther.

Inductive AvailabilityStatus := readily | after_download | unavailable_no.

Inductive ApiKind := SummarizerAPI | RewriterAPI | WriterAPI.

Record CapOptions := {
  o_type : option string;
  o_tone : option string;
  o_format : option string;
  o_length : option string;
  o_context : option string
}.

(** How the browser answers one request made through the service: whether
    the global object exists, what [availability()] resolves to or rejects
    with, whether [create(options)] rejects, and what the transformation
    method of the created handle resolves to or rejects with. *)
Record Capability := {
  supported : bool;
  availability : Thrown + AvailabilityStatus;
  create : CapOptions -> option Thrown;
  transform : string -> option string -> Thrown + string
}.

Inductive Stage :=
| validation | summarizing | adapting | creating_mindmap
| generating_audio | creating_quiz | finalizing.

Definition stage_name (k : Stage) : string :=
  match k with
  | validation => "validation" | summarizing => "summarizing"
  | adapting => "adapting" | creating_mindmap => "creating_mindmap"
  | generating_audio => "generating_audio" | creating_quiz => "creating_quiz"
  | finalizing => "finalizing"
  end.

#[global] Instance Stage_eq_dec : EqDecision Stage.
Proof. solve_decision. Defined.

(** The environment of a run: the clock answers the n-th reading; [api k n]
    is the behaviour of the browser for the n-th request made through the
    service (of kind [k]); [abortCalledAfter] is the stage after whose
    completion the caller invokes [abort()] on the processor, if ever. *)
Record Env := {
  clock : nat -> Z;
  api : ApiKind -> nat -> Capability;
  abortCalledAfter : option Stage
}.

(** A cancellation token, described by when its owner cancels it: after
    the named stage has completed, or never. *)
Record AbortSignal := { cancelledAfter : option Stage }.

(** What is observable of the calls made through the service. *)
Inductive Event :=
| ServiceCall (k : ApiKind) (input : string)
| AvailabilityQuery (k : ApiKind)
| Created (k : ApiKind) (h : nat)
| CreateRejected (k : ApiKind)
| Transform (h : nat) (input : string) (context : option string)
| Destroy (h : nat).

#[global] Instance ApiKind_eq_dec : EqDecision ApiKind.
Proof. solve_decision. Defined.
#[global] Instance Event_eq_dec : EqDecision Event.
Proof. solve_decision. Defined.

(** The mutable state a run works on.  [ticks] counts the clock readings,
    [requests] the requests made through the service, [handles] the handles
    created so far; [trace] and [emitted] grow at the end.  [controller] is
    the [abortController] field of the processor ([None] while undefined,
    otherwise its aborted flag) and [run_stats] the [stats] object of the
    running [processContent]. *)
Record World := {
  ticks : nat;
  requests : nat;
  handles : nat;
  trace : list Event;
  emitted : list GenerationProgress;
  validator : ValidatorState;
  controller : option bool;
  run_stats : Stats
}.

Definition stats0 : Stats :=
  {| totalTime := 0; stepTimes := ∅; apiCalls := 0; tokensUsed := 0 |}.

Definition world0 : World :=
  {| ticks := 0; requests := 0; handles := 0; trace := []; emitted := [];
     validator := validator_init; controller := None; run_stats := stats0 |}.

(** ** The monad of asynchronous methods *)

Definition M (A : Type) : Type := World -> (Thrown + A) * World.

Definition ret {A} (a : A) : M A := fun w => (inr a, w).

Definition throw {A} (e : Thrown) : M A := fun w => (inl e, w).

Definition bind {A B} (m : M A) (k : A -> M B) : M B :=
  fun w => match m w with
           | (inl e, w') => (inl e, w')
           | (inr a, w') => k a w'
           end.

(** [try { body } catch (e) { handler e }] *)
Definition try_catch {A} (body : M A) (handler : Thrown -> M A) : M A :=
  fun w => match body w with
           | (inl e, w') => handler e w'
           | (inr a, w') => (inr a, w')
           end.

(** [try { body } finally { cleanup }]: the cleanup runs on both exits and
    the outcome of the body stands unless the cleanup itself throws. *)
Definition try_finally {A} (body : M A) (cleanup : M unit) : M A :=
  fun w => match body w with
           | (r, w') =>
               match cleanup w' with
               | (inl e, w'') => (inl e, w'')
               | (inr _, w'') => (r, w'')
               end
           end.

Definition lift_result {A} (r : Thrown + A) : M A :=
  match r with inl e => throw e | inr a => ret a end.

Definition get : M World := fun w => (inr w, w).
Definition modify (f : World -> World) : M unit := fun w => (inr tt, f w).

Notation "'do' x <- c ; k" := (bind c (fun x => k))
  (at level 10, x name, c at level 100, k at level 200).
Notation "c ;; k" := (bind c (fun _ => k))
  (at level 100, k at level 200, right associativity).

Definition set_ticks (n : nat) (w : World) : World :=
  {| ticks := n; requests := requests w; handles := handles w; trace := trace w;
     emitted := emitted w; validator := validator w; controller := controller w;
     run_stats := run_stats w |}.
Definition set_requests (n : nat) (w : World) : World :=
  {| ticks := ticks w; requests := n; handles := handles w; trace := trace w;
     emitted := emitted w; validator := validator w; controller := controller w;
     run_stats := run_stats w |}.
Definition set_handles (n : nat) (w : World) : World :=
  {| ticks := ticks w; requests := requests w; handles := n; trace := trace w;
     emitted := emitted w; validator := validator w; controller := controller w;
     run_stats := run_stats w |}.
Definition set_trace (t : list Event) (w : World) : World :=
  {| ticks := ticks w; requests := requests w; handles := handles w; trace := t;
     emitted := emitted w; validator := validator w; controller := controller w;
     run_stats := run_stats w |}.
Definition set_emitted (l : list GenerationProgress) (w : World) : World :=
  {| ticks := ticks w; requests := requests w; handles := handles w; trace := trace w;
     emitted := l; validator := validator w; controller := controller w;
     run_stats := run_stats w |}.
Definition set_validator (v : ValidatorState) (w : World) : World :=
  {| ticks := ticks w; requests := requests w; handles := handles w; trace := trace w;
     emitted := emitted w; validator := v; controller := controller w;
     run_stats := run_stats w |}.
Definition set_controller (c : option bool) (w : World) : World :=
  {| ticks := ticks w; requests := requests w; handles := handles w; trace := trace w;
     emitted := emitted w; validator := validator w; controller := c;
     run_stats := run_stats w |}.
Definition set_run_stats (st : Stats) (w : World) : World :=
  {| ticks := ticks w; requests := requests w; handles := handles w; trace := trace w;
     emitted := emitted w; validator := validator w; controller := controller w;
     run_stats := st |}.

Definition log (ev : Event) : M unit :=
  modify (fun w => set_trace (trace w ++ [ev]) w).

(** ** The Chrome AI service (features/ai-playground/services) *)

Section Service.

Variable env : Env.

(** [Date.now()] and [new Date()]: one reading of the clock. *)
Definition Date_now : M Z :=
  fun w => (inr (clock env (ticks w)), set_ticks (S (ticks w)) w).

Definition apiName (k : ApiKind) : string :=
  match k with
  | SummarizerAPI => "Summarizer" | RewriterAPI => "Rewriter" | WriterAPI => "Writer"
  end.

Definition createOperation (k : ApiKind) : string :=
  match k with
  | SummarizerAPI => "createSummarizer"
  | RewriterAPI => "createRewriter"
  | WriterAPI => "createWriter"
  end.

(** [handleError]: the code is chosen from the name and the message of an
    [Error]; any other value gets [UNKNOWN_ERROR]. *)
Definition handleError (err : Thrown) (operation : string) : Thrown :=
  let errorCode :=
    match err with
    | JsError name message =>
        if String.eqb name "NotSupportedError" then API_UNAVAILABLE
        else if String.eqb name "InvalidStateError" then MODEL_NOT_READY
        else if String.eqb name "QuotaExceededError" then RATE_LIMITED
        else if JS.includes "too long" message then CONTENT_TOO_LONG
        else if String.eqb name "NetworkError" then NETWORK_ERROR
        else PROCESSING_ERROR
    | _ => UNKNOWN_ERROR
    end in
  JsServiceError errorCode
    ("Failed to " +:+ operation +:+ ": " +:+
     match err with JsError _ message => message | _ => "Unknown error" end)
    operation err.

(** [createSummarizer], [createRewriter] and [createWriter] are one
    function up to the name of the global object. *)
Definition createHandle (k : ApiKind) (cap : Capability) (opts : CapOptions) : M nat :=
  if negb (supported cap)
  then throw (JsError "Error" (apiName k +:+ " API not available"))
  else
    try_catch
      (log (AvailabilityQuery k) ;;
       do a <- lift_result (availability cap) ;
       match a with
       | unavailable_no => throw (JsError "Error" (apiName k +:+ " is not available"))
       | _ =>
           match create cap opts with
           | Some e => log (CreateRejected k) ;; throw e
           | None =>
               do w <- get ;
               modify (set_handles (S (handles w))) ;;
               log (Created k (handles w)) ;;
               ret (handles w)
           end
       end)
      (fun e => throw (handleError e (createOperation k))).

Definition createSummarizer := createHandle SummarizerAPI.
Definition createRewriter := createHandle RewriterAPI.
Definition createWriter := createHandle WriterAPI.

(** The body shared by [summarize], [rewrite] and [write]: create the
    handle, call its method inside [try], destroy it in [finally]. *)
Definition transformWith (k : ApiKind) (input : string) (opts : CapOptions) : M string :=
  do w <- get ;
  let cap := api env k (requests w) in
  modify (set_requests (S (requests w))) ;;
  log (ServiceCall k input) ;;
  do h <- createHandle k cap opts ;
  try_finally
    (log (Transform h input (o_context opts)) ;;
     lift_result (transform cap input (o_context opts)))
    (log (Destroy h)).

Definition summarize := transformWith SummarizerAPI.
Definition rewrite := transformWith RewriterAPI.
Definition write := transformWith WriterAPI.

End Service.

(** ** The content processor (services/content-processor): pure helpers *)

Definition nl : string := String (ascii_of_nat 10) EmptyString.
Definition indent : string := "    ".

(** The stop words of [extractConcepts]. *)
Definition commonWords : gset string :=
  list_to_set
    ["the"; "a"; "an"; "and"; "or"; "but"; "in"; "on"; "at"; "to"; "for"; "of";
     "with"; "by"; "is"; "are"; "was"; "were"; "be"; "been"; "being"; "have";
     "has"; "had"; "do"; "does"; "did"; "will"; "would"; "could"; "should";
     "may"; "might"; "can"; "this"; "that"; "these"; "those"].

(** [wordFreq.set(w, (wordFreq.get(w) || 0) + 1)] on a [Map], whose entries
    keep the order in which their keys were first inserted. *)
Fixpoint bump (w : string) (freq : list (string * nat)) : list (string * nat) :=
  match freq with
  | [] => [(w, 1)]
  | (k, n) :: rest => if String.eqb k w then (k, n + 1) :: rest else (k, n) :: bump w rest
  end.

Definition cleanWord (word : string) : string :=
  JS.filter_chars JS.is_word word.

Definition is_candidate (clean : string) : bool :=
  (3 <? String.length clean) && negb (bool_decide (clean ∈ commonWords)).

Definition countWord (freq : list (string * nat)) (word : string) : list (string * nat) :=
  let clean := cleanWord word in
  if is_candidate clean then bump clean freq else freq.

(** [entries.sort(([,a], [,b]) => b - a)]: a stable sort by decreasing
    count.  An entry is put before the first entry whose count is not
    greater than its own, so entries of equal count keep their order. *)
Fixpoint insert_desc (x : string * nat) (l : list (string * nat)) : list (string * nat) :=
  match l with
  | [] => [x]
  | y :: rest => if snd x <? snd y then y :: insert_desc x rest else x :: y :: rest
  end.

Definition sort_desc (l : list (string * nat)) : list (string * nat) :=
  foldr insert_desc [] l.

Definition capitalize (word : string) : string :=
  match word with
  | EmptyString => EmptyString
  | String c rest => String (JS.upper_char c) rest
  end.

Definition wordFreq (content : string) : list (string * nat) :=
  fold_left countWord (JS.split_runs JS.is_space (JS.toLowerCase content)) [].

Definition extractConcepts (content : string) : list string :=
  map (fun e => capitalize (fst e)) (take 8 (sort_desc (wordFreq content))).

(** [extractKeyPoints].  The second bullet marker of the source (U+2022) is
    not a Latin-1 character, so only the hyphen can occur here.  The marker
    is removed only when it is the very first character of the line. *)
Definition strip_bullet (line : string) : string :=
  match line with
  | String c rest => if Ascii.eqb c "-" then JS.drop_while JS.is_space rest else line
  | EmptyString => line
  end.

Definition extractKeyPoints (summaryText : string) : list string :=
  List.filter (fun point => 0 <? String.length point)
    (map (fun line => JS.trim (strip_bullet line))
       (List.filter (fun line => JS.startsWith "-" (JS.trim line))
          (JS.split_char (ascii_of_nat 10) summaryText))).

(** A count or an index as a JavaScript number.  Array lengths and indices
    are below 2^32, where the conversion to a double is exact. *)
Definition float_of_nat (n : nat) : float :=
  PrimFloat.of_uint63 (Uint63.of_Z (Z.of_nat n)).

(** [createAudioSegments].  The quotient and the products are those of
    doubles, rounded to nearest.  With no sentence the quotient of the source
    is not a finite number, but then no segment is built from it. *)
Definition createAudioSegments (text : string) (totalDuration : float) : list AudioSegment :=
  let sentences :=
    List.filter TextValidator.nonblank (JS.split_runs TextValidator.is_terminal text) in
  let segmentDuration := (totalDuration / float_of_nat (length sentences))%float in
  imap (fun index sentence =>
          {| seg_id := "segment_" +:+ JS.of_nat index;
             seg_text := JS.trim sentence;
             startTime := (float_of_nat index * segmentDuration)%float;
             endTime := (float_of_nat (index + 1) * segmentDuration)%float;
             isPlaying := false;
             seg_speed := 1%float |})
       sentences.

Definition mapGradeToDifficulty (g : GradeLevel) : Difficulty :=
  match complexity (GRADE_LEVEL_INFO g) with
  | elementary => easy
  | middle => medium
  | high | college => hard
  end.

Definition difficulty_value (d : Difficulty) : string :=
  match d with easy => "easy" | medium => "medium" | hard => "hard" end.

Definition basePoints (d : Difficulty) : nat :=
  match d with easy => 2 | medium => 3 | hard => 4 end.

(** [parseQuizQuestions]: three sample questions; the response of the
    writer is not read. *)
Definition parseQuizQuestions (response : string) (d : Difficulty) : list QuizQuestion :=
  map (fun index =>
         {| q_id := "question_" +:+ JS.of_nat (index + 1);
            q_type := "multiple_choice";
            question := "Sample question " +:+ JS.of_nat (index + 1) +:+ " based on the content";
            options :=
              [ {| opt_id := "a"; opt_text := "Option A"; isCorrect := index =? 0;
                   opt_explanation := "Explanation for option A" |};
                {| opt_id := "b"; opt_text := "Option B"; isCorrect := index =? 1;
                   opt_explanation := "Explanation for option B" |};
                {| opt_id := "c"; opt_text := "Option C"; isCorrect := index =? 2;
                   opt_explanation := "Explanation for option C" |};
                {| opt_id := "d"; opt_text := "Option D"; isCorrect := false;
                   opt_explanation := "Explanation for option D" |} ];
            correctAnswer := default "a" (["a"; "b"; "c"] !! index);
            q_explanation := "This is the explanation for question " +:+ JS.of_nat (index + 1);
            points := basePoints d;
            q_category := "comprehension";
            q_difficulty := d;
            timeLimit := 60 |})
      (seq 0 3).

(** [buildAdaptationPrompt]; its first parameter, the content, is not used
    by the source either. *)
Definition buildAdaptationPrompt (content : string) (gradeInfo : GradeLevelInfo)
           (interestInfo : InterestInfo) : string :=
  "Rewrite this content for " +:+ displayName gradeInfo +:+ " students (" +:+
    ageRange gradeInfo +:+ ")." +:+ nl +:+ indent +:+
  "Use vocabulary appropriate for " +:+ complexity_value (complexity gradeInfo) +:+
    " level." +:+ nl +:+ indent +:+
  "Include analogies and examples from " +:+ i_displayName interestInfo +:+ " (" +:+
    i_description interestInfo +:+ ")." +:+ nl +:+ indent +:+
  "Keep the core information but make it more accessible and engaging." +:+ nl +:+ indent +:+
  "Example analogies to use: " +:+ JS.join ", " (take 2 (analogyExamples interestInfo)).

Definition mindMapPrompt (content : string) (p : UserPreferences) : string :=
  "Extract key concepts from this content and organize them as a mind map structure."
    +:+ nl +:+ indent +:+
  "Create a JSON response with main topics, subtopics, and relationships."
    +:+ nl +:+ indent +:+
  "Adapt for " +:+ gradeLevel_value (gradeLevel p) +:+ " grade level with " +:+
    interest_value (interest p) +:+ " examples." +:+ nl +:+ nl +:+ indent +:+
  "Content: " +:+ JS.substring0 2000 content +:+ "...".

Definition quizPrompt (content : string) (p : UserPreferences) : string :=
  "Create 3-5 multiple choice questions about this content for " +:+
    displayName (GRADE_LEVEL_INFO (gradeLevel p)) +:+ " students." +:+ nl +:+ indent +:+
  "Use " +:+ interest_value (interest p) +:+ " examples where relevant."
    +:+ nl +:+ indent +:+
  "Make questions " +:+ difficulty_value (mapGradeToDifficulty (gradeLevel p)) +:+
    " difficulty level." +:+ nl +:+ nl +:+ indent +:+
  "Content: " +:+ JS.substring0 1500 content +:+ "...".

(** The nodes and edges that [generateMindMap] builds from the concepts. *)
Definition mindMapNodes (concepts : list string) : list MindMapNode :=
  imap (fun index concept =>
          {| node_id := "node_" +:+ JS.of_nat index;
             label := concept;
             node_description := "Key concept: " +:+ concept;
             level := if index =? 0 then 0 else 1;
             category := if index =? 0 then main_topic else subtopic;
             importance := if index =? 0 then 10 else Nat.max 5 (10 - index) |})
       concepts.

Definition mindMapEdges (concepts : list string) : list MindMapEdge :=
  imap (fun index _ =>
          {| edge_id := "edge_" +:+ JS.of_nat index;
             sourceId := "node_0";
             targetId := "node_" +:+ JS.of_nat (index + 1);
             relationship := "contains";
             weight := 8;
             edge_type := hierarchical |})
       (drop 1 concepts).

(** ** The content processor: the pipeline *)

(** The progress callback is modelled by its effect: every entry it
    receives is appended to [emitted]. *)
Inductive ProgressCallback := record_progress.

Record ProcessingOptions := {
  onProgress : option ProgressCallback;
  signal : option AbortSignal;
  includeValidation : option bool
}.

Section Processor.

Variable env : Env.

Definition metadata_at (t : Z) (ms : Z) (p : UserPreferences) : GenerationMetadata :=
  {| generatedAt := t; processingTime := ms;
     md_gradeLevel := gradeLevel p; md_interest := interest p |}.

Definition generateSummary (content : string) (p : UserPreferences) : M SummaryContent :=
  do summaryText <-
    summarize env content
      {| o_type := Some "key-points"; o_tone := None; o_format := Some "plain-text";
         o_length := Some "medium";
         o_context := Some ("Create a summary for a " +:+ gradeLevel_value (gradeLevel p) +:+
                            " grade student interested in " +:+ interest_value (interest p)) |} ;
  do t <- Date_now env ;
  ret {| sm_text := summaryText;
         keyPoints := extractKeyPoints summaryText;
         sm_wordCount := length (JS.split_runs JS.is_space summaryText);
         sm_type := "key-points";
         sm_metadata := metadata_at t 1000 p |}.

Definition adaptContentForGrade (content : string) (p : UserPreferences) : M AdaptedContent :=
  let gradeInfo := GRADE_LEVEL_INFO (gradeLevel p) in
  let interestInfo := INTEREST_INFO (interest p) in
  let adaptationPrompt := buildAdaptationPrompt content gradeInfo interestInfo in
  do adaptedText <-
    rewrite env content
      {| o_type := None;
         o_tone := Some (match complexity gradeInfo with
                         | elementary => "more-casual"
                         | _ => "as-is"
                         end);
         o_format := Some "plain-text"; o_length := None;
         o_context := Some adaptationPrompt |} ;
  do t <- Date_now env ;
  ret {| ad_text := adaptedText;
         originalLength := String.length content;
         adaptedLength := String.length adaptedText;
         adaptations := [];
         ad_gradeLevel := gradeLevel p;
         ad_interest := interest p;
         ad_metadata := metadata_at t 1500 p |}.

(** The response of the writer is not read: the map is built from the
    concepts of [content]. *)
Definition generateMindMap (content : string) (p : UserPreferences) : M MindMapData :=
  do mindMapResponse <-
    write env (mindMapPrompt content p)
      {| o_type := None; o_tone := Some "neutral"; o_format := Some "plain-text";
         o_length := None; o_context := None |} ;
  let concepts := extractConcepts content in
  do t <- Date_now env ;
  ret {| nodes := mindMapNodes concepts;
         edges := mindMapEdges concepts;
         rootNodeId := "node_0";
         layout := {| width := 800; height := 600; centerX := 400; centerY := 300 |};
         mm_metadata := metadata_at t 800 p |}.

Definition generateAudioLesson (adaptedText : string) (p : UserPreferences) : M AudioData :=
  let ws := JS.split_runs JS.is_space adaptedText in
  let estimatedDuration := TextValidator.ceil_div (length ws) 3 in
  do t <- Date_now env ;
  ret {| au_text := adaptedText;
         duration := estimatedDuration;
         au_speed := 1%float;
         language := "en";
         segments := createAudioSegments adaptedText (float_of_nat estimatedDuration);
         au_metadata := metadata_at t 500 p |}.

Definition generateQuiz (content : string) (p : UserPreferences) : M Quiz :=
  let difficulty := mapGradeToDifficulty (gradeLevel p) in
  do quizResponse <-
    write env (quizPrompt content p)
      {| o_type := None; o_tone := Some "neutral"; o_format := Some "plain-text";
         o_length := None; o_context := None |} ;
  let qs := parseQuizQuestions quizResponse difficulty in
  do t0 <- Date_now env ;
  do t <- Date_now env ;
  ret {| quiz_id := "quiz_" +:+ JS.of_Z t0;
         title := "Learning Assessment";
         questions := qs;
         totalPoints := fold_left (fun sum q => sum + points q) qs 0;
         timeEstimate := Nat.max 3 (length qs * 2);
         quiz_difficulty := gradeLevel p;
         quiz_metadata := metadata_at t 1200 p |}.

Definition updateProgress (cb : option ProgressCallback) (step_ : string) (status_ : Status)
           (progress_ : nat) (message_ : string) : M unit :=
  match cb with
  | None => ret tt
  | Some record_progress =>
      do st <- match status_ with
               | in_progress => do t <- Date_now env ; ret (Some t)
               | _ => ret None
               end ;
      do en <- match status_ with
               | completed | error => do t <- Date_now env ; ret (Some t)
               | _ => ret None
               end ;
      modify (fun w =>
        set_emitted (emitted w ++
                       [ {| step := step_; status := status_; progress := progress_;
                            message := Some message_;
                            gp_startTime := st; gp_endTime := en |} ]) w)
  end.

(** [abort()], and equally the listener installed on the caller's token:
    [this.abortController?.abort()]. *)
Definition abort : M unit :=
  modify (fun w => set_controller ((fun _ => true) <$> controller w) w).

(** Between two stages control can pass to the caller (inside the progress
    callback, or while the next call is awaited).  [caller_turn options k]
    is what the caller does once stage [k] has completed: cancel the token
    it passed, which runs the listener, or call [abort()]. *)
Definition caller_turn (opts : ProcessingOptions) (k : Stage) : M unit :=
  match signal opts with
  | Some sg => if decide (cancelledAfter sg = Some k) then abort else ret tt
  | None => ret tt
  end ;;
  if decide (abortCalledAfter env = Some k) then abort else ret tt.

Definition validate (content : string) : M ContentValidation :=
  fun w => let (v, st) := TextValidator.validate content (validator w) in
           (inr v, set_validator st w).

Definition set_stepTime (name : string) (ms : Z) : M unit :=
  modify (fun w =>
    let s := run_stats w in
    set_run_stats {| totalTime := totalTime s; stepTimes := <[name := ms]> (stepTimes s);
                     apiCalls := apiCalls s; tokensUsed := tokensUsed s |} w).

Definition incr_apiCalls : M unit :=
  modify (fun w =>
    let s := run_stats w in
    set_run_stats {| totalTime := totalTime s; stepTimes := stepTimes s;
                     apiCalls := S (apiCalls s); tokensUsed := tokensUsed s |} w).

Definition set_totalTime (ms : Z) (s : Stats) : Stats :=
  {| totalTime := ms; stepTimes := stepTimes s;
     apiCalls := apiCalls s; tokensUsed := tokensUsed s |}.

Definition validation_enabled (opts : ProcessingOptions) : bool :=
  match includeValidation opts with Some false => false | _ => true end.

Definition errorMessageOf (e : Thrown) : string :=
  match e with
  | JsError _ m => m
  | _ => "Unknown processing error"
  end.

(** Step 1 of the [try] block, run unless [includeValidation] is [false]. *)
Definition validation_step (content : string) (opts : ProcessingOptions) : M unit :=
  let cb := onProgress opts in
  updateProgress cb "validation" in_progress 5 "Validating content..." ;;
  do v <- validate content ;
  if negb (isValid v)
  then throw (JsError "Error" ("Content validation failed: " +:+ JS.join ", " (errors v)))
  else updateProgress cb "validation" completed 10 "Content validated" ;;
       caller_turn opts validation.

(** Steps 2 to 7 of the [try] block. *)
Definition generation_steps (startTime : Z) (content : string) (p : UserPreferences)
           (opts : ProcessingOptions) : M GenerationResult :=
  let cb := onProgress opts in
  do summaryStepStart <- Date_now env ;
  updateProgress cb "summarizing" in_progress 20 "Creating summary..." ;;
  do summary_ <- generateSummary content p ;
  do t <- Date_now env ;
  set_stepTime "summarizing" (t - summaryStepStart) ;;
  incr_apiCalls ;;
  updateProgress cb "summarizing" completed 35 "Summary created" ;;
  caller_turn opts summarizing ;;
  do adaptStepStart <- Date_now env ;
  updateProgress cb "adapting" in_progress 45 "Adapting content for grade level..." ;;
  do adapted <- adaptContentForGrade content p ;
  do t <- Date_now env ;
  set_stepTime "adapting" (t - adaptStepStart) ;;
  incr_apiCalls ;;
  updateProgress cb "adapting" completed 60 "Content adapted" ;;
  caller_turn opts adapting ;;
  do mindMapStepStart <- Date_now env ;
  updateProgress cb "creating_mindmap" in_progress 70 "Creating mind map..." ;;
  do mindMap_ <- generateMindMap content p ;
  do t <- Date_now env ;
  set_stepTime "creating_mindmap" (t - mindMapStepStart) ;;
  incr_apiCalls ;;
  updateProgress cb "creating_mindmap" completed 80 "Mind map created" ;;
  caller_turn opts creating_mindmap ;;
  do audioStepStart <- Date_now env ;
  updateProgress cb "generating_audio" in_progress 85 "Preparing audio lesson..." ;;
  do audio <- generateAudioLesson (ad_text adapted) p ;
  do t <- Date_now env ;
  set_stepTime "generating_audio" (t - audioStepStart) ;;
  updateProgress cb "generating_audio" completed 90 "Audio lesson prepared" ;;
  caller_turn opts generating_audio ;;
  do quizStepStart <- Date_now env ;
  updateProgress cb "creating_quiz" in_progress 95 "Creating quiz questions..." ;;
  do quiz_ <- generateQuiz content p ;
  do t <- Date_now env ;
  set_stepTime "creating_quiz" (t - quizStepStart) ;;
  incr_apiCalls ;;
  updateProgress cb "creating_quiz" completed 98 "Quiz created" ;;
  caller_turn opts creating_quiz ;;
  updateProgress cb "finalizing" in_progress 99 "Finalizing materials..." ;;
  do tp <- Date_now env ;
  do tg <- Date_now env ;
  let materials_ :=
    {| summary := summary_; adaptedContent := adapted; mindMap := mindMap_;
       audioLesson := audio; quiz := quiz_;
       gm_processingTime := tp - startTime; gm_generatedAt := tg;
       version := "1.0.0" |} in
  do tt_ <- Date_now env ;
  modify (fun w => set_run_stats (set_totalTime (tt_ - startTime) (run_stats w)) w) ;;
  updateProgress cb "finalizing" completed 100 "Learning materials ready!" ;;
  do w <- get ;
  ret {| success := true; materials := Some materials_; gr_error := None;
         stats := run_stats w |}.

(** The body of the [try] block of [processContent]: a fresh abort
    controller, then the steps. *)
Definition pipeline (startTime : Z) (content : string) (p : UserPreferences)
           (opts : ProcessingOptions) : M GenerationResult :=
  modify (set_controller (Some false)) ;;
  (if validation_enabled opts then validation_step content opts else ret tt) ;;
  generation_steps startTime content p opts.

(** The [catch] block of [processContent]. *)
Definition on_failure (startTime : Z) (opts : ProcessingOptions) (e : Thrown)
  : M GenerationResult :=
  let errorMessage := errorMessageOf e in
  match onProgress opts with
  | Some _ => updateProgress (onProgress opts) "error" error 0 errorMessage
  | None => ret tt
  end ;;
  do t <- Date_now env ;
  do w <- get ;
  ret {| success := false; materials := None; gr_error := Some errorMessage;
         stats := set_totalTime (t - startTime) (run_stats w) |}.

Definition processContent (content : string) (p : UserPreferences)
           (opts : ProcessingOptions) : M GenerationResult :=
  do startTime <- Date_now env ;
  modify (set_run_stats stats0) ;;
  try_catch (pipeline startTime content p opts) (on_failure startTime opts).

End Processor.

(** ** The capability check of the service (checkCapabilities) *)

Module Capabilities.

(** The seven global objects the check looks at, in the order of the
    array it builds. *)
Inductive Global :=
| Summarizer | Rewriter | Writer | LanguageModel | Proofreader | Translator
| LanguageDetector.

Definition globals : list Global :=
  [Summarizer; Rewriter; Writer; LanguageModel; Proofreader; Translator; LanguageDetector].

(** What the optional call of [availability] on a global object that is
    defined can do: yield [undefined] because the object is [null] or has no
    such member, throw at once, or return a promise that rejects or
    resolves.  The resolved value is whatever the browser gives; the check
    compares it with two strings. *)
Inductive Value := undefined | str (s : string) | boolean (b : bool).

Inductive Probe :=
| no_method
| throws_at_once (e : Thrown)
| rejects (e : Thrown)
| resolves (v : Value).

Record GlobalObject := { defined : bool; availability_call : Probe }.

Definition Host : Type := Global → GlobalObject.

Record APISupport := {
  s_summarizer : bool; s_rewriter : bool; s_writer : bool; s_languageModel : bool;
  s_proofreader : bool; s_translator : bool; s_languageDetector : bool
}.

Record AICapabilities := {
  summarizer : Value; rewriter : Value; writer : Value; languageModel : Value;
  proofreader : Value; translator : Value; languageDetector : Value;
  overall : bool
}.

(** [isSummarizerSupported] and its six companions. *)
Definition isGlobalSupported (h : Host) (g : Global) : bool := defined (h g).

Definition isChromeAISupported (h : Host) : bool :=
  isGlobalSupported h Summarizer || isGlobalSupported h Rewriter ||
  isGlobalSupported h Writer || isGlobalSupported h LanguageModel ||
  isGlobalSupported h Proofreader || isGlobalSupported h Translator ||
  isGlobalSupported h LanguageDetector.

Definition getAPISupport (h : Host) : APISupport :=
  {| s_summarizer := isGlobalSupported h Summarizer;
     s_rewriter := isGlobalSupported h Rewriter;
     s_writer := isGlobalSupported h Writer;
     s_languageModel := isGlobalSupported h LanguageModel;
     s_proofreader := isGlobalSupported h Proofreader;
     s_translator := isGlobalSupported h Translator;
     s_languageDetector := isGlobalSupported h LanguageDetector |}.

(** [Object.values(support)] *)
Definition support_values (s : APISupport) : list bool :=
  [s_summarizer s; s_rewriter s; s_writer s; s_languageModel s; s_proofreader s;
   s_translator s; s_languageDetector s].

Definition supports (s : APISupport) (g : Global) : bool :=
  match g with
  | Summarizer => s_summarizer s | Rewriter => s_rewriter s | Writer => s_writer s
  | LanguageModel => s_languageModel s | Proofreader => s_proofreader s
  | Translator => s_translator s | LanguageDetector => s_languageDetector s
  end.

Definition none_available : AICapabilities :=
  {| summarizer := str "no"; rewriter := str "no"; writer := str "no";
     languageModel := str "no"; translator := str "no"; languageDetector := str "no";
     proofreader := str "no"; overall := false |}.

(** How a promise handed to [Promise.allSettled] ends. *)
Inductive Settled := fulfilled (v : Value) | rejected (reason : Thrown).

(** One element of the array: the optional call when the global object is
    supported, a promise resolved with [no] otherwise.  A call that throws
    at once throws out of the array literal. *)
Definition element (h : Host) (s : APISupport) (g : Global) : Thrown + Settled :=
  if supports s g then
    match availability_call (h g) with
    | no_method => inr (fulfilled undefined)
    | throws_at_once e => inl e
    | rejects e => inr (rejected e)
    | resolves v => inr (fulfilled v)
    end
  else inr (fulfilled (str "no")).

(** The elements are evaluated from left to right; the first that throws
    ends the evaluation. *)
Fixpoint elements (h : Host) (s : APISupport) (gs : list Global)
  : Thrown + list Settled :=
  match gs with
  | [] => inr []
  | g :: rest =>
      match element h s g with
      | inl e => inl e
      | inr c =>
          match elements h s rest with
          | inl e => inl e
          | inr cs => inr (c :: cs)
          end
      end
  end.

(** [getResult(index)]; the array has seven entries, so the index is
    always in range. *)
Definition getResult (checks : list Settled) (index : nat) : Value :=
  match checks !! index with
  | Some (fulfilled v) => v
  | _ => str "no"
  end.

Definition is_available (v : Value) : bool :=
  match v with
  | str s => String.eqb s "readily" || String.eqb s "after-download"
  | _ => false
  end.

(** [Object.values(capabilities)], the [overall] flag included. *)
Definition capability_values (c : AICapabilities) : list Value :=
  [summarizer c; rewriter c; writer c; languageModel c; proofreader c; translator c;
   languageDetector c; boolean (overall c)].

Definition checkCapabilities (h : Host) : AICapabilities :=
  let support := getAPISupport h in
  if negb (existsb id (support_values support)) then none_available
  else
    match elements h support globals with
    | inl _ => none_available
    | inr checks =>
        let capabilities :=
          {| summarizer := getResult checks 0; rewriter := getResult checks 1;
             writer := getResult checks 2; languageModel := getResult checks 3;
             proofreader := getResult checks 4; translator := getResult checks 5;
             languageDetector := getResult checks 6; overall := false |} in
        {| summarizer := summarizer capabilities; rewriter := rewriter capabilities;
           writer := writer capabilities; languageModel := languageModel capabilities;
           proofreader := proofreader capabilities; translator := translator capabilities;
           languageDetector := languageDetector capabilities;
           overall := existsb is_available (capability_values capabilities) |}
    end.

(** The status the check reports for one global object. *)
Definition status_of (c : AICapabilities) (g : Global) : Value :=
  match g with
  | Summarizer => summarizer c | Rewriter => rewriter c | Writer => writer c
  | LanguageModel => languageModel c | Proofreader => proofreader c
  | Translator => translator c | LanguageDetector => languageDetector c
  end.

(** What the check reports for a global object when no call throws at
    once: the resolved value, [undefined] for a missing member, and [no] for
    a rejection or a global object that is not defined. *)
Definition reported (h : Host) (g : Global) : Value :=
  if defined (h g) then
    match availability_call (h g) with
    | resolves v => v
    | no_method => undefined
    | _ => str "no"
    end
  else str "no".

(** A host on which only the summarizer exists, ready for use. *)
Definition summarizer_only : Host :=
  λ g, match g with
       | Summarizer => {| defined := true; availability_call := resolves (str "readily") |}
       | _ => {| defined := false; availability_call := no_method |}
       end.

(** The same host with a translator whose [availability] member cannot be
    called. *)
Definition broken_translator : Host :=
  λ g, match g with
       | Translator =>
           {| defined := true;
              availability_call := throws_at_once (JsError "TypeError" "not a function") |}
       | _ => summarizer_only g
       end.

End Capabilities.

(** ** The session store (utils/storage) *)

Module Storage.

(** The members of the stored materials that are text.  The three optional
    members ([mindMap], [audioData], [quiz]) hold objects of no fixed shape,
    with dates in them, which [JSON.stringify] writes as text; they are left
    out, and nothing is stated about them. *)
Record StoredMaterials := { st_summary : string; st_adaptedContent : string }.

Record SessionData := {
  sd_id : string;
  sd_timestamp : Z;
  sd_title : string;
  sd_content : string;
  sd_preferences : UserPreferences;
  sd_materials : option StoredMaterials
}.

Definition STORAGE_KEY : string := "learnsphere-sessions".
Definition MAX_SESSIONS : nat := 10.

(** What [localStorage] holds under the key of the service: nothing, the
    JSON text of a list of sessions, or a text that [JSON.parse] rejects.
    A list of sessions stands for its JSON text: the members kept in
    [SessionData] are text, whole numbers and enumerated names, which
    [JSON.stringify] writes and [JSON.parse] reads back unchanged.  A text
    that parses to something else than a list of sessions is not
    represented. *)
Inductive Item := absent | json (sessions : list SessionData) | malformed.

(** The browser: whether [localStorage] exists, and which lists
    [setItem] accepts (it throws when the quota is exceeded). *)
Record Browser := {
  isAvailable : bool;
  accepts : list SessionData → bool
}.

Section Store.

Variable browser : Browser.

Definition getAllSessions (item : Item) : list SessionData :=
  if negb (isAvailable browser) then []
  else match item with
       | json sessions => sessions
       | absent | malformed => []
       end.

(** [sessions.findIndex(s => s.id === id)] *)
Fixpoint findIndex (id : string) (sessions : list SessionData) : option nat :=
  match sessions with
  | [] => None
  | s :: rest => if String.eqb (sd_id s) id then Some 0 else S <$> findIndex id rest
  end.

(** [setItem] inside the [try] block of a method that returns whether it
    has succeeded. *)
Definition setItem (sessions : list SessionData) (item : Item) : bool * Item :=
  if accepts browser sessions then (true, json sessions) else (false, item).

Definition saveSession (session : SessionData) (item : Item) : bool * Item :=
  if negb (isAvailable browser) then (false, item)
  else
    let sessions := getAllSessions item in
    let sessions' :=
      match findIndex (sd_id session) sessions with
      | Some existingIndex => <[existingIndex := session]> sessions
      | None => take MAX_SESSIONS (session :: sessions)
      end in
    setItem sessions' item.

Definition getSession (id : string) (item : Item) : option SessionData :=
  List.find (λ session, String.eqb (sd_id session) id) (getAllSessions item).

Definition deleteSession (id : string) (item : Item) : bool * Item :=
  if negb (isAvailable browser) then (false, item)
  else
    let sessions := getAllSessions item in
    setItem (List.filter (λ session, negb (String.eqb (sd_id session) id)) sessions) item.

Definition clearAllSessions (item : Item) : bool * Item :=
  if negb (isAvailable browser) then (false, item) else (true, absent).

End Store.

(** [generateSessionTitle(content, maxLength = 50)]; a negative end of
    [substring] counts as 0. *)
Definition generateSessionTitle (content : string) (maxLength : Z) : string :=
  let words := JS.split_runs JS.is_space (JS.trim content) in
  let title := JS.join " " (take 8 words) in
  let title :=
    if (maxLength <? Z.of_nat (String.length title))%Z
    then JS.substring0 (Z.to_nat (maxLength - 3)) title +:+ "..."
    else title in
  if String.eqb title EmptyString then "Untitled Session" else title.

(** A browser whose storage takes everything. *)
Definition roomy : Browser := {| isAvailable := true; accepts := λ _, true |}.

Definition session_of (id : string) (text : string) : SessionData :=
  {| sd_id := id; sd_timestamp := 0; sd_title := generateSessionTitle text 50;
     sd_content := text;
     sd_preferences := {| gradeLevel := GRADE_7; interest := SCIENCE |};
     sd_materials := None |}.

(** A store that holds two sessions. *)
Definition two_sessions : Item :=
  json [session_of "s2" "Leaves take in light"; session_of "s1" "Plants make food"].

End Storage.

(** ** Sample hosts and inputs *)

Definition ok_capability (out : string) : Capability :=
  {| supported := true; availability := inr readily;
     create := fun _ => None; transform := fun _ _ => inr out |}.

Definition sample_adapted : string := "Plants eat light. They drink water!".


(** A host on which every capability answers at once. *)
Definition ok_env : Env :=
  {| clock := fun n => Z.of_nat (1000 + 10 * n);
     api := fun k _ =>
       match k with
       | SummarizerAPI => ok_capability ("- Plants make food" +:+ nl +:+ "- Oxygen is released")
       | RewriterAPI => ok_capability sample_adapted
       | WriterAPI => ok_capability "{}"
       end;
     abortCalledAfter := None |}.

(** A host without the Rewriter object. *)
Definition no_rewriter_env : Env :=
  {| clock := clock ok_env;
     api := fun k n =>
       match k with
       | RewriterAPI =>
           {| supported := false; availability := inr unavailable_no;
              create := fun _ => None; transform := fun _ _ => inl JsOther |}
       | _ => api ok_env k n
       end;
     abortCalledAfter := None |}.

Definition echo_capability : Capability :=
  {| supported := true; availability := inr readily;
     create := λ _, None; transform := λ input _, inr input |}.

(** A host whose capabilities hand back their input unchanged. *)
Definition echo_env : Env :=
  {| clock := clock ok_env; api := λ _ _, echo_capability; abortCalledAfter := None |}.

Definition prefs7 : UserPreferences := {| gradeLevel := GRADE_7; interest := SCIENCE |}.

Definition default_options : ProcessingOptions :=
  {| onProgress := Some record_progress; signal := None; includeValidation := None |}.

Definition no_validation_options : ProcessingOptions :=
  {| onProgress := Some record_progress; signal := None; includeValidation := Some false |}.

(** Options carrying a token that its owner cancels once [k] has completed. *)
Definition cancelling_options (k : Stage) : ProcessingOptions :=
  {| onProgress := Some record_progress;
     signal := Some {| cancelledAfter := Some k |};
     includeValidation := None |}.

(** A text of short words: long enough for the validator, without a single
    concept candidate. *)
Definition short_words_text : string :=
  "the cat sat on the mat and the dog ate the big red bun for fun".

Definition sample_text : string :=
  "Plants make food from sunlight. Leaves take in light and water! Plants release oxygen for animals and people?".

(** The host [env] with the answers of its writer replaced: wherever a
    call of a writer handle resolves, it now resolves to what [answer]
    gives for the number of the request, the input and the context.
    Nothing else changes, in particular not whether a call resolves. *)
Definition with_writer_answers (answer : nat → string → option string → string)
           (env : Env) : Env :=
  {| clock := clock env;
     api := λ k n,
       match k with
       | WriterAPI =>
           let cap := api env WriterAPI n in
           {| supported := supported cap;
              availability := availability cap;
              create := create cap;
              transform := λ input ctx,
                match transform cap input ctx with
                | inl e => inl e
                | inr _ => inr (answer n input ctx)
                end |}
       | _ => api env k n
       end;
     abortCalledAfter := abortCalledAfter env |}.

(** A capability whose model is not available. *)
Definition absent_model : Capability :=
  {| supported := true; availability := inr unavailable_no;
     create := λ _, None; transform := λ input _, inr input |}.

Definition no_options : CapOptions :=
  {| o_type := None; o_tone := None; o_format := None; o_length := None;
     o_context := None |}.

(** A host on which no model is available. *)
Definition absent_env : Env :=
  {| clock := clock ok_env; api := λ _ _, absent_model; abortCalledAfter := None |}.

(** A host whose handles reject every call with a network error. *)
Definition failing_capability : Capability :=
  {| supported := true; availability := inr after_download;
     create := λ _, None;
     transform := λ _ _, inl (JsError "NetworkError" "connection lost") |}.

Definition failing_env : Env :=
  {| clock := clock ok_env; api := λ _ _, failing_capability; abortCalledAfter := None |}.

(** A content rejected for the script block at its end, and a shorter one
    that holds a script block as well. *)
Definition script_at_the_end : string :=
  "This is a harmless looking paragraph of text that goes on for a while before it ends <script>alert(1)</script>".

Definition short_with_script : string :=
  "one two three four five six seven eight nine <script>alert(2)</script> ten".

(** Options without a callback. *)
Definition silent_options : ProcessingOptions :=
  {| onProgress := None; signal := None; includeValidation := None |}.

(** * Properties of the pipeline *)

(** ** Vocabulary of the statements *)

(** [preserves R m]: whatever [m] does, and whether it returns or throws,
    the world it leaves is [R]-related to the world it started from. *)
Definition preserves (R : relation World) {A} (m : M A) : Prop :=
  ∀ w, R w (m w).2.

(** [emits m ps]: when [m] returns, the progress entries it has delivered
    carry the percent values [ps], in this order. *)
Definition emits {A} (m : M A) (ps : list nat) : Prop :=
  ∀ w a w', m w = (inr a, w') →
    ∃ l, emitted w' = emitted w ++ l ∧ map progress l = ps.

Section Logs.

Context {X : Type} (proj : World → list X) (P : X → Prop).

(** The log [proj] has only grown, by entries that satisfy [P]. *)
Definition log_ext : relation World :=
  λ w w', ∃ l, proj w' = proj w ++ l ∧ Forall P l.

(** [m] always appends to the log, and the first entry satisfies [Q]. *)
Definition begins (Q : X → Prop) {A} (m : M A) : Prop :=
  ∀ w, ∃ x l, proj (m w).2 = proj w ++ x :: l ∧ Q x ∧ Forall P l.

(** [m] returns without touching the log. *)
Definition silent {A} (m : M A) : Prop :=
  ∀ w, ∃ a w1, m w = (inr a, w1) ∧ proj w1 = proj w.

End Logs.

Definition same_validator : relation World :=
  λ w w', validator w' = validator w.

Definition is_created (h : nat) (ev : Event) : bool :=
  match ev with Created _ h' => h =? h' | _ => false end.

Definition is_destroy (h : nat) (ev : Event) : bool :=
  match ev with Destroy h' => h =? h' | _ => false end.

Definition countb {X} (p : X → bool) (l : list X) : nat := length (List.filter p l).

(** A stretch of the trace in which handle [h] is created as often as it
    is destroyed, and at most once. *)
Definition balanced (seg : list Event) (h : nat) : Prop :=
  countb (is_created h) seg = countb (is_destroy h) seg ∧ countb (is_destroy h) seg ≤ 1.

(** The trace has grown by a stretch that is balanced for every handle, and
    the handles it creates are the ones numbered in between. *)
Definition disposal : relation World :=
  λ w w', handles w ≤ handles w' ∧
    ∃ seg, trace w' = trace w ++ seg ∧
      ∀ h, balanced seg h ∧
           (0 < countb (is_created h) seg + countb (is_destroy h) seg →
            handles w ≤ h < handles w').

(** The segments of trace a request can leave: the request itself, the
    availability query, and then either nothing more, a rejected creation,
    or a handle that is created, used and destroyed. *)
Inductive request_trace (k : ApiKind) (input : string) (ctx : option string) (h : nat)
  : list Event → bool → Prop :=
| rt_unsupported : request_trace k input ctx h [ServiceCall k input] false
| rt_unavailable : request_trace k input ctx h [ServiceCall k input; AvailabilityQuery k] false
| rt_rejected :
    request_trace k input ctx h
      [ServiceCall k input; AvailabilityQuery k; CreateRejected k] false
| rt_used :
    request_trace k input ctx h
      [ServiceCall k input; AvailabilityQuery k; Created k h;
       Transform h input ctx; Destroy h] true.

(** Neither of the two logs, nor the handle counter, nor the validator
    has changed. *)
Definition untouched : relation World :=
  λ w w', trace w' = trace w ∧ handles w' = handles w ∧
          emitted w' = emitted w ∧ validator w' = validator w.

(** An entry of the stages: a positive percent. *)
Definition stage_entry (g : GenerationProgress) : Prop := 0 < progress g.

(** An entry of the generation stages: not one of the validation. *)
Definition generation_entry (g : GenerationProgress) : Prop :=
  step g ≠ "validation" ∧ status g ≠ error.

(** The world in which the [try] block starts. *)
Definition entered (w : World) : World :=
  set_run_stats stats0 (set_ticks (S (ticks w)) w).

(** The checkpoints of a complete run, as the options select them. *)
Definition generation_checkpoints : list nat :=
  [20; 35; 45; 60; 70; 80; 85; 90; 95; 98; 99; 100].

Definition checkpoints (opts : ProcessingOptions) : list nat :=
  match onProgress opts with
  | None => []
  | Some _ => (if validation_enabled opts then [5; 10] else []) ++ generation_checkpoints
  end.

(** The parts of the materials that are computed by the processor itself:
    the map from the concepts of [content], the audio script from the
    adapted text, the questions from the grade. *)
Definition made_of (content : string) (p : UserPreferences) (mt : GeneratedMaterials) : Prop :=
  let cs := extractConcepts content in
  let adapted := ad_text (adaptedContent mt) in
  nodes (mindMap mt) = mindMapNodes cs ∧
  edges (mindMap mt) = mindMapEdges cs ∧
  rootNodeId (mindMap mt) = "node_0" ∧
  au_text (audioLesson mt) = adapted ∧
  duration (audioLesson mt) =
    TextValidator.ceil_div (length (JS.split_runs JS.is_space adapted)) 3 ∧
  segments (audioLesson mt) =
    createAudioSegments adapted (float_of_nat (duration (audioLesson mt))) ∧
  (∃ response,
     questions (quiz mt) = parseQuizQuestions response (mapGradeToDifficulty (gradeLevel p))).

(** The tokens [extractConcepts] reads. *)
Definition tokens_of (content : string) : list string :=
  JS.split_runs JS.is_space (JS.toLowerCase content).

(** How many tokens clean to [wd]. *)
Definition occurrences (wd : string) (tokens : list string) : nat :=
  countb (λ t, String.eqb (cleanWord t) wd) tokens.

(** The count recorded for [wd], 0 when it has no entry. *)
Fixpoint freq_of (wd : string) (freq : list (string * nat)) : nat :=
  match freq with
  | [] => 0
  | (k, n) :: rest => if String.eqb k wd then n else freq_of wd rest
  end.

(** A table with one entry per key, all counts positive. *)
Definition well_formed (freq : list (string * nat)) : Prop :=
  NoDup (map fst freq) ∧ Forall (λ e, 0 < snd e) freq.

Definition by_count : relation (string * nat) := λ a b, snd b ≤ snd a.

(** The edges that end in the node [id]. *)
Definition incoming (mm : MindMapData) (id : string) : list MindMapEdge :=
  List.filter (λ e, String.eqb (targetId e) id) (edges mm).

(** The nodes in which no edge ends. *)
Definition roots (mm : MindMapData) : list MindMapNode :=
  List.filter (λ n, match incoming mm (node_id n) with [] => true | _ => false end)
              (nodes mm).

(** The world with its abort controller forgotten. *)
Definition erase (w : World) : World := set_controller None w.

(** Two computations agree when, started in worlds that differ in the
    abort controller at most, they end alike and leave worlds that again
    differ in the abort controller at most. *)
Definition agree {A} (m1 m2 : M A) : Prop :=
  ∀ w1 w2, erase w1 = erase w2 →
    (m1 w1).1 = (m2 w2).1 ∧ erase (m1 w1).2 = erase (m2 w2).2.

(** The host and the options with the cancellation taken out. *)
Definition never_aborting (env : Env) : Env :=
  {| clock := clock env; api := api env; abortCalledAfter := None |}.

Definition without_signal (opts : ProcessingOptions) : ProcessingOptions :=
  {| onProgress := onProgress opts; signal := None;
     includeValidation := includeValidation opts |}.

(** [accounts m ok ko]: how far [m] moves the two counters of a run, the
    requests made through the service and the calls counted in the
    statistics.  When [m] returns they have advanced by the pair [ok]; when
    it throws, by one of the pairs in [ko]. *)
Definition advanced (w w' : World) (d : nat * nat) : Prop :=
  requests w' = requests w + d.1 ∧
  apiCalls (run_stats w') = apiCalls (run_stats w) + d.2.

Definition accounts {A} (m : M A) (ok : nat * nat) (ko : list (nat * nat)) : Prop :=
  ∀ w, match (m w).1 with
       | inr _ => advanced w (m w).2 ok
       | inl _ => ∃ d, d ∈ ko ∧ advanced w (m w).2 d
       end.

Definition shift (by_ d : nat * nat) : nat * nat := (by_.1 + d.1, by_.2 + d.2).

(** [raises m P]: whatever [m] throws satisfies [P]. *)
Definition raises {A} (m : M A) (P : Thrown → Prop) : Prop :=
  ∀ w e w', m w = (inl e, w') → P e.

(** The messages a failed run can report: the one composed from the
    errors of the validator, the one for a missing global object, the fixed
    one for a thrown value that is not an [Error], or the message of an
    [Error] that a handle of the host rejected a call with. *)
Inductive failure_message (env : Env) (content : string) (opts : ProcessingOptions)
          (w : World) : string → Prop :=
| fm_validation :
    validation_enabled opts = true →
    isValid (TextValidator.validate content (validator w)).1 = false →
    failure_message env content opts w
      ("Content validation failed: " +:+
       JS.join ", " (errors (TextValidator.validate content (validator w)).1))
| fm_missing k :
    (∃ n, supported (api env k n) = false) →
    failure_message env content opts w (apiName k +:+ " API not available")
| fm_unknown :
    failure_message env content opts w "Unknown processing error"
| fm_rejected k n input ctx name msg :
    transform (api env k n) input ctx = inl (JsError name msg) →
    failure_message env content opts w msg.

(** What a request made through the service can throw. *)
Inductive service_thrown (env : Env) : Thrown → Prop :=
| st_missing k n :
    supported (api env k n) = false →
    service_thrown env (JsError "Error" (apiName k +:+ " API not available"))
| st_wrapped orig operation :
    service_thrown env (handleError orig operation)
| st_rejected k n input ctx e :
    transform (api env k n) input ctx = inl e →
    service_thrown env e.

(** What a progress entry says: its step, its status and its percent. *)
Definition entry_of (g : GenerationProgress) : string * Status * nat :=
  (step g, status g, progress g).

(** [reports m xs]: when [m] returns, the progress entries it has delivered
    say [xs], in this order. *)
Definition reports {A} (m : M A) (xs : list (string * Status * nat)) : Prop :=
  ∀ w a w', m w = (inr a, w') →
    ∃ l, emitted w' = emitted w ++ l ∧ map entry_of l = xs.

(** The two entries of a stage. *)
Definition stage_reports (k : Stage) (started finished : nat)
  : list (string * Status * nat) :=
  [(stage_name k, in_progress, started); (stage_name k, completed, finished)].

(** What a complete run says, as the options select it. *)
Definition run_reports (opts : ProcessingOptions) : list (string * Status * nat) :=
  match onProgress opts with
  | None => []
  | Some _ =>
      (if validation_enabled opts then stage_reports validation 5 10 else []) ++
      stage_reports summarizing 20 35 ++ stage_reports adapting 45 60 ++
      stage_reports creating_mindmap 70 80 ++ stage_reports generating_audio 85 90 ++
      stage_reports creating_quiz 95 98 ++ stage_reports finalizing 99 100
  end.

(** The times of an entry go with its status: a start time while in
    progress, an end time once completed or failed, never both. *)
Definition well_timed (g : GenerationProgress) : Prop :=
  match status g with
  | in_progress => is_Some (gp_startTime g) ∧ gp_endTime g = None
  | completed | error => gp_startTime g = None ∧ is_Some (gp_endTime g)
  | pending => False
  end.

(** Two computations that do the same in every world. *)
Definition same {A} (m1 m2 : M A) : Prop := ∀ w, m1 w = m2 w.

(** The clock has not been read less often and the step times are as
    they were. *)
Definition steady : relation World :=
  λ w w', ticks w ≤ ticks w' ∧ stepTimes (run_stats w') = stepTimes (run_stats w).

(** A clock that never goes back. *)
Definition monotone_clock (env : Env) : Prop :=
  ∀ i j, i ≤ j → (clock env i ≤ clock env j)%Z.

(** The five stages that are timed, with the time of each. *)
Definition step_times (summarizing_ adapting_ mindmap audio quiz_ : Z) : gmap string Z :=
  <["creating_quiz" := quiz_]>
    (<["generating_audio" := audio]>
       (<["creating_mindmap" := mindmap]>
          (<["adapting" := adapting_]>
             (<["summarizing" := summarizing_]> ∅)))).

(** The requests recorded in a stretch of the trace: the API and the
    input of each, in order. *)
Definition service_calls (seg : list Event) : list (ApiKind * string) :=
  omap (λ ev, match ev with ServiceCall k input => Some (k, input) | _ => None end) seg.

(** [asks m ok ko]: the requests [m] makes through the service.  When [m]
    returns they are [ok]; when it throws, one of the lists in [ko]. *)
Definition asks {A} (m : M A) (ok : list (ApiKind * string))
           (ko : list (list (ApiKind * string))) : Prop :=
  ∀ w, ∃ seg, trace (m w).2 = trace w ++ seg ∧
    match (m w).1 with
    | inr _ => service_calls seg = ok
    | inl _ => service_calls seg ∈ ko
    end.

(** The four requests of a complete run. *)
Definition request_plan (content : string) (p : UserPreferences)
  : list (ApiKind * string) :=
  [(SummarizerAPI, content); (RewriterAPI, content);
   (WriterAPI, mindMapPrompt content p); (WriterAPI, quizPrompt content p)].

(** On a character that is not a capital letter [toUpperCase] can be
    undone. *)
Definition uncapital (c : ascii) : ascii :=
  if JS.is_upper c then ascii_of_nat (JS.code c + 32) else c.


(** ** Reasoning about computations in [M] *)

Lemma bind_inr {A B} (m : M A) (k : A → M B) w b w' :
  bind m k w = (inr b, w') → ∃ a w1, m w = (inr a, w1) ∧ k a w1 = (inr b, w').
Proof.
  unfold bind. destruct (m w) as [[e|a] w1]; intros H; [discriminate|eauto].
Qed.

Lemma bind_run_inr {A B} (m : M A) (k : A → M B) w a w1 :
  m w = (inr a, w1) → bind m k w = k a w1.
Proof. unfold bind. intros ->. reflexivity. Qed.

Lemma bind_run_inl {A B} (m : M A) (k : A → M B) w e w1 :
  m w = (inl e, w1) → bind m k w = (inl e, w1).
Proof. unfold bind. intros ->. reflexivity. Qed.

Section Preserves.

Context (R : relation World) `{!PreOrder R}.

Lemma preserves_ret {A} (a : A) : preserves R (ret a).
Proof. intros w. simpl. reflexivity. Qed.

Lemma preserves_throw {A} e : preserves R (@throw A e).
Proof. intros w. simpl. reflexivity. Qed.

Lemma preserves_get : preserves R get.
Proof. intros w. simpl. reflexivity. Qed.

Lemma preserves_lift_result {A} (r : Thrown + A) : preserves R (lift_result r).
Proof. destruct r; intros w; simpl; reflexivity. Qed.

Lemma preserves_bind {A B} (m : M A) (k : A → M B) :
  preserves R m → (∀ a, preserves R (k a)) → preserves R (bind m k).
Proof.
  intros Hm Hk w. unfold bind. specialize (Hm w).
  destruct (m w) as [[e|a] w1]; simpl in *; [assumption|].
  etransitivity; [eassumption|apply Hk].
Qed.

Lemma preserves_try_catch {A} (body : M A) handler :
  preserves R body → (∀ e, preserves R (handler e)) → preserves R (try_catch body handler).
Proof.
  intros Hm Hk w. unfold try_catch. specialize (Hm w).
  destruct (body w) as [[e|a] w1]; simpl in *; [|assumption].
  etransitivity; [eassumption|apply Hk].
Qed.

Lemma preserves_try_finally {A} (body : M A) cleanup :
  preserves R body → preserves R cleanup → preserves R (try_finally body cleanup).
Proof.
  intros Hm Hk w. unfold try_finally. specialize (Hm w).
  destruct (body w) as [r w1]. specialize (Hk w1).
  destruct (cleanup w1) as [[e|[]] w2]; simpl in *; etransitivity; eassumption.
Qed.

Lemma preserves_weaken (R' : relation World) {A} (m : M A) :
  (∀ w w', R' w w' → R w w') → preserves R' m → preserves R m.
Proof. intros HR Hm w. apply HR, Hm. Qed.

End Preserves.

Section LogFacts.

Context {X : Type} (proj : World → list X) (P : X → Prop).

#[global] Instance log_ext_preorder : PreOrder (log_ext proj P).
Proof.
  split.
  - intros w. exists []. rewrite app_nil_r. split; [reflexivity|constructor].
  - intros w1 w2 w3 (l1 & H1 & F1) (l2 & H2 & F2).
    exists (l1 ++ l2). rewrite H2, H1, app_assoc. split; [reflexivity|].
    apply Forall_app; split; assumption.
Qed.

Lemma begins_bind_l {A B} Q (m : M A) (k : A → M B) :
  begins proj P Q m → (∀ a, preserves (log_ext proj P) (k a)) →
  begins proj P Q (bind m k).
Proof.
  intros Hm Hk w. unfold bind. destruct (Hm w) as (x & l & H & HQ & HP).
  destruct (m w) as [[e|a] w1]; simpl in *; [eauto|].
  destruct (Hk a w1) as (l2 & H2 & F2).
  exists x, (l ++ l2). rewrite H2, H. rewrite <- app_assoc. simpl.
  split; [reflexivity|]. split; [assumption|]. apply Forall_app; split; assumption.
Qed.

Lemma begins_bind_r {A B} Q (m : M A) (k : A → M B) :
  silent proj m → (∀ a, begins proj P Q (k a)) → begins proj P Q (bind m k).
Proof.
  intros Hm Hk w. unfold bind. destruct (Hm w) as (a & w1 & -> & H).
  destruct (Hk a w1) as (x & l & H2 & HQ & HP).
  exists x, l. rewrite H2, H. auto.
Qed.

End LogFacts.

#[global] Instance same_validator_preorder : PreOrder same_validator.
Proof.
  split; [intros w; reflexivity|].
  intros w1 w2 w3 H1 H2. unfold same_validator in *. congruence.
Qed.

Lemma countb_app {X} (p : X → bool) l1 l2 : countb p (l1 ++ l2) = countb p l1 + countb p l2.
Proof. unfold countb. rewrite List.filter_app, length_app. reflexivity. Qed.

#[global] Instance disposal_preorder : PreOrder disposal.
Proof.
  split.
  - intros w. split; [lia|]. exists []. rewrite app_nil_r. split; [reflexivity|].
    intros h. unfold balanced, countb. simpl. split; [split; lia|lia].
  - intros w1 w2 w3 (Hh1 & s1 & T1 & B1) (Hh2 & s2 & T2 & B2).
    split; [lia|]. exists (s1 ++ s2). rewrite T2, T1, app_assoc. split; [reflexivity|].
    intros h. destruct (B1 h) as [[E1 L1] F1]. destruct (B2 h) as [[E2 L2] F2].
    unfold balanced. rewrite !countb_app. split; [split|]; lia.
Qed.
(** ** The service: one request *)

Lemma transformWith_run env k input opts w :
  let r := transformWith env k input opts w in
  ∃ seg used,
    request_trace k input (o_context opts) (handles w) seg used ∧
    trace r.2 = trace w ++ seg ∧
    handles r.2 = (if used then S (handles w) else handles w) ∧
    (used = false → ∃ e, r.1 = inl e) ∧
    (used = true → r.1 = transform (api env k (requests w)) input (o_context opts)) ∧
    emitted r.2 = emitted w ∧ validator r.2 = validator w ∧
    controller r.2 = controller w ∧ run_stats r.2 = run_stats w ∧
    ticks r.2 = ticks w ∧ requests r.2 = S (requests w).
Proof.
  unfold transformWith, createHandle, bind, try_catch, try_finally, get, modify, log,
    lift_result, throw, ret.
  simpl.
  destruct (supported (api env k (requests w))); simpl.
  2:{ exists [ServiceCall k input], false. repeat split; eauto using request_trace. discriminate. }
  destruct (availability (api env k (requests w))) as [e|a]; simpl.
  { exists [ServiceCall k input; AvailabilityQuery k], false.
    rewrite <- app_assoc. repeat split; eauto using request_trace. discriminate. }
  destruct a; simpl.
  3:{ exists [ServiceCall k input; AvailabilityQuery k], false.
      rewrite <- app_assoc. repeat split; eauto using request_trace. discriminate. }
  all: destruct (create (api env k (requests w)) opts) as [e|]; simpl.
  all: try (exists [ServiceCall k input; AvailabilityQuery k; CreateRejected k], false;
            rewrite <- !app_assoc; repeat split; eauto using request_trace; discriminate).
  all: exists [ServiceCall k input; AvailabilityQuery k; Created k (handles w);
               Transform (handles w) input (o_context opts); Destroy (handles w)], true.
  all: destruct (transform (api env k (requests w)) input (o_context opts)); simpl.
  all: rewrite <- !app_assoc; repeat split; eauto using request_trace; discriminate.
Qed.

(** ** What the steps leave untouched *)

#[global] Instance untouched_preorder : PreOrder untouched.
Proof.
  split; [intros w; repeat split|].
  intros w1 w2 w3 (?&?&?&?) (?&?&?&?). unfold untouched. repeat split; congruence.
Qed.

Lemma untouched_log_ext {X} (proj : World → list X) P w w' :
  proj w' = proj w → log_ext proj P w w'.
Proof. intros H. exists []. rewrite app_nil_r. split; [assumption|constructor]. Qed.

Lemma untouched_disposal w w' :
  trace w' = trace w → handles w' = handles w → disposal w w'.
Proof.
  intros Ht Hh. split; [lia|]. exists []. rewrite app_nil_r. split; [assumption|].
  intros h. unfold balanced, countb. simpl. split; [split; lia|lia].
Qed.

Lemma quiet_emitted P {A} (m : M A) :
  preserves untouched m → preserves (log_ext emitted P) m.
Proof. intros H w. destruct (H w) as (?&?&?&?). apply untouched_log_ext; assumption. Qed.

Lemma quiet_trace P {A} (m : M A) :
  preserves untouched m → preserves (log_ext trace P) m.
Proof. intros H w. destruct (H w) as (?&?&?&?). apply untouched_log_ext; assumption. Qed.

Lemma quiet_disposal {A} (m : M A) : preserves untouched m → preserves disposal m.
Proof. intros H w. destruct (H w) as (?&?&?&?). apply untouched_disposal; assumption. Qed.

Lemma quiet_validator {A} (m : M A) : preserves untouched m → preserves same_validator m.
Proof. intros H w. destruct (H w) as (?&?&?&?). assumption. Qed.

Section Leaves.

Variable env : Env.

Lemma Date_now_untouched : preserves untouched (Date_now env).
Proof. intros w. repeat split. Qed.

Lemma modify_untouched f :
  (∀ w, untouched w (f w)) → preserves untouched (modify f).
Proof. intros H w. apply H. Qed.

Lemma set_controller_untouched c : preserves untouched (modify (set_controller c)).
Proof. intros w. repeat split. Qed.

Lemma set_stepTime_untouched name ms : preserves untouched (set_stepTime name ms).
Proof. intros w. repeat split. Qed.

Lemma incr_apiCalls_untouched : preserves untouched incr_apiCalls.
Proof. intros w. repeat split. Qed.

Lemma set_run_stats_untouched (f : World → Stats) :
  preserves untouched (modify (λ w, set_run_stats (f w) w)).
Proof. intros w. repeat split. Qed.

Lemma abort_untouched : preserves untouched abort.
Proof. intros w. repeat split. Qed.

Lemma caller_turn_untouched opts k : preserves untouched (caller_turn env opts k).
Proof.
  unfold caller_turn. apply preserves_bind; [apply _| |intros _].
  - destruct (signal opts); [case_decide|];
      first [apply abort_untouched | apply preserves_ret; apply _].
  - case_decide; first [apply abort_untouched | apply preserves_ret; apply _].
Qed.

(** [updateProgress] touches the progress log alone. *)
Lemma updateProgress_run cb s st n msg w :
  ∃ l w', updateProgress env cb s st n msg w = (inr tt, w') ∧
    emitted w' = emitted w ++ l ∧ trace w' = trace w ∧ handles w' = handles w ∧
    validator w' = validator w ∧ requests w' = requests w ∧
    run_stats w' = run_stats w ∧ controller w' = controller w ∧
    match cb with
    | None => l = []
    | Some _ => ∃ g, l = [g] ∧ step g = s ∧ status g = st ∧ progress g = n ∧
                     message g = Some msg
    end.
Proof.
  destruct cb as [[]|]; simpl.
  - destruct st; simpl; eexists [_], _; repeat split; eauto 10.
  - exists [], w. rewrite app_nil_r. repeat split.
Qed.

Lemma updateProgress_emitted (P : GenerationProgress → Prop) cb s st n msg :
  (∀ g, step g = s → status g = st → progress g = n → P g) →
  preserves (log_ext emitted P) (updateProgress env cb s st n msg).
Proof.
  intros HP w.
  destruct (updateProgress_run cb s st n msg w) as (l & w' & -> & He & _ & _ & _ & _ & _ & _ & Hl).
  exists l. split; [assumption|]. destruct cb.
  - destruct Hl as (g & -> & ? & ? & ? & _). repeat constructor. auto.
  - subst l. constructor.
Qed.

Lemma updateProgress_trace P cb s st n msg :
  preserves (log_ext trace P) (updateProgress env cb s st n msg).
Proof.
  intros w. destruct (updateProgress_run cb s st n msg w) as (l & w' & -> & ? & ? & _).
  apply untouched_log_ext. assumption.
Qed.

Lemma updateProgress_disposal cb s st n msg :
  preserves disposal (updateProgress env cb s st n msg).
Proof.
  intros w. destruct (updateProgress_run cb s st n msg w) as (l & w' & -> & ? & ? & ? & _).
  apply untouched_disposal; assumption.
Qed.

Lemma updateProgress_validator cb s st n msg :
  preserves same_validator (updateProgress env cb s st n msg).
Proof.
  intros w. destruct (updateProgress_run cb s st n msg w) as (l & w' & -> & ? & ? & ? & ? & _).
  assumption.
Qed.

Lemma validate_emitted P content : preserves (log_ext emitted P) (validate content).
Proof.
  intros w. unfold validate. destruct (TextValidator.validate _ _).
  apply untouched_log_ext. reflexivity.
Qed.

Lemma validate_disposal content : preserves disposal (validate content).
Proof.
  intros w. unfold validate. destruct (TextValidator.validate _ _).
  apply untouched_disposal; reflexivity.
Qed.

Lemma transformWith_emitted P k input opts :
  preserves (log_ext emitted P) (transformWith env k input opts).
Proof.
  intros w. destruct (transformWith_run env k input opts w)
    as (seg & used & _ & _ & _ & _ & _ & He & _).
  apply untouched_log_ext. assumption.
Qed.

Lemma transformWith_validator k input opts :
  preserves same_validator (transformWith env k input opts).
Proof.
  intros w. destruct (transformWith_run env k input opts w)
    as (seg & used & _ & _ & _ & _ & _ & _ & Hv & _).
  assumption.
Qed.

Lemma transformWith_trace k input opts :
  preserves (log_ext trace (λ _, True)) (transformWith env k input opts).
Proof.
  intros w. destruct (transformWith_run env k input opts w)
    as (seg & used & _ & Ht & _).
  exists seg. split; [assumption|]. apply Forall_forall. trivial.
Qed.

Lemma transformWith_begins k input opts :
  begins trace (λ _, True) (λ ev, ev = ServiceCall k input) (transformWith env k input opts).
Proof.
  intros w. destruct (transformWith_run env k input opts w)
    as (seg & used & Hs & Ht & _).
  destruct Hs; eexists _, _; (split; [exact Ht|]); (split; [reflexivity|]);
    apply Forall_forall; trivial.
Qed.

(** Every handle a request creates is destroyed before the request is
    over, on each of its exits. *)
Lemma transformWith_disposal k input opts :
  preserves disposal (transformWith env k input opts).
Proof.
  intros w. destruct (transformWith_run env k input opts w)
    as (seg & used & Hs & Ht & Hh & _).
  split; [destruct used; lia|]. exists seg. split; [assumption|].
  intros h. unfold balanced, countb.
  destruct Hs; simpl; rewrite ?Hh; try (split; [split; lia|lia]).
  destruct (Nat.eqb_spec h (handles w)); simpl; split; try split; lia.
Qed.

End Leaves.

(** ** Invariants of the whole pipeline *)

Lemma disposal_trace_ext w w' : disposal w w' → log_ext trace (λ _, True) w w'.
Proof.
  intros (_ & seg & Ht & _). exists seg. split; [assumption|].
  apply Forall_forall. trivial.
Qed.

(** Steps that leave the logs, the handles and the validator alone. *)
Ltac quiet_leaf :=
  first [ apply Date_now_untouched | apply set_controller_untouched
        | apply set_stepTime_untouched | apply incr_apiCalls_untouched
        | apply set_run_stats_untouched | apply abort_untouched
        | apply caller_turn_untouched ].

(** Walks through a computation along its binds and case distinctions and
    closes the leaves with the lemmas of the relation at hand; [side]
    proves that an emitted entry is of the expected kind. *)
Ltac pres side :=
  cbv zeta;
  lazymatch goal with
  | |- preserves _ (bind _ _) => apply preserves_bind; [apply _ | pres side | intros ?; pres side]
  | |- preserves _ (try_catch _ _) =>
      apply preserves_try_catch; [apply _ | pres side | intros ?; pres side]
  | |- preserves _ (ret _) => apply preserves_ret; apply _
  | |- preserves _ (throw _) => apply preserves_throw; apply _
  | |- preserves _ get => apply preserves_get; apply _
  | |- preserves _ (if ?b then _ else _) => destruct b; pres side
  | |- preserves _ (match ?x with _ => _ end) => destruct x; pres side
  | |- preserves _ (generation_steps _ _ _ _ _) => unfold generation_steps; pres side
  | |- preserves _ (validation_step _ _ _) => unfold validation_step; pres side
  | |- preserves _ (pipeline _ _ _ _ _) => unfold pipeline; pres side
  | |- preserves _ (on_failure _ _ _ _) => unfold on_failure; pres side
  | |- preserves _ (processContent _ _ _ _) => unfold processContent; pres side
  | |- preserves _ (generateSummary _ _ _) => unfold generateSummary; pres side
  | |- preserves _ (adaptContentForGrade _ _ _) => unfold adaptContentForGrade; pres side
  | |- preserves _ (generateMindMap _ _ _) => unfold generateMindMap; pres side
  | |- preserves _ (generateAudioLesson _ _ _) => unfold generateAudioLesson; pres side
  | |- preserves _ (generateQuiz _ _ _) => unfold generateQuiz; pres side
  | |- preserves (log_ext emitted _) _ =>
      first [ apply updateProgress_emitted; side | apply transformWith_emitted
            | apply validate_emitted | apply quiet_emitted; quiet_leaf ]
  | |- preserves disposal _ =>
      first [ apply updateProgress_disposal | apply transformWith_disposal
            | apply validate_disposal | apply quiet_disposal; quiet_leaf ]
  | |- preserves same_validator _ =>
      first [ apply updateProgress_validator | apply transformWith_validator
            | apply quiet_validator; quiet_leaf ]
  end.

Ltac no_side := fail.

Ltac stage_side :=
  let Hn := fresh in intros ? _ _ Hn; unfold stage_entry; rewrite Hn; lia.
Ltac generation_side :=
  let Hs := fresh in let Ht := fresh in
  intros ? Hs Ht _; unfold generation_entry; rewrite Hs, Ht; split; discriminate.

Section Invariants.

Variables (env : Env) (content : string) (p : UserPreferences) (opts : ProcessingOptions).

Lemma processContent_disposal : preserves disposal (processContent env content p opts).
Proof. pres no_side. Qed.

Lemma generation_steps_validator t :
  preserves same_validator (generation_steps env t content p opts).
Proof. pres no_side. Qed.

Lemma generation_steps_entries t :
  preserves (log_ext emitted generation_entry) (generation_steps env t content p opts).
Proof. pres generation_side. Qed.

Lemma pipeline_entries t :
  preserves (log_ext emitted stage_entry) (pipeline env t content p opts).
Proof. pres stage_side. Qed.

End Invariants.

(** ** The two exits of [processContent] *)

Section Exits.

Variables (env : Env) (content : string) (p : UserPreferences) (opts : ProcessingOptions).

Lemma processContent_unfold w :
  processContent env content p opts w =
  match pipeline env (clock env (ticks w)) content p opts (entered w) with
  | (inr r, w') => (inr r, w')
  | (inl e, w') => on_failure env (clock env (ticks w)) opts e w'
  end.
Proof. reflexivity. Qed.

Lemma on_failure_run t e w :
  ∃ r w', on_failure env t opts e w = (inr r, w') ∧
    success r = false ∧ materials r = None ∧ gr_error r = Some (errorMessageOf e) ∧
    apiCalls (stats r) = apiCalls (run_stats w) ∧
    trace w' = trace w ∧ requests w' = requests w ∧ validator w' = validator w ∧
    ∃ l, emitted w' = emitted w ++ l ∧
      match onProgress opts with
      | None => l = []
      | Some _ => ∃ g, l = [g] ∧ step g = "error" ∧ status g = error ∧
                       progress g = 0 ∧ message g = gr_error r
      end.
Proof.
  unfold on_failure.
  destruct (onProgress opts) as [[]|] eqn:Hcb; simpl.
  - eexists _, _. split; [reflexivity|]. simpl. repeat split.
    eexists [_]. split; [reflexivity|]. eexists. repeat split.
  - eexists _, _. split; [reflexivity|]. simpl. repeat split.
    exists []. rewrite app_nil_r. split; reflexivity.
Qed.

Lemma generation_steps_succeeds t w r w' :
  generation_steps env t content p opts w = (inr r, w') → success r = true.
Proof.
  unfold generation_steps. cbv zeta. intros H.
  repeat (apply bind_inr in H; destruct H as (? & ? & _ & H)).
  injection H as <- _. reflexivity.
Qed.

Lemma pipeline_succeeds t w r w' :
  pipeline env t content p opts w = (inr r, w') → success r = true.
Proof.
  unfold pipeline. intros H.
  do 2 (apply bind_inr in H; destruct H as (? & ? & _ & H)).
  eapply generation_steps_succeeds; eassumption.
Qed.

(** [processContent] always returns a result: nothing escapes its
    [catch]. *)
Lemma processContent_returns w :
  ∃ r w', processContent env content p opts w = (inr r, w').
Proof.
  rewrite processContent_unfold.
  destruct (pipeline _ _ _ _ _ _) as [[e|r] w1]; [|eauto].
  destruct (on_failure_run (clock env (ticks w)) e w1) as (r & w' & H & _). eauto.
Qed.

Lemma processContent_success w r w' :
  processContent env content p opts w = (inr r, w') → success r = true →
  pipeline env (clock env (ticks w)) content p opts (entered w) = (inr r, w').
Proof.
  rewrite processContent_unfold.
  destruct (pipeline _ _ _ _ _ _) as [[e|r1] w1]; [|intros [= <- <-]; reflexivity].
  destruct (on_failure_run (clock env (ticks w)) e w1) as (r2 & w2 & -> & Hs & _).
  intros [= <- <-]. congruence.
Qed.

Lemma processContent_failure w r w' :
  processContent env content p opts w = (inr r, w') → success r = false →
  ∃ e w1, pipeline env (clock env (ticks w)) content p opts (entered w) = (inl e, w1) ∧
          on_failure env (clock env (ticks w)) opts e w1 = (inr r, w').
Proof.
  rewrite processContent_unfold.
  destruct (pipeline _ _ _ _ _ _) as [[e|r1] w1] eqn:Hp; [eauto|].
  intros [= <- <-] Hs. apply pipeline_succeeds in Hp. congruence.
Qed.

End Exits.

(** ** The progress entries of a successful run *)

Lemma emits_bind {A B} (m : M A) (k : A → M B) ps1 ps2 ps :
  emits m ps1 → (∀ a, emits (k a) ps2) → ps = ps1 ++ ps2 → emits (bind m k) ps.
Proof.
  intros Hm Hk -> w b w' H. apply bind_inr in H as (a & w1 & H1 & H2).
  destruct (Hm _ _ _ H1) as (l1 & E1 & M1). destruct (Hk _ _ _ _ H2) as (l2 & E2 & M2).
  exists (l1 ++ l2). rewrite E2, E1, app_assoc, map_app, M1, M2. auto.
Qed.

Lemma emits_throw {A} e ps : emits (@throw A e) ps.
Proof. intros w a w' H. discriminate. Qed.

Lemma emits_ret {A} (a : A) : emits (ret a) [].
Proof. intros w b w' [= <- <-]. exists []. rewrite app_nil_r. auto. Qed.

Lemma emits_get : emits get [].
Proof. intros w b w' [= <- <-]. exists []. rewrite app_nil_r. auto. Qed.

(** A computation that cannot append an entry emits nothing. *)
Lemma emits_quiet {A} (m : M A) :
  preserves (log_ext emitted (λ _, False)) m → emits m [].
Proof.
  intros Hm w a w' H. specialize (Hm w). rewrite H in Hm. simpl in Hm.
  destruct Hm as (l & E & F). exists l. split; [assumption|].
  destruct l as [|g l]; [reflexivity|]. inversion F. contradiction.
Qed.

Lemma emits_updateProgress env cb s st n msg :
  emits (updateProgress env (Some cb) s st n msg) [n].
Proof.
  intros w a w' H.
  destruct (updateProgress_run env (Some cb) s st n msg w)
    as (l & w1 & H1 & E & _ & _ & _ & _ & _ & _ & g & -> & _ & _ & Hn & _).
  rewrite H in H1. injection H1 as _ <-. exists [g]. simpl. rewrite Hn. auto.
Qed.

Ltac emits_go :=
  cbv zeta;
  lazymatch goal with
  | |- emits (bind _ _) _ =>
      eapply emits_bind; [emits_go | intros ?; emits_go | reflexivity]
  | |- emits (ret _) _ => apply emits_ret
  | |- emits (throw _) _ => apply emits_throw
  | |- emits get _ => apply emits_get
  | |- emits (if ?b then _ else _) _ => destruct b; emits_go
  | |- emits (updateProgress _ (Some _) _ _ _ _) _ => apply emits_updateProgress
  | |- emits (generation_steps _ _ _ _ _) _ => unfold generation_steps; emits_go
  | |- emits (validation_step _ _ _) _ => unfold validation_step; emits_go
  | |- emits _ _ => apply emits_quiet; pres no_side
  end.

Lemma pipeline_emits env t content p opts :
  emits (pipeline env t content p opts) (checkpoints opts).
Proof.
  unfold pipeline, checkpoints, generation_steps, validation_step. cbv zeta.
  destruct (onProgress opts) as [cb|]; destruct (validation_enabled opts).
  all: emits_go.
Qed.

(** ** Fail fast on invalid content *)

Lemma validation_step_rejects env content opts w :
  isValid (TextValidator.validate content (validator w)).1 = false →
  ∃ e w1, validation_step env content opts w = (inl e, w1) ∧
    trace w1 = trace w ∧ requests w1 = requests w ∧ run_stats w1 = run_stats w.
Proof.
  intros Hinv. unfold validation_step. cbv zeta.
  destruct (updateProgress_run env (onProgress opts) "validation" in_progress 5
              "Validating content..." w)
    as (l & w1 & H1 & _ & Ht & _ & Hval & Hr & Hs & _).
  rewrite (bind_run_inr _ _ _ _ _ H1).
  unfold bind at 1, validate at 1. rewrite Hval.
  destruct (TextValidator.validate content (validator w)) as [v st]. simpl in Hinv.
  rewrite Hinv. simpl. eexists _, _. split; [reflexivity|]. simpl. auto.
Qed.

(** C2. On the default path, where validation is enabled, a content that
    fails validation ends the run at once: the result is a failure without
    materials, [apiCalls] is 0, and no request has been made through the
    service (the trace and the request counter are as they were). *)
Theorem invalid_content_fails_fast env content p opts w :
  validation_enabled opts = true →
  isValid (TextValidator.validate content (validator w)).1 = false →
  ∃ r w', processContent env content p opts w = (inr r, w') ∧
    success r = false ∧ materials r = None ∧ apiCalls (stats r) = 0 ∧
    trace w' = trace w ∧ requests w' = requests w.
Proof.
  intros Hen Hinv. rewrite processContent_unfold.
  unfold pipeline. rewrite Hen.
  destruct (validation_step_rejects env content opts
              (set_controller (Some false) (entered w)) Hinv)
    as (e & w1 & Hv & Ht & Hr & Hs).
  unfold bind at 1. simpl.
  rewrite (bind_run_inl _ _ _ _ _ Hv).
  destruct (on_failure_run env opts (clock env (ticks w)) e w1)
    as (r & w' & -> & ? & ? & _ & Ha & ? & ? & _).
  exists r, w'. rewrite Hs in Ha. simpl in *. repeat split; congruence.
Qed.

Lemma invalid_content_fails_fast_witness :
  validation_enabled default_options = true ∧
  isValid (TextValidator.validate "too short" (validator world0)).1 = false ∧
  ∃ r w', processContent ok_env "too short" prefs7 default_options world0 = (inr r, w') ∧
    success r = false ∧ materials r = None ∧ apiCalls (stats r) = 0 ∧
    trace w' = trace world0 ∧ requests w' = requests world0.
Proof.
  split; [reflexivity|]. split; [vm_compute; reflexivity|].
  apply (invalid_content_fails_fast ok_env "too short" prefs7 default_options world0).
  - reflexivity.
  - vm_compute. reflexivity.
Defined.

(** ** Progress entries *)

Lemma entered_emitted w : emitted (entered w) = emitted w.
Proof. reflexivity. Qed.

(** C5. In a successful run the percent values of the entries delivered to
    the progress callback never decrease, and the last one is 100.  (Without
    a callback nothing is delivered.) *)
Theorem progress_is_monotone env content p opts w r w' :
  processContent env content p opts w = (inr r, w') →
  success r = true →
  ∃ l, emitted w' = emitted w ++ l ∧
    Sorted le (map progress l) ∧
    (is_Some (onProgress opts) → last (map progress l) = Some 100) ∧
    (onProgress opts = None → l = []).
Proof.
  intros H Hs. apply processContent_success in H; [|assumption].
  apply pipeline_emits in H as (l & He & Hl).
  exists l. rewrite He, Hl. split; [reflexivity|]. unfold checkpoints in *.
  destruct (onProgress opts) as [cb|]; [destruct (validation_enabled opts)|].
  - split; [repeat constructor; lia|]. split; [reflexivity|discriminate].
  - split; [repeat constructor; lia|]. split; [reflexivity|discriminate].
  - split; [constructor|]. split; [intros [? [=]]|].
    intros _. destruct l; [reflexivity|discriminate].
Qed.

Lemma progress_is_monotone_witness :
  ∃ r w',
    processContent ok_env sample_text prefs7 default_options world0 = (inr r, w') ∧
    success r = true ∧
    ∃ l, emitted w' = emitted world0 ++ l ∧
      Sorted le (map progress l) ∧
      (is_Some (onProgress default_options) → last (map progress l) = Some 100) ∧
      (onProgress default_options = None → l = []).
Proof.
  eexists _, _. split; [vm_compute; reflexivity|]. split; [reflexivity|].
  eapply (progress_is_monotone ok_env sample_text prefs7 default_options world0).
  - vm_compute. reflexivity.
  - reflexivity.
Defined.

Section Begins.

Variable env : Env.

Lemma silent_ret {X} (proj : World → list X) {A} (a : A) : silent proj (ret a).
Proof. intros w. eauto. Qed.

Lemma silent_Date_now {X} (proj : World → list X) :
  (∀ n w, proj (set_ticks n w) = proj w) → silent proj (Date_now env).
Proof. intros H w. eexists _, _. split; [reflexivity|apply H]. Qed.

Lemma silent_set_controller {X} (proj : World → list X) c :
  (∀ w, proj (set_controller c w) = proj w) → silent proj (modify (set_controller c)).
Proof. intros H w. eexists _, _. split; [reflexivity|apply H]. Qed.

Lemma silent_updateProgress cb s st n msg : silent trace (updateProgress env cb s st n msg).
Proof.
  intros w. destruct (updateProgress_run env cb s st n msg w) as (l & w' & H & _ & Ht & _).
  eauto.
Qed.

Lemma begins_updateProgress (P Q : GenerationProgress → Prop) cb s st n msg :
  (∀ g, step g = s → status g = st → progress g = n → Q g) →
  begins emitted P Q (updateProgress env (Some cb) s st n msg).
Proof.
  intros HQ w.
  destruct (updateProgress_run env (Some cb) s st n msg w)
    as (l & w' & -> & He & _ & _ & _ & _ & _ & _ & g & -> & ? & ? & ? & _).
  exists g, []. simpl. split; [assumption|]. split; [auto|constructor].
Qed.

(** With a callback, the pipeline delivers an entry before anything in
    it can fail. *)
Lemma pipeline_begins t content p opts :
  is_Some (onProgress opts) →
  begins emitted stage_entry stage_entry (pipeline env t content p opts).
Proof.
  intros [cb Hcb]. unfold pipeline.
  apply begins_bind_r; [apply silent_set_controller; reflexivity|intros _].
  destruct (validation_enabled opts).
  - apply begins_bind_l; [|intros _; pres stage_side].
    unfold validation_step. cbv zeta. rewrite Hcb.
    apply begins_bind_l; [apply begins_updateProgress; stage_side|].
    intros _. pres stage_side.
  - apply begins_bind_r; [apply silent_ret|intros _].
    unfold generation_steps. cbv zeta. rewrite Hcb.
    apply begins_bind_r; [apply silent_Date_now; reflexivity|intros ?].
    apply begins_bind_l; [apply begins_updateProgress; stage_side|].
    intros _. pres stage_side.
Qed.

(** The first event of the generation steps is the request for a
    summary of the content. *)
Lemma generation_steps_begins t content p opts :
  begins trace (λ _, True) (λ ev, ev = ServiceCall SummarizerAPI content)
    (generation_steps env t content p opts).
Proof.
  unfold generation_steps. cbv zeta.
  apply begins_bind_r; [apply silent_Date_now; reflexivity|intros ?].
  apply begins_bind_r; [apply silent_updateProgress|intros _].
  apply begins_bind_l.
  - unfold generateSummary. apply begins_bind_l; [apply transformWith_begins|].
    intros ?. apply (preserves_weaken _ disposal); [exact disposal_trace_ext|].
    pres no_side.
  - intros ?. apply (preserves_weaken _ disposal); [exact disposal_trace_ext|].
    pres no_side.
Qed.

End Begins.

Lemma Sorted_le_cons_last x l y : Sorted le (x :: l ++ [y]) → x ≤ y.
Proof.
  intros H. apply Sorted_StronglySorted in H; [|intros a b c; lia].
  apply StronglySorted_inv in H as [_ H]. rewrite Forall_app in H.
  destruct H as [_ H]. inversion H. assumption.
Qed.

(** C9. A run that fails while a progress callback is supplied delivers
    one last entry with step [error], status [error] and percent 0, whose
    message is the error of the result.  Entries of positive percent were
    delivered before it, so the percent values of a failed run are not
    non-decreasing. *)
Theorem failed_run_reports_error env content p opts w r w' :
  processContent env content p opts w = (inr r, w') →
  success r = false →
  is_Some (onProgress opts) →
  ∃ l g, emitted w' = emitted w ++ l ++ [g] ∧
    step g = "error" ∧ status g = error ∧ progress g = 0 ∧ message g = gr_error r ∧
    l ≠ [] ∧ Forall (λ g', 0 < progress g') l ∧
    ¬ Sorted le (map progress (l ++ [g])).
Proof.
  intros H Hs Hcb. apply processContent_failure in H as (e & w1 & Hp & Hf); [|assumption].
  destruct (pipeline_begins env (clock env (ticks w)) content p opts Hcb (entered w))
    as (x & l & He & Hx & Hl).
  rewrite Hp in He. simpl in He.
  destruct (on_failure_run env opts (clock env (ticks w)) e w1)
    as (r2 & w2 & Hf2 & _ & _ & _ & _ & _ & _ & _ & l2 & He2 & Hl2).
  rewrite Hf in Hf2. injection Hf2 as <- <-.
  destruct Hcb as [cb Hcb]. rewrite Hcb in Hl2.
  destruct Hl2 as (g & -> & Hg1 & Hg2 & Hg3 & Hg4).
  exists (x :: l), g. rewrite He2, He, ?entered_emitted, <- app_assoc.
  repeat split; try assumption; try discriminate.
  - constructor; assumption.
  - simpl. rewrite map_app. simpl. rewrite Hg3. intros Hsorted.
    apply Sorted_le_cons_last in Hsorted. unfold stage_entry in Hx. lia.
Qed.

Lemma failed_run_reports_error_witness :
  ∃ r w',
    processContent no_rewriter_env sample_text prefs7 default_options world0 = (inr r, w') ∧
    success r = false ∧ is_Some (onProgress default_options) ∧
    ∃ l g, emitted w' = emitted world0 ++ l ++ [g] ∧
      step g = "error" ∧ status g = error ∧ progress g = 0 ∧ message g = gr_error r ∧
      l ≠ [] ∧ Forall (λ g', 0 < progress g') l ∧
      ¬ Sorted le (map progress (l ++ [g])).
Proof.
  eexists _, _. split; [vm_compute; reflexivity|]. split; [reflexivity|].
  split; [eexists; reflexivity|].
  eapply (failed_run_reports_error no_rewriter_env sample_text prefs7 default_options world0).
  - vm_compute. reflexivity.
  - reflexivity.
  - eexists. reflexivity.
Defined.

(** ** Skipping the validation *)

(** C10. With [includeValidation: false] the validator is not consulted
    (its state is untouched and no entry of the validation step is
    delivered), and whatever the content, the run goes on to request a
    summary of it from the service: that request is the first event of
    the run. *)
Theorem validation_can_be_skipped env content p cb sg w :
  let opts := {| onProgress := cb; signal := sg; includeValidation := Some false |} in
  ∃ r w', processContent env content p opts w = (inr r, w') ∧
    validator w' = validator w ∧
    (∃ rest, trace w' = trace w ++ ServiceCall SummarizerAPI content :: rest) ∧
    (∃ l, emitted w' = emitted w ++ l ∧ Forall (λ g, step g ≠ "validation") l).
Proof.
  intros opts.
  destruct (processContent_returns env content p opts w) as (r & w' & H).
  exists r, w'. split; [assumption|].
  rewrite processContent_unfold in H. unfold pipeline in H.
  change (validation_enabled opts) with false in H. cbv iota in H.
  set (t := clock env (ticks w)) in *.
  set (w0 := set_controller (Some false) (entered w)).
  change ((modify (set_controller (Some false)) ;;
           ret tt ;; generation_steps env t content p opts) (entered w))
    with (generation_steps env t content p opts w0) in H.
  pose proof (generation_steps_validator env content p opts t w0) as Hv.
  pose proof (generation_steps_entries env content p opts t w0) as He.
  pose proof (generation_steps_begins env t content p opts w0) as Ht.
  destruct (generation_steps env t content p opts w0) as [[e|r1] w1];
    subst w0; unfold same_validator in Hv; simpl in *.
  - destruct (on_failure_run env opts t e w1)
      as (r2 & w2 & Hf & _ & _ & _ & _ & Ht2 & _ & Hv2 & l2 & He2 & Hl2).
    rewrite H in Hf. injection Hf as <- <-.
    destruct Ht as (x & rest & Ht & -> & _). destruct He as (l & He & Hl).
    split; [congruence|].
    split; [exists rest; congruence|].
    exists (l ++ l2). rewrite He2, He, app_assoc. split; [reflexivity|].
    apply Forall_app. split.
    + eapply Forall_impl; [exact Hl|]. intros g [Hg _]. exact Hg.
    + destruct cb; simpl in Hl2.
      * destruct Hl2 as (g & -> & Hg & _). repeat constructor. rewrite Hg. discriminate.
      * subst l2. constructor.
  - injection H as <- <-.
    destruct Ht as (x & rest & Ht & -> & _). destruct He as (l & He & Hl).
    split; [exact Hv|]. split; [exists rest; exact Ht|].
    exists l. split; [exact He|].
    eapply Forall_impl; [exact Hl|]. intros g [Hg _]. exact Hg.
Qed.

(** A text below the minimum length is rejected by the validator, and yet
    processed in full when the validation is switched off. *)
Lemma short_text_is_processed_without_validation :
  isValid (TextValidator.validate "tiny" validator_init).1 = false ∧
  ∃ r w', processContent ok_env "tiny" prefs7 no_validation_options world0 = (inr r, w') ∧
    success r = true ∧ apiCalls (stats r) = 4 ∧ is_Some (materials r).
Proof.
  split; [vm_compute; reflexivity|].
  eexists _, _. split; [vm_compute; reflexivity|]. simpl.
  split; [reflexivity|]. split; [reflexivity|]. eexists; reflexivity.
Qed.

(** ** Disposal of the capability handles *)

Lemma countb_pos {X} (p : X → bool) x l : In x l → p x = true → 0 < countb p l.
Proof.
  intros Hin Hp. unfold countb.
  assert (In x (List.filter p l)) by (apply List.filter_In; auto).
  destruct (List.filter p l); [contradiction|simpl; lia].
Qed.

(** C8. Every handle created through the service is destroyed exactly
    once.  For one request: whenever a handle is created, the trace of the
    request ends with its creation, the call of its method and its
    destruction, whether that call resolves or rejects.  For a whole run of
    [processContent], on each of its exits: a handle created during the run
    is created once and destroyed once. *)
Theorem handles_are_destroyed_once env :
  (∀ k input o w,
     ∃ seg, trace (transformWith env k input o w).2 = trace w ++ seg ∧
       ∀ k' h, In (Created k' h) seg →
         ∃ pre, seg = pre ++ [Created k h; Transform h input (o_context o); Destroy h] ∧
                ¬ In (Destroy h) pre) ∧
  (∀ content p opts w,
     ∃ seg, trace (processContent env content p opts w).2 = trace w ++ seg ∧
       ∀ k h, In (Created k h) seg →
         countb (is_created h) seg = 1 ∧ countb (is_destroy h) seg = 1).
Proof.
  split.
  - intros k input o w.
    destruct (transformWith_run env k input o w) as (seg & used & Hs & Ht & _).
    exists seg. split; [assumption|]. intros k' h Hin.
    destruct Hs; simpl in Hin.
    + destruct Hin as [[=]|[]].
    + destruct Hin as [[=]|[[=]|[]]].
    + destruct Hin as [[=]|[[=]|[[=]|[]]]].
    + destruct Hin as [[=]|[[=]|[[= <- <-]|[[=]|[[=]|[]]]]]].
      exists [ServiceCall k input; AvailabilityQuery k]. split; [reflexivity|].
      simpl. intros [[=]|[[=]|[]]].
  - intros content p opts w.
    destruct (processContent_disposal env content p opts w) as (_ & seg & Ht & Hb).
    exists seg. split; [assumption|]. intros k h Hin.
    destruct (Hb h) as [[Heq Hle] _].
    assert (0 < countb (is_created h) seg).
    { eapply countb_pos; [exact Hin|]. simpl. apply Nat.eqb_refl. }
    lia.
Qed.

(** ** Cancellation *)

Lemma agree_ret {A} (a : A) : agree (ret a) (ret a).
Proof. intros w1 w2 H. auto. Qed.

Lemma agree_throw {A} e : agree (@throw A e) (throw e).
Proof. intros w1 w2 H. auto. Qed.

Lemma agree_bind {A B} (m1 m2 : M A) (k1 k2 : A → M B) :
  agree m1 m2 → (∀ a, agree (k1 a) (k2 a)) → agree (bind m1 k1) (bind m2 k2).
Proof.
  intros Hm Hk w1 w2 H. unfold bind. destruct (Hm w1 w2 H) as [Hr Hw].
  destruct (m1 w1) as [[e|a] w1'], (m2 w2) as [[e2|a2] w2']; simpl in *;
    try discriminate.
  - injection Hr as <-. auto.
  - injection Hr as <-. apply Hk. assumption.
Qed.

Lemma agree_try_catch {A} (b1 b2 : M A) h1 h2 :
  agree b1 b2 → (∀ e, agree (h1 e) (h2 e)) → agree (try_catch b1 h1) (try_catch b2 h2).
Proof.
  intros Hm Hk w1 w2 H. unfold try_catch. destruct (Hm w1 w2 H) as [Hr Hw].
  destruct (b1 w1) as [[e|a] w1'], (b2 w2) as [[e2|a2] w2']; simpl in *;
    try discriminate.
  - injection Hr as <-. apply Hk. assumption.
  - injection Hr as <-. auto.
Qed.

Ltac same_worlds :=
  let H := fresh in
  intros [? ? ? ? ? ? ? ?] [? ? ? ? ? ? ? ?] H;
  injection H as -> -> -> -> -> -> ->.

Section Agreement.

Variable env : Env.

Lemma agree_Date_now : agree (Date_now env) (Date_now (never_aborting env)).
Proof. same_worlds. split; reflexivity. Qed.

Lemma agree_modify f :
  (∀ w1 w2, erase w1 = erase w2 → erase (f w1) = erase (f w2)) →
  agree (modify f) (modify f).
Proof. intros Hf w1 w2 H. split; [reflexivity|apply Hf; assumption]. Qed.

Lemma agree_set_controller c : agree (modify (set_controller c)) (modify (set_controller c)).
Proof. same_worlds. split; reflexivity. Qed.

Lemma agree_set_run_stats s :
  agree (modify (set_run_stats s)) (modify (set_run_stats s)).
Proof. same_worlds. split; reflexivity. Qed.

Lemma agree_set_stepTime name ms : agree (set_stepTime name ms) (set_stepTime name ms).
Proof. same_worlds. split; reflexivity. Qed.

Lemma agree_incr_apiCalls : agree incr_apiCalls incr_apiCalls.
Proof. same_worlds. split; reflexivity. Qed.

Lemma agree_set_totalTime ms :
  agree (modify (λ w, set_run_stats (set_totalTime ms (run_stats w)) w))
        (modify (λ w, set_run_stats (set_totalTime ms (run_stats w)) w)).
Proof. same_worlds. split; reflexivity. Qed.

Lemma agree_validate content : agree (validate content) (validate content).
Proof.
  same_worlds. unfold validate. simpl.
  destruct (TextValidator.validate _ _). split; reflexivity.
Qed.

Lemma agree_updateProgress cb s st n msg :
  agree (updateProgress env cb s st n msg)
        (updateProgress (never_aborting env) cb s st n msg).
Proof. same_worlds. destruct cb as [[]|], st; split; reflexivity. Qed.

Lemma agree_transformWith k input o :
  agree (transformWith env k input o) (transformWith (never_aborting env) k input o).
Proof.
  same_worlds.
  unfold transformWith, createHandle, bind, try_catch, try_finally, get, modify, log,
    lift_result, throw, ret.
  simpl.
  destruct (supported _); simpl; [|split; reflexivity].
  destruct (availability _) as [e|[]]; simpl; try (split; reflexivity).
  all: destruct (create _ _); simpl; try (split; reflexivity).
  all: destruct (transform _ _ _); simpl; split; reflexivity.
Qed.

(** What the caller does between two stages changes the abort controller
    and nothing else. *)
Lemma agree_caller_turn opts k :
  agree (caller_turn env opts k) (caller_turn (never_aborting env) (without_signal opts) k).
Proof.
  same_worlds. unfold caller_turn, bind, abort, modify, ret. simpl.
  destruct (signal opts) as [sg|]; [destruct (decide _)|]; simpl;
    destruct (decide _); simpl; split; reflexivity.
Qed.

Ltac agree_leaf :=
  first [ apply agree_ret | apply agree_throw | apply agree_Date_now
        | apply agree_updateProgress | apply agree_transformWith
        | apply agree_caller_turn | apply agree_validate
        | apply agree_set_controller | apply agree_set_run_stats
        | apply agree_set_stepTime | apply agree_incr_apiCalls
        | apply agree_set_totalTime ].

Ltac agree_go :=
  cbv zeta;
  lazymatch goal with
  | |- agree (bind get _) (bind get _) => same_worlds; split; reflexivity
  | |- agree (bind _ _) (bind _ _) => apply agree_bind; [agree_go | intros ?; agree_go]
  | |- agree (try_catch _ _) (try_catch _ _) =>
      apply agree_try_catch; [agree_go | intros ?; agree_go]
  | |- agree (if ?b then _ else _) (if ?b then _ else _) => destruct b; agree_go
  | |- agree (match ?x with _ => _ end) (match ?x with _ => _ end) => destruct x; agree_go
  | |- agree (generateSummary _ _ _) _ => unfold generateSummary; agree_go
  | |- agree (adaptContentForGrade _ _ _) _ => unfold adaptContentForGrade; agree_go
  | |- agree (generateMindMap _ _ _) _ => unfold generateMindMap; agree_go
  | |- agree (generateAudioLesson _ _ _) _ => unfold generateAudioLesson; agree_go
  | |- agree (generateQuiz _ _ _) _ => unfold generateQuiz; agree_go
  | |- _ => agree_leaf
  end.

(** Whenever the caller cancels, by the token or by [abort()], the run
    returns what it returns when nobody cancels, and leaves the same
    trace, progress entries and statistics. *)
Lemma cancellation_is_never_observed content p opts :
  agree (processContent env content p opts)
        (processContent (never_aborting env) content p (without_signal opts)).
Proof.
  unfold processContent, pipeline, on_failure, validation_step, generation_steps,
    validation_enabled, errorMessageOf.
  cbn [without_signal onProgress includeValidation].
  agree_go.
Qed.

End Agreement.


(** C1, evaluated on the code.  The token is cancelled once the summary
    stage has completed and every capability answers: the listener marks the
    abort controller of the processor, but the run goes through all the
    remaining stages and returns a success with materials after four
    requests. *)
Theorem cancellation_does_not_stop_the_run :
  ∃ r w',
    processContent ok_env sample_text prefs7 (cancelling_options summarizing) world0
      = (inr r, w') ∧
    controller w' = Some true ∧
    success r = true ∧ gr_error r = None ∧ is_Some (materials r) ∧
    apiCalls (stats r) = 4 ∧
    map progress (emitted w') = [5; 10; 20; 35; 45; 60; 70; 80; 85; 90; 95; 98; 99; 100].
Proof.
  eexists _, _. split; [vm_compute; reflexivity|]. simpl.
  repeat split; try reflexivity. eexists; reflexivity.
Qed.

(** ** What a successful run returns *)

Section Results.

Variables (env : Env) (content : string) (p : UserPreferences).

Lemma generateMindMap_result w mm w' :
  generateMindMap env content p w = (inr mm, w') →
  nodes mm = mindMapNodes (extractConcepts content) ∧
  edges mm = mindMapEdges (extractConcepts content) ∧
  rootNodeId mm = "node_0".
Proof.
  unfold generateMindMap. intros H.
  repeat (apply bind_inr in H; destruct H as (? & ? & _ & H)).
  injection H as <- _. auto.
Qed.

Lemma generateAudioLesson_run text w :
  ∃ a w', generateAudioLesson env text p w = (inr a, w') ∧
    au_text a = text ∧
    duration a = TextValidator.ceil_div (length (JS.split_runs JS.is_space text)) 3 ∧
    segments a = createAudioSegments text (float_of_nat (duration a)).
Proof. eexists _, _. split; [reflexivity|]. simpl. auto. Qed.

Lemma generateQuiz_result w q w' :
  generateQuiz env content p w = (inr q, w') →
  ∃ response,
    questions q = parseQuizQuestions response (mapGradeToDifficulty (gradeLevel p)).
Proof.
  unfold generateQuiz. cbv zeta. intros H.
  apply bind_inr in H as (response & ? & _ & H).
  repeat (apply bind_inr in H; destruct H as (? & ? & _ & H)).
  injection H as <- _. exists response. reflexivity.
Qed.

Lemma generation_steps_result opts t w r w' :
  generation_steps env t content p opts w = (inr r, w') →
  success r = true ∧ ∃ mt, materials r = Some mt ∧ made_of content p mt.
Proof.
  unfold generation_steps. cbv zeta. intros H.
  repeat (apply bind_inr in H; destruct H as (? & ? & ? & H)).
  injection H as <- _. split; [reflexivity|]. eexists. split; [reflexivity|].
  unfold made_of. simpl.
  repeat match goal with
  | H : generateMindMap _ _ _ _ = (inr _, _) |- _ => apply generateMindMap_result in H
  | H : generateQuiz _ _ _ _ = (inr _, _) |- _ => apply generateQuiz_result in H
  | H : generateAudioLesson _ ?text _ ?w = (inr ?a, _) |- _ =>
      let Ha := fresh in
      destruct (generateAudioLesson_run text w) as (? & ? & Ha & ? & ? & ?);
      rewrite H in Ha; injection Ha as <- <-; clear H
  end.
  intuition.
Qed.

(** A successful run carries materials made as [made_of] says. *)
Lemma successful_run_materials opts w r w' :
  processContent env content p opts w = (inr r, w') → success r = true →
  ∃ mt, materials r = Some mt ∧ made_of content p mt.
Proof.
  intros H Hs. apply processContent_success in H; [|assumption].
  unfold pipeline in H.
  do 2 (apply bind_inr in H; destruct H as (? & ? & _ & H)).
  apply generation_steps_result in H. tauto.
Qed.

End Results.

(** ** The quiz *)

Lemma parseQuizQuestions_shape response d :
  length (parseQuizQuestions response d) = 3 ∧
  Forall (λ q, length (options q) = 4 ∧ countb isCorrect (options q) = 1 ∧
               q_difficulty q = d ∧ points q = basePoints d)
         (parseQuizQuestions response d).
Proof. split; [reflexivity|]. repeat constructor. Qed.

(** C4. The quiz of a successful run has exactly three questions; each has
    four options (so between three and four), exactly one of them marked
    correct; the difficulty and the points of every question are those of
    the grade, which depend on the complexity bucket of the grade alone:
    easy and 2 points for grade 2, medium and 3 for grade 7, hard and 4 for
    grade 11 and for undergraduates. *)
Theorem quiz_follows_the_grade env content p opts w r w' :
  processContent env content p opts w = (inr r, w') →
  success r = true →
  ∃ mt, materials r = Some mt ∧
    let d := mapGradeToDifficulty (gradeLevel p) in
    length (questions (quiz mt)) = 3 ∧
    Forall (λ q, 3 ≤ length (options q) ≤ 4 ∧ countb isCorrect (options q) = 1 ∧
                 q_difficulty q = d ∧ points q = basePoints d)
           (questions (quiz mt)) ∧
    (∀ g, complexity (GRADE_LEVEL_INFO g) = complexity (GRADE_LEVEL_INFO (gradeLevel p)) →
          mapGradeToDifficulty g = d) ∧
    (gradeLevel_value (gradeLevel p) = "2" → d = easy ∧ basePoints d = 2) ∧
    (gradeLevel_value (gradeLevel p) = "7" → d = medium ∧ basePoints d = 3) ∧
    (gradeLevel_value (gradeLevel p) = "11" → d = hard ∧ basePoints d = 4) ∧
    (gradeLevel_value (gradeLevel p) = "undergrad" → d = hard ∧ basePoints d = 4).
Proof.
  intros H Hs.
  destruct (successful_run_materials env content p opts w r w' H Hs)
    as (mt & Hm & _ & _ & _ & _ & _ & _ & response & Hq).
  exists mt. split; [assumption|]. cbv zeta. rewrite Hq.
  destruct (parseQuizQuestions_shape response (mapGradeToDifficulty (gradeLevel p)))
    as [Hlen Hall].
  split; [exact Hlen|]. split.
  { eapply Forall_impl; [exact Hall|]. intros q (-> & ? & ? & ?). repeat split; auto. }
  split.
  { intros g Hg. unfold mapGradeToDifficulty. rewrite Hg. reflexivity. }
  destruct (gradeLevel p); (split; [|split; [|split]]); intros [=]; split; reflexivity.
Qed.

Lemma quiz_follows_the_grade_witness :
  ∃ r w',
    processContent ok_env sample_text prefs7 default_options world0 = (inr r, w') ∧
    success r = true ∧
    ∃ mt, materials r = Some mt ∧
      let d := mapGradeToDifficulty (gradeLevel prefs7) in
      length (questions (quiz mt)) = 3 ∧
      Forall (λ q, 3 ≤ length (options q) ≤ 4 ∧ countb isCorrect (options q) = 1 ∧
                   q_difficulty q = d ∧ points q = basePoints d)
             (questions (quiz mt)) ∧
      (∀ g, complexity (GRADE_LEVEL_INFO g) = complexity (GRADE_LEVEL_INFO (gradeLevel prefs7)) →
            mapGradeToDifficulty g = d) ∧
      (gradeLevel_value (gradeLevel prefs7) = "2" → d = easy ∧ basePoints d = 2) ∧
      (gradeLevel_value (gradeLevel prefs7) = "7" → d = medium ∧ basePoints d = 3) ∧
      (gradeLevel_value (gradeLevel prefs7) = "11" → d = hard ∧ basePoints d = 4) ∧
      (gradeLevel_value (gradeLevel prefs7) = "undergrad" → d = hard ∧ basePoints d = 4).
Proof.
  eexists _, _. split; [vm_compute; reflexivity|]. split; [reflexivity|].
  eapply (quiz_follows_the_grade ok_env sample_text prefs7 default_options world0).
  - vm_compute. reflexivity.
  - reflexivity.
Defined.

(** ** The audio script *)



(** *** Doubles: what rounding leaves of small whole numbers *)

Section Doubles.

Local Open Scope Z_scope.


























End Doubles.







Example audio_example :
  ∀ a w', generateAudioLesson ok_env sample_adapted prefs7 world0 = (inr a, w') →
    duration a = 2 ∧
    map (λ s, (seg_text s, startTime s, endTime s)) (segments a) =
      [("Plants eat light", 0%float, 1%float); ("They drink water", 1%float, 2%float)].
Proof. intros a w' [= <- _]. vm_compute. split; reflexivity. Qed.

(** ** Concepts: the frequency table *)

Lemma bump_freq_of x wd freq :
  freq_of wd (bump x freq) = freq_of wd freq + (if String.eqb x wd then 1 else 0).
Proof.
  induction freq as [|[k n] rest IH]; simpl.
  - destruct (String.eqb x wd); reflexivity.
  - destruct (String.eqb_spec k x) as [->|Hkx]; simpl.
    + destruct (String.eqb x wd); lia.
    + destruct (String.eqb_spec k wd) as [->|Hkw]; [|exact IH].
      destruct (String.eqb_spec x wd); [congruence|lia].
Qed.

Lemma bump_keys x freq k :
  In k (map fst (bump x freq)) ↔ k = x ∨ In k (map fst freq).
Proof.
  induction freq as [|[k' n] rest IH]; simpl.
  - intuition.
  - destruct (String.eqb_spec k' x) as [->|Hkx]; simpl; [intuition|].
    rewrite IH. intuition.
Qed.

Lemma bump_well_formed x freq : well_formed freq → well_formed (bump x freq).
Proof.
  unfold well_formed. induction freq as [|[k n] rest IH]; simpl.
  - intros _. split; repeat constructor. intros H. inversion H.
  - intros [Hnd Hpos]. apply NoDup_cons in Hnd as [Hk Hnd].
    apply Forall_cons in Hpos as [Hn Hpos].
    destruct (String.eqb_spec k x) as [->|Hkx]; simpl.
    + split; [apply NoDup_cons; auto|]. constructor; [simpl in *; lia|assumption].
    + destruct (IH (conj Hnd Hpos)) as [Hnd' Hpos'].
      split; [|constructor; assumption].
      apply NoDup_cons. split; [|assumption].
      rewrite list_elem_of_In, bump_keys. rewrite list_elem_of_In in Hk. intuition.
Qed.

Lemma freq_of_positive wd freq :
  Forall (λ e, 0 < snd e) freq → (0 < freq_of wd freq ↔ In wd (map fst freq)).
Proof.
  induction freq as [|[k n] rest IH]; simpl; intros Hpos.
  - split; [lia|tauto].
  - apply Forall_cons in Hpos as [Hn Hpos]. simpl in Hn.
    destruct (String.eqb_spec k wd) as [->|Hkw].
    + split; auto.
    + rewrite (IH Hpos). intuition.
Qed.

Lemma freq_of_member wd n freq :
  well_formed freq → (In (wd, n) freq ↔ freq_of wd freq = n ∧ 0 < n).
Proof.
  intros [Hnd Hpos]. induction freq as [|[k m] rest IH]; simpl.
  - split; [tauto|lia].
  - simpl in Hnd. apply NoDup_cons in Hnd as [Hk Hnd].
    apply Forall_cons in Hpos as [Hm Hpos]. simpl in Hm.
    destruct (String.eqb_spec k wd) as [->|Hkw].
    + split.
      * intros [[= ->]|Hin]; [auto|].
        exfalso. apply Hk. rewrite list_elem_of_In. apply in_map_iff. exists (wd, n). auto.
      * intros [-> _]. auto.
    + rewrite <- (IH Hnd Hpos). split; [intros [[=]|?]; [congruence|assumption]|auto].
Qed.

Lemma countWord_freq_of wd freq token :
  freq_of wd (countWord freq token) =
  freq_of wd freq +
  (if is_candidate wd && String.eqb (cleanWord token) wd then 1 else 0).
Proof.
  unfold countWord. cbv zeta.
  destruct (is_candidate (cleanWord token)) eqn:Hc.
  - rewrite bump_freq_of.
    destruct (String.eqb_spec (cleanWord token) wd) as [<-|]; rewrite ?Hc, ?andb_false_r;
      reflexivity.
  - destruct (String.eqb_spec (cleanWord token) wd) as [<-|]; rewrite ?Hc, ?andb_false_r;
      simpl; lia.
Qed.

Lemma countWord_well_formed freq token :
  well_formed freq → well_formed (countWord freq token).
Proof.
  unfold countWord. cbv zeta. destruct (is_candidate _); [apply bump_well_formed|auto].
Qed.

Lemma fold_countWord tokens : ∀ freq wd,
  well_formed freq →
  well_formed (fold_left countWord tokens freq) ∧
  freq_of wd (fold_left countWord tokens freq) =
    freq_of wd freq + (if is_candidate wd then occurrences wd tokens else 0).
Proof.
  induction tokens as [|t ts IH]; intros freq wd Hwf; simpl.
  - split; [assumption|]. unfold occurrences, countb. simpl. destruct (is_candidate wd); lia.
  - destruct (IH (countWord freq t) wd (countWord_well_formed _ _ Hwf)) as [Hwf' Hf].
    split; [assumption|]. rewrite Hf, countWord_freq_of.
    unfold occurrences, countb. simpl.
    destruct (is_candidate wd); simpl; [|lia].
    destruct (String.eqb (cleanWord t) wd); simpl; lia.
Qed.

Lemma wordFreq_well_formed content : well_formed (wordFreq content).
Proof.
  unfold wordFreq. apply (fold_countWord _ [] EmptyString).
  split; constructor.
Qed.

(** The table has an entry for a word exactly when the word is a
    candidate that occurs among the cleaned tokens, and the entry counts
    its occurrences. *)
Lemma wordFreq_member content wd n :
  In (wd, n) (wordFreq content) ↔
  is_candidate wd = true ∧ n = occurrences wd (tokens_of content) ∧ 0 < n.
Proof.
  rewrite (freq_of_member _ _ _ (wordFreq_well_formed content)).
  unfold wordFreq. fold (tokens_of content).
  destruct (fold_countWord (tokens_of content) [] wd) as [_ ->]; [split; constructor|].
  simpl. destruct (is_candidate wd); split.
  - intros [<- ?]. auto.
  - intros (_ & -> & ?). auto.
  - intros [<- ?]. lia.
  - intros ([=] & _).
Qed.

(** ** Concepts: the ranking *)

Lemma insert_desc_perm x l : insert_desc x l ≡ₚ x :: l.
Proof.
  induction l as [|y rest IH]; simpl; [reflexivity|].
  destruct (snd x <? snd y); [|reflexivity].
  rewrite IH. apply perm_swap.
Qed.

Lemma sort_desc_perm l : sort_desc l ≡ₚ l.
Proof.
  induction l as [|x rest IH]; simpl; [reflexivity|].
  rewrite insert_desc_perm, IH. reflexivity.
Qed.

Lemma insert_desc_sorted x l :
  StronglySorted by_count l → StronglySorted by_count (insert_desc x l).
Proof.
  induction l as [|y rest IH]; simpl; intros Hs.
  - repeat constructor.
  - apply StronglySorted_inv in Hs as [Hrest Hy].
    destruct (Nat.ltb_spec (snd x) (snd y)).
    + constructor; [auto|].
      rewrite insert_desc_perm. constructor; [unfold by_count; lia|assumption].
    + constructor; [constructor; assumption|].
      constructor; [unfold by_count; lia|].
      eapply Forall_impl; [exact Hy|]. unfold by_count. intros z Hz. lia.
Qed.

Lemma sort_desc_sorted l : StronglySorted by_count (sort_desc l).
Proof.
  induction l as [|x rest IH]; simpl; [constructor|].
  apply insert_desc_sorted, IH.
Qed.

(** ** The concept map *)

Lemma node_name_inj i j : "node_" +:+ JS.of_nat i = "node_" +:+ JS.of_nat j → i = j.
Proof. simpl. intros [= H]. exact (pretty_nat_inj _ _ H). Qed.

Lemma mindMapNodes_lookup cs i n :
  mindMapNodes cs !! i = Some n →
  ∃ c, cs !! i = Some c ∧ node_id n = "node_" +:+ JS.of_nat i ∧ label n = c ∧
       importance n = (if i =? 0 then 10 else Nat.max 5 (10 - i)).
Proof.
  unfold mindMapNodes. rewrite list_lookup_imap.
  destruct (cs !! i) as [c|]; [|discriminate]. intros [= <-]. exists c. auto.
Qed.

Lemma mindMapNodes_lookup_Some cs i c :
  cs !! i = Some c → ∃ n, mindMapNodes cs !! i = Some n.
Proof. intros H. unfold mindMapNodes. rewrite list_lookup_imap, H. simpl. eauto. Qed.

Lemma mindMapEdges_lookup cs j e :
  mindMapEdges cs !! j = Some e →
  S j < length cs ∧ sourceId e = "node_0" ∧ targetId e = "node_" +:+ JS.of_nat (j + 1) ∧
  edge_type e = hierarchical.
Proof.
  unfold mindMapEdges. rewrite list_lookup_imap. intros H.
  destruct (drop 1 cs !! j) as [c|] eqn:Hd; [|discriminate].
  injection H as <-. rewrite lookup_drop in Hd. apply lookup_lt_Some in Hd.
  simpl. repeat split; lia.
Qed.

Lemma mindMapEdges_lookup_Some cs j :
  S j < length cs → ∃ e, mindMapEdges cs !! j = Some e.
Proof.
  intros H. unfold mindMapEdges. rewrite list_lookup_imap, lookup_drop.
  destruct (lookup_lt_is_Some_2 cs (1 + j)) as [c ->]; [lia|]. simpl. eauto.
Qed.

Lemma mindMapNodes_length cs : length (mindMapNodes cs) = length cs.
Proof. apply length_imap. Qed.

Lemma mindMapEdges_length cs : length (mindMapEdges cs) = length cs - 1.
Proof. unfold mindMapEdges. rewrite length_imap, length_drop. reflexivity. Qed.

Lemma map_fmap {A B} (f : A → B) (l : list A) : map f l = f <$> l.
Proof. induction l as [|x l IH]; simpl; [reflexivity|]. rewrite IH. reflexivity. Qed.

Lemma map_label_mindMapNodes cs : map label (mindMapNodes cs) = cs.
Proof.
  rewrite map_fmap. apply list_eq. intros i.
  rewrite list_lookup_fmap. unfold mindMapNodes. rewrite list_lookup_imap.
  destruct (cs !! i); reflexivity.
Qed.

Lemma In_lookup {A} (x : A) l : In x l → ∃ i, l !! i = Some x.
Proof. intros H. apply list_elem_of_lookup, list_elem_of_In. exact H. Qed.

Lemma filter_nothing {A} (pb : A → bool) l :
  (∀ y, In y l → pb y = false) → List.filter pb l = [].
Proof.
  induction l as [|x l IH]; simpl; intros H; [reflexivity|].
  rewrite (H x) by auto. apply IH. auto.
Qed.

Lemma filter_single {A} (pb : A → bool) l : ∀ j x,
  l !! j = Some x → pb x = true →
  (∀ j' y, l !! j' = Some y → pb y = true → j' = j) →
  List.filter pb l = [x].
Proof.
  induction l as [|z l IH]; intros j x Hj Hx Huniq; [discriminate|].
  destruct j as [|j]; simpl in *.
  - injection Hj as ->. rewrite Hx. f_equal. apply filter_nothing.
    intros y Hy. destruct (pb y) eqn:Hpy; [|reflexivity].
    apply In_lookup in Hy as [j' Hj'].
    specialize (Huniq (S j') y Hj' Hpy). discriminate.
  - destruct (pb z) eqn:Hz.
    + specialize (Huniq 0 z eq_refl Hz). discriminate.
    + apply (IH j); auto. intros j' y Hj' Hy.
      specialize (Huniq (S j') y Hj' Hy). lia.
Qed.

Lemma importance_sorted cs : StronglySorted ge (map importance (mindMapNodes cs)).
Proof.
  assert (H : ∀ l, (∀ i j x y, i < j → l !! i = Some x → l !! j = Some y → x ≥ y) →
              StronglySorted ge l).
  { induction l as [|x l IH]; intros H; constructor.
    - apply IH. intros i j a b Hij Ha Hb. apply (H (S i) (S j)); auto. lia.
    - apply Forall_forall. intros y Hy.
      apply list_elem_of_lookup in Hy as [j Hj].
      apply (H 0 (S j)); auto. lia. }
  apply H. intros i j x y Hij. rewrite map_fmap, !list_lookup_fmap.
  destruct (mindMapNodes cs !! i) as [n|] eqn:Hn; [|discriminate].
  destruct (mindMapNodes cs !! j) as [m|] eqn:Hm; [|discriminate].
  apply mindMapNodes_lookup in Hn as (_ & _ & _ & _ & Hi).
  apply mindMapNodes_lookup in Hm as (_ & _ & _ & _ & Hj).
  intros [= <-] [= <-]. rewrite Hi, Hj.
  destruct (Nat.eqb_spec i 0), (Nat.eqb_spec j 0); lia.
Qed.

(** The shape of the map built from a list of concepts that is not empty:
    node 0 is the only node without an incoming edge, every other node has
    exactly one, which comes from node 0, and no two nodes share an id. *)
Lemma star_of_concepts mm c cs :
  nodes mm = mindMapNodes (c :: cs) → edges mm = mindMapEdges (c :: cs) →
  ∃ root, nodes mm !! 0 = Some root ∧ node_id root = "node_0" ∧ label root = c ∧
    roots mm = [root] ∧
    (∀ n, In n (nodes mm) → node_id n ≠ node_id root →
       ∃ e, incoming mm (node_id n) = [e] ∧ sourceId e = node_id root) ∧
    NoDup (map node_id (nodes mm)) ∧
    length (nodes mm) = S (length (edges mm)).
Proof.
  intros Hn He.
  destruct (mindMapNodes_lookup_Some (c :: cs) 0 c eq_refl) as [root Hroot].
  pose proof (mindMapNodes_lookup _ _ _ Hroot) as (c0 & [= <-] & Hid & Hlab & _).
  change ("node_" +:+ JS.of_nat 0) with "node_0" in Hid.
  assert (Hin0 : incoming mm "node_0" = []).
  { unfold incoming. apply filter_nothing. intros e Hin.
    apply In_lookup in Hin as [j Hj]. rewrite He in Hj.
    apply mindMapEdges_lookup in Hj as (_ & _ & -> & _).
    apply String.eqb_neq. intros H. apply (node_name_inj (j + 1) 0) in H. lia. }
  assert (Hin : ∀ i n, nodes mm !! i = Some n → i ≠ 0 →
            ∃ e, incoming mm (node_id n) = [e] ∧ sourceId e = "node_0").
  { intros i n Hi Hne. rewrite Hn in Hi.
    pose proof (lookup_lt_Some _ _ _ Hi) as Hlt. rewrite mindMapNodes_length in Hlt.
    apply mindMapNodes_lookup in Hi as (_ & _ & -> & _).
    destruct (mindMapEdges_lookup_Some (c :: cs) (i - 1)) as [e Hj]; [simpl in *; lia|].
    pose proof (mindMapEdges_lookup _ _ _ Hj) as (_ & Hsrc & Htgt & _).
    exists e. split; [|assumption]. unfold incoming. rewrite He.
    apply (filter_single _ _ (i - 1)); [assumption| |].
    - rewrite Htgt. replace (i - 1 + 1) with i by lia. apply String.eqb_refl.
    - intros j' e' Hj' Heq. apply mindMapEdges_lookup in Hj' as (_ & _ & Htgt' & _).
      rewrite Htgt' in Heq. apply String.eqb_eq, node_name_inj in Heq. lia. }
  exists root. rewrite Hn at 1. split; [assumption|]. split; [assumption|].
  split; [assumption|]. split; [|split; [|split]].
  - unfold roots. apply (filter_single _ _ 0).
    + rewrite Hn. assumption.
    + cbv beta. rewrite Hid, Hin0. reflexivity.
    + intros j' n Hj' Hroots. destruct j' as [|j']; [reflexivity|].
      destruct (Hin (S j') n Hj') as (e & Hinc & _); [lia|].
      cbv beta in Hroots. rewrite Hinc in Hroots. discriminate.
  - intros n Hmem Hne.
    apply In_lookup in Hmem as [i Hi].
    destruct (Nat.eq_dec i 0) as [->|Hi0].
    + rewrite Hn, Hroot in Hi. injection Hi as <-. contradiction.
    + rewrite Hid. apply (Hin i); assumption.
  - rewrite map_fmap. apply NoDup_alt. intros i j id Hi Hj.
    rewrite list_lookup_fmap in Hi, Hj. rewrite Hn in Hi, Hj.
    destruct (mindMapNodes (c :: cs) !! i) as [n|] eqn:Hni; [|discriminate].
    destruct (mindMapNodes (c :: cs) !! j) as [m|] eqn:Hmj; [|discriminate].
    apply mindMapNodes_lookup in Hni as (_ & _ & Hidn & _).
    apply mindMapNodes_lookup in Hmj as (_ & _ & Hidm & _).
    simpl in Hi, Hj. apply node_name_inj. congruence.
  - rewrite Hn, He, mindMapNodes_length, mindMapEdges_length. simpl. lia.
Qed.

(** C6, as the code has it.  When the content has at least one concept,
    the map of a successful run is a tree of depth one: its root, the node
    named by [rootNodeId], is the only node without an incoming edge; every
    other node has exactly one incoming edge, which leaves the root; the
    ids of the nodes are pairwise distinct and there is one edge less than
    there are nodes. *)
Theorem concept_map_is_a_tree env content p opts w r w' :
  processContent env content p opts w = (inr r, w') →
  success r = true →
  extractConcepts content ≠ [] →
  ∃ mt root, materials r = Some mt ∧
    let mm := mindMap mt in
    roots mm = [root] ∧ node_id root = rootNodeId mm ∧
    (∀ n, In n (nodes mm) → node_id n ≠ node_id root →
       ∃ e, incoming mm (node_id n) = [e] ∧ sourceId e = node_id root) ∧
    NoDup (map node_id (nodes mm)) ∧
    length (nodes mm) = S (length (edges mm)).
Proof.
  intros H Hs Hne.
  destruct (successful_run_materials env content p opts w r w' H Hs)
    as (mt & Hm & Hn & He & Hr & _).
  destruct (extractConcepts content) as [|c cs] eqn:Hcs; [contradiction|].
  destruct (star_of_concepts (mindMap mt) c cs Hn He)
    as (root & _ & Hid & _ & Hroots & Hin & Hnd & Hlen).
  exists mt, root. split; [assumption|]. cbv zeta. rewrite Hr.
  repeat split; assumption.
Qed.

Lemma concept_map_is_a_tree_witness :
  ∃ r w',
    processContent ok_env sample_text prefs7 default_options world0 = (inr r, w') ∧
    success r = true ∧ extractConcepts sample_text ≠ [] ∧
    ∃ mt root, materials r = Some mt ∧
      let mm := mindMap mt in
      roots mm = [root] ∧ node_id root = rootNodeId mm ∧
      (∀ n, In n (nodes mm) → node_id n ≠ node_id root →
         ∃ e, incoming mm (node_id n) = [e] ∧ sourceId e = node_id root) ∧
      NoDup (map node_id (nodes mm)) ∧
      length (nodes mm) = S (length (edges mm)).
Proof.
  eexists _, _. split; [vm_compute; reflexivity|]. split; [reflexivity|].
  split; [vm_compute; discriminate|].
  eapply (concept_map_is_a_tree ok_env sample_text prefs7 default_options world0).
  - vm_compute. reflexivity.
  - reflexivity.
  - vm_compute. discriminate.
Defined.

(** C6 as stated fails: a content of short words passes the validator and
    is adapted to a text that is not empty, yet the map of the run has no
    node at all, so no node without an incoming edge, and [rootNodeId]
    names a node that does not exist. *)
Lemma concept_map_without_root :
  ∃ r w' mt,
    processContent echo_env short_words_text prefs7 default_options world0 = (inr r, w') ∧
    success r = true ∧ materials r = Some mt ∧
    ad_text (adaptedContent mt) = short_words_text ∧
    ad_text (adaptedContent mt) ≠ EmptyString ∧
    nodes (mindMap mt) = [] ∧ rootNodeId (mindMap mt) = "node_0" ∧
    ¬ (∃ root, roots (mindMap mt) = [root]).
Proof.
  eexists _, _, _. split; [vm_compute; reflexivity|]. simpl.
  repeat split; try reflexivity; try discriminate.
  intros [root Hroot]. vm_compute in Hroot. discriminate.
Qed.

(** C3, as the code has it.  The map of a successful run is computed from
    the content given to the run (not from the adapted text).  The
    candidates are the tokens of the lower-cased content with the non-word
    characters removed, longer than three characters and outside the stop
    words; each is counted, the table is ranked by decreasing count, and the
    first eight, capitalised, label the nodes in this order.  Every edge is
    hierarchical and runs from the node named by [rootNodeId] to one of the
    later nodes, the first node carries that id and no edge ends in it, and
    the importance never increases along the nodes. *)
Theorem concept_map_is_ranked_from_content env content p opts w r w' :
  processContent env content p opts w = (inr r, w') →
  success r = true →
  ∃ mt, materials r = Some mt ∧
    let mm := mindMap mt in
    let ranked := sort_desc (wordFreq content) in
    ranked ≡ₚ wordFreq content ∧
    StronglySorted by_count ranked ∧
    NoDup (map fst ranked) ∧
    (∀ wd n, In (wd, n) ranked ↔
       is_candidate wd = true ∧ n = occurrences wd (tokens_of content) ∧ 0 < n) ∧
    map label (nodes mm) = map (λ e, capitalize e.1) (take 8 ranked) ∧
    length (nodes mm) ≤ 8 ∧
    StronglySorted ge (map importance (nodes mm)) ∧
    length (edges mm) = length (nodes mm) - 1 ∧
    (∀ j e, edges mm !! j = Some e →
       sourceId e = rootNodeId mm ∧ edge_type e = hierarchical ∧
       ∃ n, nodes mm !! S j = Some n ∧ targetId e = node_id n) ∧
    (∀ root, nodes mm !! 0 = Some root →
       node_id root = rootNodeId mm ∧ importance root = 10 ∧
       ∀ e, In e (edges mm) → targetId e ≠ node_id root).
Proof.
  intros H Hs.
  destruct (successful_run_materials env content p opts w r w' H Hs)
    as (mt & Hm & Hn & He & Hr & _).
  exists mt. split; [assumption|]. cbv zeta. rewrite Hn, He, Hr.
  pose proof (sort_desc_perm (wordFreq content)) as Hperm.
  split; [exact Hperm|]. split; [apply sort_desc_sorted|].
  split.
  { rewrite map_fmap, Hperm, <- map_fmap. apply wordFreq_well_formed. }
  split.
  { intros wd n. rewrite <- wordFreq_member. rewrite <- !list_elem_of_In.
    rewrite Hperm. reflexivity. }
  split; [apply map_label_mindMapNodes|].
  split.
  { rewrite mindMapNodes_length. unfold extractConcepts.
    rewrite length_map, length_take. lia. }
  split; [apply importance_sorted|].
  split; [rewrite mindMapNodes_length; apply mindMapEdges_length|].
  split.
  - intros j e Hj. pose proof (mindMapEdges_lookup _ _ _ Hj) as (Hlt & Hsrc & Htgt & Hty).
    split; [assumption|]. split; [assumption|].
    destruct (lookup_lt_is_Some_2 (extractConcepts content) (S j) Hlt) as [c Hc].
    destruct (mindMapNodes_lookup_Some _ _ _ Hc) as [n Hnn].
    exists n. split; [assumption|].
    apply mindMapNodes_lookup in Hnn as (_ & _ & -> & _).
    rewrite Htgt, Nat.add_1_r. reflexivity.
  - intros root Hroot. apply mindMapNodes_lookup in Hroot as (_ & _ & Hid & _ & Himp).
    change ("node_" +:+ JS.of_nat 0) with "node_0" in Hid.
    split; [assumption|]. split; [assumption|].
    intros e Hin. apply In_lookup in Hin as [j Hj].
    apply mindMapEdges_lookup in Hj as (_ & _ & -> & _). rewrite Hid.
    intros Heq. apply (node_name_inj (j + 1) 0) in Heq. lia.
Qed.

Lemma concept_map_is_ranked_from_content_witness :
  ∃ r w',
    processContent ok_env sample_text prefs7 default_options world0 = (inr r, w') ∧
    success r = true ∧
    ∃ mt, materials r = Some mt ∧
      let mm := mindMap mt in
      let ranked := sort_desc (wordFreq sample_text) in
      ranked ≡ₚ wordFreq sample_text ∧
      StronglySorted by_count ranked ∧
      NoDup (map fst ranked) ∧
      (∀ wd n, In (wd, n) ranked ↔
         is_candidate wd = true ∧ n = occurrences wd (tokens_of sample_text) ∧ 0 < n) ∧
      map label (nodes mm) = map (λ e, capitalize e.1) (take 8 ranked) ∧
      length (nodes mm) ≤ 8 ∧
      StronglySorted ge (map importance (nodes mm)) ∧
      length (edges mm) = length (nodes mm) - 1 ∧
      (∀ j e, edges mm !! j = Some e →
         sourceId e = rootNodeId mm ∧ edge_type e = hierarchical ∧
         ∃ n, nodes mm !! S j = Some n ∧ targetId e = node_id n) ∧
      (∀ root, nodes mm !! 0 = Some root →
         node_id root = rootNodeId mm ∧ importance root = 10 ∧
         ∀ e, In e (edges mm) → targetId e ≠ node_id root).
Proof.
  eexists _, _. split; [vm_compute; reflexivity|]. split; [reflexivity|].
  eapply (concept_map_is_ranked_from_content ok_env sample_text prefs7 default_options world0).
  - vm_compute. reflexivity.
  - reflexivity.
Defined.

(** C3 as stated fails: the labels of the map are the concepts of the
    content, and differ from the concepts of the adapted text; one of them
    is a word that the adapted text does not contain at all. *)
Lemma concept_map_ignores_adapted_text :
  ∃ r w' mt,
    processContent ok_env sample_text prefs7 default_options world0 = (inr r, w') ∧
    success r = true ∧ materials r = Some mt ∧
    ad_text (adaptedContent mt) = sample_adapted ∧
    extractConcepts (ad_text (adaptedContent mt)) =
      ["Plants"; "Light"; "They"; "Drink"; "Water"] ∧
    map label (nodes (mindMap mt)) =
      ["Plants"; "Make"; "Food"; "From"; "Sunlight"; "Leaves"; "Take"; "Light"] ∧
    map label (nodes (mindMap mt)) ≠ extractConcepts (ad_text (adaptedContent mt)) ∧
    In "Sunlight" (map label (nodes (mindMap mt))) ∧
    JS.includes "sunlight" (JS.toLowerCase (ad_text (adaptedContent mt))) = false.
Proof.
  eexists _, _, _. split; [vm_compute; reflexivity|]. simpl.
  split; [reflexivity|]. split; [reflexivity|]. split; [reflexivity|].
  split; [vm_compute; reflexivity|]. split; [vm_compute; reflexivity|].
  split; [vm_compute; discriminate|].
  split; [vm_compute; tauto|]. vm_compute. reflexivity.
Qed.

(** ** The validator: what it accepts and what it rejects *)

Lemma drop_while_end_nil p s :
  JS.drop_while_end p s = EmptyString ↔ JS.forall_char p s = true.
Proof.
  induction s as [|c t IH]; simpl; [tauto|].
  destruct (JS.drop_while_end p t) eqn:Ht.
  - destruct (p c); simpl.
    + rewrite <- IH. tauto.
    + split; discriminate.
  - split; [discriminate|]. intros H. apply andb_true_iff in H as [_ H].
    apply IH in H. discriminate.
Qed.

Lemma drop_while_head p s :
  match JS.drop_while p s with
  | EmptyString => JS.forall_char p s = true
  | String c _ => p c = false
  end.
Proof.
  induction s as [|c t IH]; simpl; [reflexivity|].
  destruct (p c) eqn:Hc; simpl; [|exact Hc].
  destruct (JS.drop_while p t); assumption.
Qed.

(** A text trims to nothing exactly when it is made of white space. *)
Lemma trim_empty s : JS.trim s = EmptyString ↔ JS.forall_char JS.is_space s = true.
Proof.
  unfold JS.trim. rewrite drop_while_end_nil.
  pose proof (drop_while_head JS.is_space s) as H.
  destruct (JS.drop_while JS.is_space s) as [|c t] eqn:Hd; simpl.
  - tauto.
  - rewrite H. simpl. split; [discriminate|]. intros Hall.
    assert (Hnil : JS.drop_while JS.is_space s = EmptyString).
    { clear -Hall. induction s as [|a s IH]; simpl in *; [reflexivity|].
      apply andb_true_iff in Hall as [-> Hall]. auto. }
    congruence.
Qed.

Lemma space_is_not_alnum c : JS.is_space c = true → JS.is_alnum c = false.
Proof.
  unfold JS.is_space, JS.is_alnum, JS.is_lower, JS.is_upper, JS.is_digit.
  generalize (JS.code c). intros n H.
  repeat match goal with
  | |- context [?a <=? ?b] => destruct (Nat.leb_spec a b)
  | H : context [?a <=? ?b] |- _ => destruct (Nat.leb_spec a b)
  | H : context [?a =? ?b] |- _ => destruct (Nat.eqb_spec a b)
  end; simpl in *; try reflexivity; try discriminate; lia.
Qed.

Lemma blank_has_no_alnum s :
  JS.forall_char JS.is_space s = true → JS.exists_char JS.is_alnum s = false.
Proof.
  induction s as [|c t IH]; simpl; [reflexivity|].
  intros H. apply andb_true_iff in H as [Hc Ht].
  rewrite (space_is_not_alnum c Hc), (IH Ht). reflexivity.
Qed.

(** X1. A content that is empty or made of white space is rejected in
    every state of the validator, with the same four errors: too few
    characters and too few words (both counted as 0, whatever the length of
    the content), no alphanumeric character, and a forbidden pattern.  The
    state of the validator is left as it was. *)
Theorem blank_content_is_rejected content st :
  JS.trim content = EmptyString →
  TextValidator.validate content st =
  ({| isValid := false;
      errors := ["Content must be at least 50 characters long (currently 0)";
                 "Content must contain at least 10 words (currently 0)";
                 "Content must contain alphanumeric characters";
                 "Content contains forbidden patterns or potentially unsafe elements"];
      wordCount := 0; characterCount := 0; estimatedReadingTime := 0 |}, st).
Proof.
  intros Ht. pose proof (proj1 (trim_empty content) Ht) as Hall.
  unfold TextValidator.validate, TextValidator.getTextStatistics,
    TextValidator.validateQuality, TextValidator.validateSecurity, Regex.only_whitespace.
  rewrite Ht, Hall, (blank_has_no_alnum content Hall). reflexivity.
Qed.

Lemma blank_content_is_rejected_witness :
  JS.trim "   " = EmptyString ∧
  TextValidator.validate "   " validator_init =
  ({| isValid := false;
      errors := ["Content must be at least 50 characters long (currently 0)";
                 "Content must contain at least 10 words (currently 0)";
                 "Content must contain alphanumeric characters";
                 "Content contains forbidden patterns or potentially unsafe elements"];
      wordCount := 0; characterCount := 0; estimatedReadingTime := 0 |}, validator_init).
Proof.
  split; [reflexivity|].
  apply (blank_content_is_rejected "   " validator_init). reflexivity.
Defined.

Lemma test_global_false exec subject i :
  (Regex.test_global exec subject i).1 = false → (Regex.test_global exec subject i).2 = 0.
Proof.
  unfold Regex.test_global. destruct (_ <? _); [reflexivity|].
  destruct (exec subject i); [discriminate|reflexivity].
Qed.

Lemma validateSecurity_clean content st :
  (TextValidator.validateSecurity content st).1 = [] →
  Regex.only_whitespace content = false ∧
  (TextValidator.validateSecurity content st).2 = validator_init.
Proof.
  unfold TextValidator.validateSecurity.
  destruct (Regex.only_whitespace content); [discriminate|].
  pose proof (test_global_false Regex.script_tag content (scriptLastIndex st)) as H1.
  destruct (Regex.test_global Regex.script_tag content (scriptLastIndex st)) as [m1 i1].
  destruct m1; [discriminate|].
  pose proof (test_global_false Regex.iframe_tag content (iframeLastIndex st)) as H2.
  destruct (Regex.test_global Regex.iframe_tag content (iframeLastIndex st)) as [m2 i2].
  destruct m2; [discriminate|]. simpl in *. intros _.
  rewrite (H1 eq_refl), (H2 eq_refl). split; reflexivity.
Qed.

Lemma drop_while_end_fix p s :
  JS.drop_while_end p (JS.drop_while_end p s) = JS.drop_while_end p s.
Proof.
  induction s as [|a s IH]; simpl; [reflexivity|].
  destruct (JS.drop_while_end p s) eqn:Hs; simpl.
  - destruct (p a) eqn:Ha; simpl; rewrite ?Ha; reflexivity.
  - simpl in IH. rewrite IH. reflexivity.
Qed.

Lemma drop_while_end_head p c t :
  p c = false →
  ∃ t', JS.drop_while_end p (String c t) = String c t'.
Proof.
  intros Hc. simpl. destruct (JS.drop_while_end p t); rewrite ?Hc; eauto.
Qed.

(** Trimming twice is trimming once. *)
Lemma trim_idem s : JS.trim (JS.trim s) = JS.trim s.
Proof.
  unfold JS.trim.
  pose proof (drop_while_head JS.is_space s) as Hh.
  destruct (JS.drop_while JS.is_space s) as [|c t]; [reflexivity|].
  destruct (drop_while_end_head JS.is_space c t Hh) as [t' Ht'].
  rewrite Ht' at 1. simpl JS.drop_while. rewrite Hh, <- Ht'.
  apply drop_while_end_fix.
Qed.

Lemma validateLength_nil stats :
  TextValidator.validateLength stats = [] →
  minCharacters DEFAULT_CONTENT_LIMITS ≤ characters stats ≤ maxCharacters DEFAULT_CONTENT_LIMITS ∧
  minWords DEFAULT_CONTENT_LIMITS ≤ words stats ≤ maxWords DEFAULT_CONTENT_LIMITS.
Proof.
  unfold TextValidator.validateLength, TextValidator.limits.
  destruct (Nat.ltb_spec (characters stats) (minCharacters DEFAULT_CONTENT_LIMITS));
    [discriminate|].
  destruct (Nat.ltb_spec (maxCharacters DEFAULT_CONTENT_LIMITS) (characters stats));
    [discriminate|].
  destruct (Nat.ltb_spec (words stats) (minWords DEFAULT_CONTENT_LIMITS));
    [discriminate|].
  destruct (Nat.ltb_spec (maxWords DEFAULT_CONTENT_LIMITS) (words stats));
    [discriminate|].
  intros _. lia.
Qed.

Lemma getTextStatistics_nonblank content :
  JS.trim content ≠ EmptyString →
  characters (TextValidator.getTextStatistics content) = String.length content ∧
  words (TextValidator.getTextStatistics content) = TextValidator.countWords content.
Proof.
  intros Hnb. unfold TextValidator.getTextStatistics.
  destruct (String.eqb_spec (JS.trim content) EmptyString) as [|_]; [contradiction|].
  cbv zeta. cbn [characters words]. split; [reflexivity|].
  unfold TextValidator.countWords. rewrite !trim_idem. reflexivity.
Qed.

(** X2. What an accepted content is sure to satisfy, in whatever state the
    validator was: its length lies between the character limits (50 and
    50,000), its word count between the word limits (10 and 10,000), it has
    an alphanumeric character and is not blank; the result has no error and
    reports the length of the content; and both forbidden patterns are back
    at their initial position. *)
Theorem accepted_content_is_within_limits content st :
  isValid (TextValidator.validate content st).1 = true →
  let v := (TextValidator.validate content st).1 in
  let lim := DEFAULT_CONTENT_LIMITS in
  errors v = [] ∧
  characterCount v = String.length content ∧
  minCharacters lim ≤ String.length content ≤ maxCharacters lim ∧
  minWords lim ≤ wordCount v ≤ maxWords lim ∧
  wordCount v = TextValidator.countWords content ∧
  JS.exists_char JS.is_alnum content = true ∧
  JS.trim content ≠ EmptyString ∧
  (TextValidator.validate content st).2 = validator_init.
Proof.
  unfold TextValidator.validate.
  pose proof (validateSecurity_clean content st) as Hsec.
  destruct (TextValidator.validateSecurity content st) as [sec st'].
  cbn [fst snd isValid errors wordCount characterCount] in *. intros Hvalid.
  apply Nat.eqb_eq, length_zero_iff_nil in Hvalid.
  apply app_eq_nil in Hvalid as [Hlen Hrest].
  apply app_eq_nil in Hrest as [Hq Hs]. subst sec.
  destruct (Hsec eq_refl) as [Hws ->]. clear Hsec.
  assert (Hnb : JS.trim content ≠ EmptyString).
  { intros Ht. apply trim_empty in Ht. unfold Regex.only_whitespace in Hws. congruence. }
  destruct (getTextStatistics_nonblank content Hnb) as [Hc Hw].
  destruct (validateLength_nil _ Hlen) as [Hcl Hwl].
  rewrite Hc in Hcl. rewrite Hlen, Hq.
  unfold TextValidator.validateQuality in Hq.
  destruct (JS.exists_char JS.is_alnum content); [|discriminate].
  split; [reflexivity|]. split; [exact Hc|]. split; [exact Hcl|].
  split; [exact Hwl|]. split; [exact Hw|]. split; [reflexivity|].
  split; [exact Hnb|reflexivity].
Qed.

Lemma accepted_content_is_within_limits_witness :
  isValid (TextValidator.validate sample_text validator_init).1 = true ∧
  let v := (TextValidator.validate sample_text validator_init).1 in
  let lim := DEFAULT_CONTENT_LIMITS in
  errors v = [] ∧
  characterCount v = String.length sample_text ∧
  minCharacters lim ≤ String.length sample_text ≤ maxCharacters lim ∧
  minWords lim ≤ wordCount v ≤ maxWords lim ∧
  wordCount v = TextValidator.countWords sample_text ∧
  JS.exists_char JS.is_alnum sample_text = true ∧
  JS.trim sample_text ≠ EmptyString ∧
  (TextValidator.validate sample_text validator_init).2 = validator_init.
Proof.
  split; [vm_compute; reflexivity|].
  apply (accepted_content_is_within_limits sample_text validator_init).
  vm_compute. reflexivity.
Defined.

Lemma eq_ci_lt c : Regex.eq_ci "<" c = true → c = "<"%char.
Proof.
  destruct c as [[] [] [] [] [] [] [] []]; vm_compute; intros H;
    first [reflexivity | discriminate].
Qed.

Lemma tag_match_here_needs_lt opening closing s a t :
  opening = String "<" a →
  Regex.tag_match_here opening closing s = Some t →
  ∃ s', s = String "<" s'.
Proof.
  intros -> H. unfold Regex.tag_match_here in H.
  destruct s as [|c s']; simpl in H; [discriminate|].
  destruct (Regex.eq_ci "<" c) eqn:Hc; simpl in H; [|discriminate].
  apply eq_ci_lt in Hc. subst c. eauto.
Qed.

Lemma tag_exec_go_without_lt opening closing a s pos from :
  opening = String "<" a →
  JS.exists_char (Ascii.eqb "<") s = false →
  Regex.tag_exec_go opening closing s pos from = None.
Proof.
  intros Ho. revert pos. induction s as [|c s IH]; intros pos Hs; simpl.
  - destruct (from <=? pos); [|reflexivity].
    destruct (Regex.tag_match_here opening closing EmptyString) eqn:Hm; [|reflexivity].
    destruct (tag_match_here_needs_lt _ _ _ _ _ Ho Hm) as [? [=]].
  - simpl in Hs. apply orb_false_iff in Hs as [Hc Hs].
    assert (Hm : Regex.tag_match_here opening closing (String c s) = None).
    { destruct (Regex.tag_match_here opening closing (String c s)) eqn:Hm; [|reflexivity].
      destruct (tag_match_here_needs_lt _ _ _ _ _ Ho Hm) as [? [= -> _]].
      discriminate. }
    rewrite Hm. destruct (from <=? pos); apply IH; assumption.
Qed.

Lemma test_global_without_lt opening closing a subject i :
  opening = String "<" a →
  JS.exists_char (Ascii.eqb "<") subject = false →
  Regex.test_global (Regex.tag_exec opening closing) subject i = (false, 0).
Proof.
  intros Ho Hs. unfold Regex.test_global, Regex.tag_exec.
  rewrite (tag_exec_go_without_lt _ _ _ _ _ _ Ho Hs).
  destruct (_ <? _); reflexivity.
Qed.

(** X3. A content without the character [<] is judged alike in every
    state of the validator: the two stateful patterns cannot match it,
    whatever position an earlier call left them at.  Unless the content is
    blank, the call puts both patterns back at their initial position. *)
Theorem tag_free_content_ignores_the_state content st st' :
  JS.exists_char (Ascii.eqb "<") content = false →
  (TextValidator.validate content st).1 = (TextValidator.validate content st').1 ∧
  (JS.trim content ≠ EmptyString →
   (TextValidator.validate content st).2 = validator_init).
Proof.
  intros Hlt.
  assert (Hsec : ∀ s, TextValidator.validateSecurity content s =
    if Regex.only_whitespace content
    then (["Content contains forbidden patterns or potentially unsafe elements"], s)
    else ([], validator_init)).
  { intros s. unfold TextValidator.validateSecurity, Regex.script_tag, Regex.iframe_tag.
    rewrite !(test_global_without_lt _ _ _ _ _ eq_refl Hlt).
    destruct (Regex.only_whitespace content); reflexivity. }
  unfold TextValidator.validate. rewrite !Hsec.
  destruct (Regex.only_whitespace content) eqn:Hws; cbn [fst snd].
  - split; [reflexivity|]. intros Hnb. exfalso. apply Hnb, trim_empty. exact Hws.
  - split; reflexivity.
Qed.

Lemma tag_free_content_ignores_the_state_witness :
  JS.exists_char (Ascii.eqb "<") sample_text = false ∧
  (TextValidator.validate sample_text {| scriptLastIndex := 64; iframeLastIndex := 7 |}).1 =
    (TextValidator.validate sample_text validator_init).1 ∧
  (JS.trim sample_text ≠ EmptyString →
   (TextValidator.validate sample_text {| scriptLastIndex := 64; iframeLastIndex := 7 |}).2 =
     validator_init).
Proof.
  split; [vm_compute; reflexivity|].
  apply (tag_free_content_ignores_the_state sample_text
           {| scriptLastIndex := 64; iframeLastIndex := 7 |} validator_init).
  vm_compute. reflexivity.
Defined.

Lemma alnum_is_not_blank s :
  JS.exists_char JS.is_alnum s = true → Regex.only_whitespace s = false.
Proof.
  intros H. unfold Regex.only_whitespace.
  destruct (JS.forall_char JS.is_space s) eqn:Hall; [|reflexivity].
  rewrite (blank_has_no_alnum s Hall) in H. discriminate.
Qed.

(** X4. The script pattern keeps its position from one call to the next,
    so a rejection can hide a later script.  Take the state that the
    validator is left in by any first content, validated from the initial
    state.  A second content that is shorter than the position of the script
    pattern in that state, passes the length and quality checks and has no
    iframe block is then accepted, whether or not it holds a script block:
    the search for the script pattern starts beyond its end, fails and only
    resets the position. *)
Theorem script_check_is_skipped_after_a_rejection c1 c2 :
  let st1 := (TextValidator.validate c1 validator_init).2 in
  String.length c2 < scriptLastIndex st1 →
  TextValidator.validateLength (TextValidator.getTextStatistics c2) = [] →
  TextValidator.validateQuality c2 = [] →
  Regex.iframe_tag c2 0 = None →
  isValid (TextValidator.validate c2 st1).1 = true ∧
  (TextValidator.validate c2 st1).2 = validator_init.
Proof.
  cbv zeta. intros Hshort Hlen Hq Hif.
  assert (Hst : iframeLastIndex (TextValidator.validate c1 validator_init).2 = 0).
  { revert Hshort. unfold TextValidator.validate, TextValidator.validateSecurity.
    destruct (Regex.only_whitespace c1); cbn [snd scriptLastIndex iframeLastIndex fst];
      [reflexivity|].
    destruct (Regex.test_global Regex.script_tag c1 (scriptLastIndex validator_init))
      as [m1 i1] eqn:H1.
    destruct m1; cbn [snd scriptLastIndex iframeLastIndex fst]; [reflexivity|].
    pose proof (test_global_false Regex.script_tag c1 (scriptLastIndex validator_init)) as H0.
    rewrite H1 in H0. simpl in H0. rewrite (H0 eq_refl).
    destruct (Regex.test_global Regex.iframe_tag c1 (iframeLastIndex validator_init)).
    cbn [snd scriptLastIndex]. lia. }
  set (st1 := (TextValidator.validate c1 validator_init).2) in *.
  assert (Hws : Regex.only_whitespace c2 = false).
  { apply alnum_is_not_blank. unfold TextValidator.validateQuality in Hq.
    destruct (JS.exists_char JS.is_alnum c2); [reflexivity|discriminate]. }
  unfold TextValidator.validate, TextValidator.validateSecurity.
  rewrite Hlen, Hq, Hws, Hst.
  assert (Hb : (String.length c2 <? scriptLastIndex st1) = true)
    by (apply Nat.ltb_lt; exact Hshort).
  assert (H0 : (String.length c2 <? 0) = false) by (apply Nat.ltb_ge; lia).
  unfold Regex.test_global. rewrite Hb, H0, Hif.
  split; reflexivity.
Qed.

Lemma script_check_is_skipped_after_a_rejection_witness :
  let st1 := (TextValidator.validate script_at_the_end validator_init).2 in
  String.length short_with_script < scriptLastIndex st1 ∧
  TextValidator.validateLength (TextValidator.getTextStatistics short_with_script) = [] ∧
  TextValidator.validateQuality short_with_script = [] ∧
  Regex.iframe_tag short_with_script 0 = None ∧
  isValid (TextValidator.validate short_with_script st1).1 = true ∧
  (TextValidator.validate short_with_script st1).2 = validator_init.
Proof.
  cbv zeta.
  split; [vm_compute; lia|]. split; [vm_compute; reflexivity|].
  split; [vm_compute; reflexivity|]. split; [vm_compute; reflexivity|].
  apply (script_check_is_skipped_after_a_rejection script_at_the_end short_with_script).
  - vm_compute. lia.
  - vm_compute. reflexivity.
  - vm_compute. reflexivity.
  - vm_compute. reflexivity.
Defined.

Example short_with_script_is_rejected_at_first :
  isValid (TextValidator.validate short_with_script validator_init).1 = false ∧
  isValid (TextValidator.validate script_at_the_end validator_init).1 = false.
Proof. vm_compute. split; reflexivity. Qed.

(** ** The service: how a request fails *)

Lemma errorMessageOf_handleError e op :
  errorMessageOf (handleError e op) = "Unknown processing error".
Proof. reflexivity. Qed.

Ltac wrapped_done :=
  split; [reflexivity|]; split; [auto 6|]; split; [reflexivity|];
  split; [reflexivity|]; repeat constructor; intros; discriminate.

(** X5. When the global object of an API exists, every failure to create
    a handle leaves [createHandle] as the object built by [handleError] for
    the operation of that API: around what [availability()] rejected with,
    around the error raised for the answer [no], or around what
    [create(options)] rejected with.  Such an object is not an [Error], so
    the processor reads no message from it; and no handle has been
    created. *)
Theorem creation_failures_are_wrapped k cap opts w e w' :
  supported cap = true →
  createHandle k cap opts w = (inl e, w') →
  ∃ orig,
    e = handleError orig (createOperation k) ∧
    (availability cap = inl orig ∨
     (availability cap = inr unavailable_no ∧
      orig = JsError "Error" (apiName k +:+ " is not available")) ∨
     ((availability cap = inr readily ∨ availability cap = inr after_download) ∧
      create cap opts = Some orig)) ∧
    errorMessageOf e = "Unknown processing error" ∧
    handles w' = handles w ∧
    Forall (λ ev, ∀ h, ev ≠ Created k h) (drop (length (trace w)) (trace w')).
Proof.
  intros Hs. unfold createHandle. rewrite Hs. simpl.
  unfold try_catch, bind, log, modify, lift_result, throw, ret, get. simpl.
  destruct (availability cap) as [e0|a] eqn:Ha; simpl.
  - intros [= <- <-]. exists e0. simpl. rewrite drop_app_length.
    wrapped_done.
  - destruct a; simpl.
    3:{ intros [= <- <-]. eexists. simpl. rewrite drop_app_length. wrapped_done. }
    all: destruct (create cap opts) as [e0|] eqn:Hc; simpl; [|discriminate].
    all: intros [= <- <-]; exists e0; simpl.
    all: rewrite <- app_assoc, drop_app_length.
    all: wrapped_done.
Qed.

Lemma creation_failures_are_wrapped_witness :
  ∃ e w',
    supported absent_model = true ∧
    createHandle WriterAPI absent_model no_options world0 = (inl e, w') ∧
    ∃ orig,
      e = handleError orig (createOperation WriterAPI) ∧
      (availability absent_model = inl orig ∨
       (availability absent_model = inr unavailable_no ∧
        orig = JsError "Error" (apiName WriterAPI +:+ " is not available")) ∨
       ((availability absent_model = inr readily ∨
         availability absent_model = inr after_download) ∧
        create absent_model no_options = Some orig)) ∧
      errorMessageOf e = "Unknown processing error" ∧
      handles w' = handles world0 ∧
      Forall (λ ev, ∀ h, ev ≠ Created WriterAPI h)
             (drop (length (trace world0)) (trace w')).
Proof.
  eexists _, _. split; [reflexivity|]. split; [vm_compute; reflexivity|].
  eapply (creation_failures_are_wrapped WriterAPI absent_model no_options world0);
    [reflexivity | vm_compute; reflexivity].
Defined.

(** X6. A model that answers [no] to the availability query is reported
    with the code [PROCESSING_ERROR]: the error raised for it is a plain
    [Error], which [handleError] classifies by name and message, and the
    code [API_UNAVAILABLE] is kept for errors named [NotSupportedError].
    The request ends after the query, without a handle. *)
Theorem unavailable_model_is_a_processing_error env k input opts w :
  let cap := api env k (requests w) in
  supported cap = true →
  availability cap = inr unavailable_no →
  let res := transformWith env k input opts w in
  res.1 = inl (JsServiceError PROCESSING_ERROR
                 ("Failed to " +:+ createOperation k +:+ ": " +:+
                  apiName k +:+ " is not available")
                 (createOperation k)
                 (JsError "Error" (apiName k +:+ " is not available"))) ∧
  trace res.2 = trace w ++ [ServiceCall k input; AvailabilityQuery k] ∧
  handles res.2 = handles w.
Proof.
  cbv zeta. intros Hs Ha.
  unfold transformWith, createHandle, bind, get, modify, log, try_catch, lift_result,
    throw, ret.
  simpl. rewrite Hs, Ha. simpl. rewrite <- app_assoc.
  destruct k; repeat split; reflexivity.
Qed.

Lemma unavailable_model_is_a_processing_error_witness :
  let cap := api absent_env SummarizerAPI (requests world0) in
  supported cap = true ∧
  availability cap = inr unavailable_no ∧
  let res := transformWith absent_env SummarizerAPI "text" no_options world0 in
  res.1 = inl (JsServiceError PROCESSING_ERROR
                 ("Failed to " +:+ createOperation SummarizerAPI +:+ ": " +:+
                  apiName SummarizerAPI +:+ " is not available")
                 (createOperation SummarizerAPI)
                 (JsError "Error" (apiName SummarizerAPI +:+ " is not available"))) ∧
  trace res.2 = trace world0 ++ [ServiceCall SummarizerAPI "text";
                                 AvailabilityQuery SummarizerAPI] ∧
  handles res.2 = handles world0.
Proof.
  cbv zeta. split; [reflexivity|]. split; [reflexivity|].
  apply (unavailable_model_is_a_processing_error absent_env SummarizerAPI "text"
           no_options world0); reflexivity.
Defined.

(** X7. What the method of a handle rejects with leaves the service as it
    is, without passing through [handleError]; the handle has been
    destroyed by then, and it is the last thing the request does. *)
Theorem transform_failures_escape_unwrapped env k input opts w e :
  let cap := api env k (requests w) in
  supported cap = true →
  availability cap = inr readily ∨ availability cap = inr after_download →
  create cap opts = None →
  transform cap input (o_context opts) = inl e →
  let res := transformWith env k input opts w in
  res.1 = inl e ∧
  trace res.2 =
    trace w ++ [ServiceCall k input; AvailabilityQuery k; Created k (handles w);
                Transform (handles w) input (o_context opts); Destroy (handles w)] ∧
  handles res.2 = S (handles w).
Proof.
  cbv zeta. intros Hs Ha Hc Ht.
  unfold transformWith, createHandle, bind, get, modify, log, try_catch, try_finally,
    lift_result, throw, ret.
  simpl. rewrite Hs. simpl.
  destruct Ha as [-> | ->]; simpl; rewrite Hc; simpl; rewrite Ht; simpl;
    rewrite <- !app_assoc; repeat split; reflexivity.
Qed.

Lemma transform_failures_escape_unwrapped_witness :
  let cap := api failing_env RewriterAPI (requests world0) in
  supported cap = true ∧
  (availability cap = inr readily ∨ availability cap = inr after_download) ∧
  create cap no_options = None ∧
  transform cap "text" (o_context no_options) = inl (JsError "NetworkError" "connection lost") ∧
  let res := transformWith failing_env RewriterAPI "text" no_options world0 in
  res.1 = inl (JsError "NetworkError" "connection lost") ∧
  trace res.2 =
    trace world0 ++ [ServiceCall RewriterAPI "text"; AvailabilityQuery RewriterAPI;
                     Created RewriterAPI (handles world0);
                     Transform (handles world0) "text" (o_context no_options);
                     Destroy (handles world0)] ∧
  handles res.2 = S (handles world0).
Proof.
  cbv zeta. split; [reflexivity|]. split; [right; reflexivity|].
  split; [reflexivity|]. split; [reflexivity|].
  apply (transform_failures_escape_unwrapped failing_env RewriterAPI "text" no_options
           world0 (JsError "NetworkError" "connection lost"));
    [reflexivity | right; reflexivity | reflexivity | reflexivity].
Defined.

(** ** The counters of a run *)

Lemma advanced_refl w : advanced w w (0, 0).
Proof. split; simpl; lia. Qed.

Lemma advanced_trans w1 w2 w3 d1 d2 :
  advanced w1 w2 d1 → advanced w2 w3 d2 → advanced w1 w3 (shift d1 d2).
Proof. unfold advanced, shift. simpl. lia. Qed.

Lemma accounts_ret {A} (a : A) : accounts (ret a) (0, 0) [].
Proof. intros w. apply advanced_refl. Qed.

Lemma accounts_throw {A} e ok : accounts (@throw A e) ok [(0, 0)].
Proof. intros w. simpl. exists (0, 0). split; [left|apply advanced_refl]. Qed.

Lemma accounts_quiet {A} (m : M A) :
  (∀ w, ∃ a w', m w = (inr a, w') ∧ requests w' = requests w ∧
                run_stats w' = run_stats w) →
  accounts m (0, 0) [].
Proof.
  intros H w. destruct (H w) as (a & w' & -> & Hr & Hs). simpl.
  split; simpl; rewrite ?Hr, ?Hs; lia.
Qed.

Lemma accounts_bind {A B} (m : M A) (k : A → M B) ok1 ko1 ok2 ko2 :
  accounts m ok1 ko1 → (∀ a, accounts (k a) ok2 ko2) →
  accounts (bind m k) (shift ok1 ok2) (ko1 ++ map (shift ok1) ko2).
Proof.
  intros Hm Hk w. unfold bind. specialize (Hm w).
  destruct (m w) as [[e|a] w1]; simpl in *.
  - destruct Hm as (d & Hd & Ha). exists d. split; [|assumption].
    apply elem_of_app. left. assumption.
  - specialize (Hk a w1). destruct (k a w1) as [[e|b] w2]; simpl in *.
    + destruct Hk as (d & Hd & Ha). exists (shift ok1 d). split.
      * apply elem_of_app. right. apply list_elem_of_In, in_map, list_elem_of_In. assumption.
      * eapply advanced_trans; eassumption.
    + eapply advanced_trans; eassumption.
Qed.

Lemma accounts_weaken {A} (m : M A) ok ko ko' :
  accounts m ok ko → ko ⊆ ko' → accounts m ok ko'.
Proof.
  intros Hm Hsub w. specialize (Hm w). destruct (m w).1; [|assumption].
  destruct Hm as (d & Hd & Ha). exists d. split; [apply Hsub|]; assumption.
Qed.

Lemma accounts_eq {A} (m : M A) ok ko ok' ko' :
  accounts m ok ko → ok = ok' → ko = ko' → accounts m ok' ko'.
Proof. intros H <- <-. exact H. Qed.

Section Counters.

Variable env : Env.

Lemma accounts_Date_now : accounts (Date_now env) (0, 0) [].
Proof. apply accounts_quiet. intros w. eexists _, _. repeat split. Qed.

Lemma accounts_get : accounts get (0, 0) [].
Proof. apply accounts_quiet. intros w. eexists _, _. repeat split. Qed.

Lemma accounts_updateProgress cb s st n msg :
  accounts (updateProgress env cb s st n msg) (0, 0) [].
Proof.
  apply accounts_quiet. intros w.
  destruct (updateProgress_run env cb s st n msg w)
    as (l & w' & H & _ & _ & _ & _ & Hr & Hs & _).
  eauto.
Qed.

Lemma accounts_caller_turn opts k : accounts (caller_turn env opts k) (0, 0) [].
Proof.
  apply accounts_quiet. intros w. unfold caller_turn, abort, bind, modify, ret.
  destruct (signal opts); [case_decide|]; case_decide; eexists _, _; repeat split.
Qed.

Lemma accounts_set_stepTime name ms : accounts (set_stepTime name ms) (0, 0) [].
Proof. intros w. split; simpl; lia. Qed.

Lemma accounts_set_totalTime (f : World → Z) :
  accounts (modify (λ w, set_run_stats (set_totalTime (f w) (run_stats w)) w)) (0, 0) [].
Proof. intros w. split; simpl; lia. Qed.

Lemma accounts_incr_apiCalls : accounts incr_apiCalls (0, 1) [].
Proof. intros w. split; simpl; lia. Qed.

(** A request is counted by the service whether or not it is answered. *)
Lemma accounts_transformWith k input opts :
  accounts (transformWith env k input opts) (1, 0) [(1, 0)].
Proof.
  intros w.
  destruct (transformWith_run env k input opts w)
    as (seg & used & _ & _ & _ & _ & _ & _ & _ & _ & Hs & _ & Hr).
  assert (Ha : advanced w (transformWith env k input opts w).2 (1, 0)).
  { split; simpl; rewrite ?Hr, ?Hs; lia. }
  destruct (transformWith env k input opts w).1; [|assumption].
  exists (1, 0). split; [left|assumption].
Qed.

Lemma accounts_validate content : accounts (validate content) (0, 0) [].
Proof.
  apply accounts_quiet. intros w. unfold validate.
  destruct (TextValidator.validate _ _). eexists _, _. repeat split.
Qed.

End Counters.

Ltac counters :=
  cbv zeta;
  lazymatch goal with
  | |- accounts (bind _ _) _ _ => eapply accounts_bind; [counters | intros ?; counters]
  | |- accounts (ret _) _ _ => apply accounts_ret
  | |- accounts get _ _ => apply accounts_get
  | |- accounts (Date_now _) _ _ => apply accounts_Date_now
  | |- accounts (updateProgress _ _ _ _ _ _) _ _ => apply accounts_updateProgress
  | |- accounts (caller_turn _ _ _) _ _ => apply accounts_caller_turn
  | |- accounts (set_stepTime _ _) _ _ => apply accounts_set_stepTime
  | |- accounts incr_apiCalls _ _ => apply accounts_incr_apiCalls
  | |- accounts (modify _) _ _ => apply accounts_set_totalTime
  | |- accounts (summarize _ _ _) _ _ => apply accounts_transformWith
  | |- accounts (rewrite _ _ _) _ _ => apply accounts_transformWith
  | |- accounts (write _ _ _) _ _ => apply accounts_transformWith
  | |- accounts (generateSummary _ _ _) _ _ => unfold generateSummary; counters
  | |- accounts (adaptContentForGrade _ _ _) _ _ => unfold adaptContentForGrade; counters
  | |- accounts (generateMindMap _ _ _) _ _ => unfold generateMindMap; counters
  | |- accounts (generateAudioLesson _ _ _) _ _ => unfold generateAudioLesson; counters
  | |- accounts (generateQuiz _ _ _) _ _ => unfold generateQuiz; counters
  end.

(** The steps after the validation: four requests when they complete, each
    counted once it has been answered; when they fail it is on a request,
    which is then the one request not counted. *)
Lemma generation_steps_accounts env t content p opts :
  accounts (generation_steps env t content p opts) (4, 4) [(1, 0); (2, 1); (3, 2); (4, 3)].
Proof.
  eapply accounts_eq; [unfold generation_steps; counters| |]; vm_compute; reflexivity.
Qed.

Lemma validation_step_accounts env content opts :
  accounts (validation_step env content opts) (0, 0) [(0, 0)].
Proof.
  unfold validation_step. cbv zeta.
  eapply accounts_eq; [eapply accounts_bind; [apply accounts_updateProgress|intros _]| |].
  - eapply accounts_bind; [apply accounts_validate|intros v].
    destruct (negb (isValid v)).
    + apply accounts_throw.
    + eapply accounts_weaken; [counters|]. apply list_subseteq_nil.
  - reflexivity.
  - reflexivity.
Qed.

Lemma generation_steps_stats env t content p opts w r w' :
  generation_steps env t content p opts w = (inr r, w') → stats r = run_stats w'.
Proof.
  unfold generation_steps. cbv zeta. intros H.
  repeat (apply bind_inr in H; destruct H as (? & ? & ?Hstep & H)).
  injection H as <- <-.
  match goal with Hg : get _ = _ |- _ => injection Hg as <- <- end.
  reflexivity.
Qed.

Lemma pipeline_accounts env t content p opts :
  accounts (pipeline env t content p opts) (4, 4)
    ((if validation_enabled opts then [(0, 0)] else []) ++
     [(1, 0); (2, 1); (3, 2); (4, 3)]).
Proof.
  unfold pipeline.
  eapply accounts_eq.
  - eapply accounts_bind; [|intros _; eapply accounts_bind; [|intros _]].
    + apply accounts_quiet. intros w. eexists _, _. repeat split.
    + instantiate (1 := if validation_enabled opts then [(0, 0)] else []).
      instantiate (1 := (0, 0)).
      destruct (validation_enabled opts);
        [apply validation_step_accounts | apply accounts_ret].
    + apply generation_steps_accounts.
  - reflexivity.
  - destruct (validation_enabled opts); reflexivity.
Qed.

Lemma pipeline_stats env t content p opts w r w' :
  pipeline env t content p opts w = (inr r, w') → stats r = run_stats w'.
Proof.
  unfold pipeline. intros H.
  do 2 (apply bind_inr in H; destruct H as (? & ? & _ & H)).
  eapply generation_steps_stats; eassumption.
Qed.

(** X8. The statistics of a run count the answered requests.  A run that
    succeeds has made four requests through the service and reports four
    calls.  A run that fails has either been stopped by the validation,
    before any request, or has failed on a request: it then reports one
    call less than it has made requests, and three at most. *)
Theorem counted_calls_are_the_answered_requests env content p opts w r w' :
  processContent env content p opts w = (inr r, w') →
  if success r
  then requests w' = requests w + 4 ∧ apiCalls (stats r) = 4
  else apiCalls (stats r) ≤ 3 ∧
       (requests w' = requests w + S (apiCalls (stats r)) ∨
        (validation_enabled opts = true ∧ requests w' = requests w ∧
         apiCalls (stats r) = 0)).
Proof.
  rewrite processContent_unfold.
  pose proof (pipeline_accounts env (clock env (ticks w)) content p opts (entered w)) as Hacc.
  destruct (pipeline _ _ _ _ _ _) as [[e|r1] w1] eqn:Hp; simpl in Hacc.
  - destruct (on_failure_run env opts (clock env (ticks w)) e w1)
      as (r2 & w2 & -> & Hs & _ & _ & Hcalls & _ & Hreq & _).
    intros [= <- <-]. rewrite Hs, Hcalls, Hreq.
    destruct Hacc as (d & Hd & Hr1 & Ha1). simpl in Hr1, Ha1.
    apply elem_of_app in Hd as [Hd|Hd].
    + destruct (validation_enabled opts); [|inversion Hd].
      apply list_elem_of_singleton in Hd. subst d. simpl in *.
      split; [lia|]. right. repeat split; lia.
    + repeat (apply elem_of_cons in Hd as [->|Hd]); [..|inversion Hd];
        simpl in *; split; try lia; left; lia.
  - intros [= <- <-]. rewrite (pipeline_succeeds _ _ _ _ _ _ _ _ Hp).
    rewrite (pipeline_stats _ _ _ _ _ _ _ _ Hp).
    destruct Hacc as [Hr1 Ha1]. simpl in *. lia.
Qed.

Lemma counted_calls_are_the_answered_requests_witness :
  ∃ r w',
    processContent no_rewriter_env sample_text prefs7 default_options world0 = (inr r, w') ∧
    if success r
    then requests w' = requests world0 + 4 ∧ apiCalls (stats r) = 4
    else apiCalls (stats r) ≤ 3 ∧
         (requests w' = requests world0 + S (apiCalls (stats r)) ∨
          (validation_enabled default_options = true ∧ requests w' = requests world0 ∧
           apiCalls (stats r) = 0)).
Proof.
  eexists _, _. split; [vm_compute; reflexivity|].
  eapply (counted_calls_are_the_answered_requests no_rewriter_env sample_text prefs7
            default_options world0).
  vm_compute. reflexivity.
Defined.

(** ** What a failed run reports *)

Lemma raises_bind {A B} (m : M A) (k : A → M B) P :
  raises m P → (∀ a, raises (k a) P) → raises (bind m k) P.
Proof.
  intros Hm Hk w e w'. unfold bind.
  destruct (m w) as [[e1|a] w1] eqn:H1.
  - intros [= <- <-]. eapply Hm. eassumption.
  - apply Hk.
Qed.

Lemma raises_quiet {A} (m : M A) P :
  (∀ w, ∃ a w', m w = (inr a, w')) → raises m P.
Proof. intros H w e w' He. destruct (H w) as (a & w1 & Hw). congruence. Qed.

Lemma raises_accounts {A} (m : M A) ok P : accounts m ok [] → raises m P.
Proof.
  intros H w e w' He. specialize (H w). rewrite He in H. simpl in H.
  destruct H as (d & Hd & _). inversion Hd.
Qed.

Lemma raises_transformWith env k input opts :
  raises (transformWith env k input opts) (service_thrown env).
Proof.
  intros w e w'.
  unfold transformWith, createHandle, bind, get, modify, log, try_catch, try_finally,
    lift_result, throw, ret.
  simpl.
  destruct (supported (api env k (requests w))) eqn:Hs; simpl.
  2:{ intros [= <- _]. econstructor 1. eassumption. }
  destruct (availability (api env k (requests w))) as [e0|a]; simpl.
  { intros [= <- _]. constructor 2. }
  destruct a; simpl.
  3:{ intros [= <- _]. constructor 2. }
  all: destruct (create (api env k (requests w)) opts) as [e0|]; simpl.
  all: try (intros [= <- _]; constructor 2).
  all: destruct (transform (api env k (requests w)) input (o_context opts)) eqn:Ht; simpl.
  all: intros [= <- _].
  all: econstructor 3; eassumption.
Qed.

Ltac thrown :=
  cbv zeta;
  lazymatch goal with
  | |- raises (bind _ _) _ => apply raises_bind; [thrown | intros ?; thrown]
  | |- raises (summarize _ _ _) _ => apply raises_transformWith
  | |- raises (rewrite _ _ _) _ => apply raises_transformWith
  | |- raises (write _ _ _) _ => apply raises_transformWith
  | |- raises (generateSummary _ _ _) _ => unfold generateSummary; thrown
  | |- raises (adaptContentForGrade _ _ _) _ => unfold adaptContentForGrade; thrown
  | |- raises (generateMindMap _ _ _) _ => unfold generateMindMap; thrown
  | |- raises (generateAudioLesson _ _ _) _ => unfold generateAudioLesson; thrown
  | |- raises (generateQuiz _ _ _) _ => unfold generateQuiz; thrown
  | |- raises _ _ =>
      eapply raises_accounts;
      first [ apply accounts_ret | apply accounts_get | apply accounts_Date_now
            | apply accounts_updateProgress | apply accounts_caller_turn
            | apply accounts_set_stepTime | apply accounts_incr_apiCalls
            | apply accounts_set_totalTime ]
  end.

(** The steps after the validation throw nothing of their own: whatever
    leaves them was thrown by a request. *)
Lemma generation_steps_raises env t content p opts :
  raises (generation_steps env t content p opts) (service_thrown env).
Proof. unfold generation_steps. thrown. Qed.

Lemma validation_step_throws env content opts w e w1 :
  validation_step env content opts w = (inl e, w1) →
  isValid (TextValidator.validate content (validator w)).1 = false ∧
  e = JsError "Error"
        ("Content validation failed: " +:+
         JS.join ", " (errors (TextValidator.validate content (validator w)).1)).
Proof.
  unfold validation_step. cbv zeta.
  destruct (updateProgress_run env (onProgress opts) "validation" in_progress 5
              "Validating content..." w)
    as (l & w0 & H1 & _ & _ & _ & Hval & _).
  rewrite (bind_run_inr _ _ _ _ _ H1).
  unfold bind at 1, validate at 1. rewrite Hval.
  destruct (TextValidator.validate content (validator w)) as [v st]. simpl.
  destruct (isValid v); simpl.
  - intros H. exfalso. revert H.
    assert (Hr : raises (updateProgress env (onProgress opts) "validation" completed 10
                           "Content validated" ;; caller_turn env opts validation)
                        (λ _, False)) by thrown.
    apply Hr.
  - intros [= <- _]. split; reflexivity.
Qed.

Lemma service_thrown_message env content opts w e :
  service_thrown env e → failure_message env content opts w (errorMessageOf e).
Proof.
  intros [k n Hs|orig op|k n input ctx e' Ht].
  - simpl. apply fm_missing. eauto.
  - rewrite errorMessageOf_handleError. apply fm_unknown.
  - destruct e'; simpl; try apply fm_unknown. eapply fm_rejected. eassumption.
Qed.

(** X9. The error of a failed run is one of four messages: the list of
    the errors of the validator, when the validation is enabled and rejects
    the content; the name of an API whose global object is missing; the
    message of an [Error] with which a handle rejected a call; and, for
    everything else, the fixed text for a thrown value that is not an
    [Error], which is what every failure to create a handle comes to. *)
Theorem failed_run_error_is_classified env content p opts w r w' :
  processContent env content p opts w = (inr r, w') →
  success r = false →
  ∃ msg, gr_error r = Some msg ∧ failure_message env content opts w msg.
Proof.
  intros H Hs. apply processContent_failure in H as (e & w1 & Hp & Hf); [|assumption].
  destruct (on_failure_run env opts (clock env (ticks w)) e w1)
    as (r2 & w2 & Hf2 & _ & _ & Herr & _).
  rewrite Hf in Hf2. injection Hf2 as <- <-.
  exists (errorMessageOf e). split; [assumption|].
  revert Hp. unfold pipeline. unfold bind at 1. simpl. unfold bind at 1.
  destruct (validation_enabled opts) eqn:Hen.
  - destruct (validation_step env content opts _) as [[e1|[]] w3] eqn:Hv.
    + intros [= <- <-]. apply validation_step_throws in Hv as [Hinv ->].
      simpl in *. apply fm_validation; assumption.
    + intros Hg. apply generation_steps_raises in Hg.
      apply service_thrown_message. assumption.
  - simpl. intros Hg. apply generation_steps_raises in Hg.
    apply service_thrown_message. assumption.
Qed.

Lemma failed_run_error_is_classified_witness :
  ∃ r w',
    processContent absent_env sample_text prefs7 no_validation_options world0 = (inr r, w') ∧
    success r = false ∧
    ∃ msg, gr_error r = Some msg ∧
           failure_message absent_env sample_text no_validation_options world0 msg.
Proof.
  eexists _, _. split; [vm_compute; reflexivity|]. split; [reflexivity|].
  eapply (failed_run_error_is_classified absent_env sample_text prefs7
            no_validation_options world0);
    [vm_compute; reflexivity | reflexivity].
Defined.

(** ** What the progress entries say *)

Lemma reports_bind {A B} (m : M A) (k : A → M B) xs1 xs2 xs :
  reports m xs1 → (∀ a, reports (k a) xs2) → xs = xs1 ++ xs2 → reports (bind m k) xs.
Proof.
  intros Hm Hk -> w b w' H. apply bind_inr in H as (a & w1 & H1 & H2).
  destruct (Hm _ _ _ H1) as (l1 & E1 & M1). destruct (Hk _ _ _ _ H2) as (l2 & E2 & M2).
  exists (l1 ++ l2). rewrite E2, E1, app_assoc, map_app, M1, M2. auto.
Qed.

Lemma reports_throw {A} e xs : reports (@throw A e) xs.
Proof. intros w a w' H. discriminate. Qed.

Lemma reports_emits {A} (m : M A) : emits m [] → reports m [].
Proof.
  intros Hm w a w' H. destruct (Hm _ _ _ H) as (l & E & Hl).
  exists l. split; [assumption|]. destruct l; [reflexivity|discriminate].
Qed.

Lemma reports_updateProgress env cb s st n msg :
  reports (updateProgress env (Some cb) s st n msg) [(s, st, n)].
Proof.
  intros w a w' H.
  destruct (updateProgress_run env (Some cb) s st n msg w)
    as (l & w1 & H1 & E & _ & _ & _ & _ & _ & _ & g & -> & Hs & Hst & Hn & _).
  rewrite H in H1. injection H1 as _ <-. exists [g]. unfold entry_of. simpl.
  rewrite Hs, Hst, Hn. auto.
Qed.

Ltac reports_go :=
  cbv zeta;
  lazymatch goal with
  | |- reports (bind _ _) _ =>
      eapply reports_bind; [reports_go | intros ?; reports_go | reflexivity]
  | |- reports (throw _) _ => apply reports_throw
  | |- reports (if ?b then _ else _) _ => destruct b; reports_go
  | |- reports (updateProgress _ (Some _) _ _ _ _) _ => apply reports_updateProgress
  | |- reports _ _ => apply reports_emits; emits_go
  end.

Lemma pipeline_reports env t content p opts :
  reports (pipeline env t content p opts) (run_reports opts).
Proof.
  unfold pipeline, run_reports, stage_reports, generation_steps, validation_step. cbv zeta.
  destruct (onProgress opts) as [cb|]; destruct (validation_enabled opts).
  1,2: reports_go.
  all: apply reports_emits; emits_go.
Qed.

Lemma updateProgress_times env cb s st n msg :
  st ≠ pending →
  preserves (log_ext emitted well_timed) (updateProgress env cb s st n msg).
Proof.
  intros Hst w. destruct cb as [[]|]; simpl.
  - exists [ {| step := s; status := st; progress := n; message := Some msg;
                gp_startTime := match st with
                                | in_progress => Some (clock env (ticks w))
                                | _ => None
                                end;
                gp_endTime := match st with
                              | completed | error => Some (clock env (ticks w))
                              | _ => None
                              end |} ].
    destruct st; try contradiction; simpl; (split; [reflexivity|]);
      repeat constructor; eauto.
  - exists []. rewrite app_nil_r. split; [reflexivity|constructor].
Qed.

Ltac timed :=
  cbv zeta;
  lazymatch goal with
  | |- preserves _ (bind _ _) => apply preserves_bind; [apply _ | timed | intros ?; timed]
  | |- preserves _ (try_catch _ _) =>
      apply preserves_try_catch; [apply _ | timed | intros ?; timed]
  | |- preserves _ (if ?b then _ else _) => destruct b; timed
  | |- preserves _ (match ?x with _ => _ end) => destruct x; timed
  | |- preserves _ (updateProgress _ _ _ _ _ _) => apply updateProgress_times; discriminate
  | |- preserves _ (generation_steps _ _ _ _ _) => unfold generation_steps; timed
  | |- preserves _ (validation_step _ _ _) => unfold validation_step; timed
  | |- preserves _ (pipeline _ _ _ _ _) => unfold pipeline; timed
  | |- preserves _ (on_failure _ _ _ _) => unfold on_failure; timed
  | |- preserves _ (processContent _ _ _ _) => unfold processContent; timed
  | |- preserves _ _ => pres no_side
  end.

(** X10. Every progress entry of a run, whether the run succeeds or
    fails, carries the times that go with its status: an entry in progress
    has a start time and no end time, a completed or failed one an end time
    and no start time, and no entry is pending. *)
Theorem progress_entries_are_well_timed env content p opts w :
  ∃ l, emitted (processContent env content p opts w).2 = emitted w ++ l ∧
       Forall well_timed l.
Proof.
  revert w. change (preserves (log_ext emitted well_timed) (processContent env content p opts)).
  timed.
Qed.

(** X11. A successful run reports every stage twice, as in progress and
    then as completed, in the order of the stages and with the percent
    values of the source; the validation is reported only when it is
    enabled, and without a callback nothing is reported. *)
Theorem successful_run_reports_every_stage env content p opts w r w' :
  processContent env content p opts w = (inr r, w') →
  success r = true →
  ∃ l, emitted w' = emitted w ++ l ∧ map entry_of l = run_reports opts.
Proof.
  intros H Hs. apply processContent_success in H; [|assumption].
  apply pipeline_reports in H as (l & He & Hl).
  exists l. rewrite He. split; [reflexivity|assumption].
Qed.

Lemma successful_run_reports_every_stage_witness :
  ∃ r w',
    processContent ok_env sample_text prefs7 no_validation_options world0 = (inr r, w') ∧
    success r = true ∧
    ∃ l, emitted w' = emitted world0 ++ l ∧
         map entry_of l = run_reports no_validation_options.
Proof.
  eexists _, _. split; [vm_compute; reflexivity|]. split; [reflexivity|].
  eapply (successful_run_reports_every_stage ok_env sample_text prefs7
            no_validation_options world0);
    [vm_compute; reflexivity | reflexivity].
Defined.

(** ** Key points *)

Lemma append_cons c s t : String c s +:+ t = String c (s +:+ t).
Proof. reflexivity. Qed.

Lemma append_empty_r s : s +:+ EmptyString = s.
Proof. induction s as [|c s IH]; [reflexivity|]. rewrite append_cons, IH. reflexivity. Qed.

Lemma append_assoc a b c : (a +:+ b) +:+ c = a +:+ (b +:+ c).
Proof.
  induction a as [|x a IH]; [reflexivity|]. rewrite !append_cons, IH. reflexivity.
Qed.

Lemma exists_char_app p a b :
  JS.exists_char p (a +:+ b) = JS.exists_char p a || JS.exists_char p b.
Proof.
  induction a as [|c a IH]; [reflexivity|].
  rewrite append_cons. simpl. rewrite IH, orb_assoc. reflexivity.
Qed.

Lemma forall_char_app p a b :
  JS.forall_char p (a +:+ b) = JS.forall_char p a && JS.forall_char p b.
Proof.
  induction a as [|c a IH]; [reflexivity|].
  rewrite append_cons. simpl. rewrite IH, andb_assoc. reflexivity.
Qed.

Lemma split_char_go_single sep s cur :
  JS.exists_char (λ c, Ascii.eqb c sep) s = false →
  JS.split_char_go sep s cur = [cur +:+ s].
Proof.
  revert cur. induction s as [|c t IH]; intros cur Hs; simpl.
  - rewrite append_empty_r. reflexivity.
  - simpl in Hs. apply orb_false_iff in Hs as [Hc Ht]. rewrite Hc.
    rewrite IH by assumption. rewrite append_assoc. reflexivity.
Qed.

Lemma split_char_go_field sep s t cur :
  JS.exists_char (λ c, Ascii.eqb c sep) s = false →
  JS.split_char_go sep (s +:+ String sep t) cur =
  (cur +:+ s) :: JS.split_char_go sep t EmptyString.
Proof.
  revert cur. induction s as [|c s IH]; intros cur Hs.
  - change (EmptyString +:+ String sep t) with (String sep t). simpl.
    rewrite Ascii.eqb_refl, append_empty_r. reflexivity.
  - simpl in Hs. apply orb_false_iff in Hs as [Hc Ht].
    rewrite append_cons. simpl. rewrite Hc.
    rewrite IH by assumption. rewrite append_assoc. reflexivity.
Qed.

(** Splitting at the separator undoes joining with it, for fields that do
    not hold the separator. *)
Lemma split_char_join sep line lines :
  Forall (λ l, JS.exists_char (λ c, Ascii.eqb c sep) l = false) (line :: lines) →
  JS.split_char sep (JS.join (String sep EmptyString) (line :: lines)) = line :: lines.
Proof.
  unfold JS.split_char. revert line.
  induction lines as [|next rest IH]; intros line Hall.
  - inversion Hall as [|? ? Hline _]. simpl. apply split_char_go_single, Hline.
  - inversion Hall as [|? ? Hline Hrest].
    change (JS.join (String sep EmptyString) (line :: next :: rest))
      with (line +:+ String sep (JS.join (String sep EmptyString) (next :: rest))).
    rewrite split_char_go_field by exact Hline.
    rewrite IH by exact Hrest. reflexivity.
Qed.

Lemma startsWith_char c s :
  JS.startsWith (String c EmptyString) s = true ↔ ∃ t, s = String c t.
Proof.
  unfold JS.startsWith. destruct s as [|b t]; simpl.
  - split; [discriminate|intros [? [=]]].
  - destruct (Ascii.ascii_dec c b) as [->|Hne].
    + split; [eauto|]. destruct t; reflexivity.
    + split; [discriminate|]. intros [? [= -> _]]. contradiction.
Qed.

Lemma drop_while_fix p s : JS.drop_while p (JS.drop_while p s) = JS.drop_while p s.
Proof.
  pose proof (drop_while_head p s) as Hh.
  destruct (JS.drop_while p s) as [|c t]; [reflexivity|]. simpl. rewrite Hh. reflexivity.
Qed.

(** The line made of a hyphen, a space and a trimmed item is a bullet, and
    its key point is the item. *)
Lemma hyphen_bullet_item item :
  JS.trim item = item →
  JS.startsWith "-" (JS.trim ("- " +:+ item)) = true ∧
  JS.trim (strip_bullet ("- " +:+ item)) = item.
Proof.
  intros Htrim. split.
  - change ("- " +:+ item) with (String "-" (String " " item)).
    unfold JS.trim. change (JS.drop_while JS.is_space (String "-" (String " " item)))
      with (String "-" (String " " item)).
    destruct (drop_while_end_head JS.is_space "-" (String " " item) eq_refl) as [t Ht].
    rewrite Ht. apply startsWith_char. eauto.
  - change (strip_bullet ("- " +:+ item)) with (JS.drop_while JS.is_space item).
    unfold JS.trim. rewrite drop_while_fix. exact Htrim.
Qed.

(** X12. The key points of a summary are never empty and carry no white
    space at either end.  A summary written as hyphen bullets, one item a
    line, gives back its items: when the items are not empty, carry no
    white space at either end and hold no line break, the key points of
    the lines made of a hyphen, a space and an item are the items, in
    their order. *)
Theorem key_points_are_trimmed summaryText :
  Forall (λ p, p ≠ EmptyString ∧ JS.trim p = p) (extractKeyPoints summaryText) ∧
  (∀ items,
     Forall (λ p, p ≠ EmptyString ∧ JS.trim p = p ∧
                  JS.exists_char (λ c, Ascii.eqb c (ascii_of_nat 10)) p = false) items →
     summaryText = JS.join nl (map (λ p, "- " +:+ p) items) →
     extractKeyPoints summaryText = items).
Proof.
  split.
  { unfold extractKeyPoints. apply Forall_forall. intros p Hp.
    apply list_elem_of_In, filter_In in Hp as [Hin Hlen].
    apply in_map_iff in Hin as (line & <- & _).
    split; [|apply trim_idem].
    intros Hnil. rewrite Hnil in Hlen. discriminate. }
  intros items Hitems ->. unfold extractKeyPoints.
  destruct items as [|item rest]; [reflexivity|].
  unfold nl. cbn [map]. rewrite split_char_join.
  2:{ change (("- " +:+ item) :: map (λ p, "- " +:+ p) rest)
        with (map (λ p, "- " +:+ p) (item :: rest)).
      apply Forall_forall. intros line Hline.
      apply list_elem_of_In, in_map_iff in Hline as (p & <- & Hp).
      rewrite Forall_forall in Hitems.
      destruct (Hitems p) as (_ & _ & Hnl); [apply list_elem_of_In, Hp|].
      rewrite exists_char_app, Hnl. reflexivity. }
  change (("- " +:+ item) :: map (λ p, "- " +:+ p) rest)
    with (map (λ p, "- " +:+ p) (item :: rest)).
  induction Hitems as [|p ps (Hne & Htrim & _) _ IH]; [reflexivity|].
  destruct (hyphen_bullet_item p Htrim) as [Hbullet Hpoint].
  cbn [map List.filter]. rewrite Hbullet. cbn [map List.filter]. rewrite Hpoint.
  destruct p as [|c p]; [congruence|]. cbn [String.length Nat.ltb Nat.leb].
  f_equal. exact IH.
Qed.

(** X13. The marker of a bullet is removed only at the very start of its
    line.  A line that begins with white space and then a hyphen is taken
    for a bullet, since the test looks at the trimmed line, but its marker
    stays: the key point is the trimmed line, hyphen included. *)
Theorem indented_bullet_keeps_its_marker line :
  JS.exists_char (λ c, Ascii.eqb c (ascii_of_nat 10)) line = false →
  JS.startsWith "-" line = false →
  JS.startsWith "-" (JS.trim line) = true →
  extractKeyPoints line = [JS.trim line] ∧ JS.startsWith "-" (JS.trim line) = true.
Proof.
  intros Hnl Hfirst Hbullet. split; [|exact Hbullet].
  unfold extractKeyPoints, JS.split_char.
  rewrite (split_char_go_single _ _ _ Hnl).
  change (EmptyString +:+ line) with line.
  cbn [List.filter map]. rewrite Hbullet. cbn [List.filter map].
  assert (Hstrip : strip_bullet line = line).
  { destruct line as [|c rest]; [reflexivity|]. simpl.
    destruct (Ascii.eqb_spec c "-") as [->|]; [|reflexivity].
    assert (JS.startsWith "-" (String "-" rest) = true)
      by (apply startsWith_char; eauto).
    congruence. }
  rewrite Hstrip.
  apply startsWith_char in Hbullet as [t Ht]. rewrite Ht. reflexivity.
Qed.

Lemma indented_bullet_keeps_its_marker_witness :
  JS.exists_char (λ c, Ascii.eqb c (ascii_of_nat 10)) "  - Plants make food" = false ∧
  JS.startsWith "-" "  - Plants make food" = false ∧
  JS.startsWith "-" (JS.trim "  - Plants make food") = true ∧
  extractKeyPoints "  - Plants make food" = [JS.trim "  - Plants make food"] ∧
  JS.startsWith "-" (JS.trim "  - Plants make food") = true.
Proof.
  split; [reflexivity|]. split; [reflexivity|]. split; [reflexivity|].
  apply (indented_bullet_keeps_its_marker "  - Plants make food"); reflexivity.
Defined.

(** ** Concepts: the words themselves *)

Lemma split_runs_go_forall q sep s cur in_run :
  JS.forall_char q cur = true → JS.forall_char q s = true →
  Forall (λ t, JS.forall_char q t = true) (JS.split_runs_go sep s cur in_run).
Proof.
  revert cur in_run. induction s as [|c t IH]; intros cur in_run Hcur Hs; simpl.
  - repeat constructor. assumption.
  - simpl in Hs. apply andb_true_iff in Hs as [Hc Ht].
    destruct (sep c).
    + destruct in_run; [|constructor; [assumption|]]; apply IH; auto.
    + apply IH; [|assumption]. rewrite forall_char_app, Hcur. simpl. rewrite Hc. reflexivity.
Qed.

Lemma lower_char_not_upper c : JS.is_upper (JS.lower_char c) = false.
Proof. destruct c as [[] [] [] [] [] [] [] []]; vm_compute; reflexivity. Qed.

Lemma toLowerCase_not_upper s :
  JS.forall_char (λ c, negb (JS.is_upper c)) (JS.toLowerCase s) = true.
Proof.
  unfold JS.toLowerCase. induction s as [|c s IH]; simpl; [reflexivity|].
  rewrite lower_char_not_upper, IH. reflexivity.
Qed.

Lemma filter_chars_forall q p s :
  JS.forall_char q s = true → JS.forall_char q (JS.filter_chars p s) = true.
Proof.
  induction s as [|c s IH]; simpl; [reflexivity|].
  intros H. apply andb_true_iff in H as [Hc Hs].
  destruct (p c); simpl; [rewrite Hc|]; auto.
Qed.

Lemma filter_chars_all p s : JS.forall_char p (JS.filter_chars p s) = true.
Proof.
  induction s as [|c s IH]; simpl; [reflexivity|].
  destruct (p c) eqn:Hc; simpl; [rewrite Hc|]; auto.
Qed.

Lemma countb_witness {X} (p : X → bool) l : 0 < countb p l → ∃ x, In x l ∧ p x = true.
Proof.
  unfold countb. destruct (List.filter p l) as [|x rest] eqn:Hf; simpl; [lia|].
  intros _. exists x. apply List.filter_In. rewrite Hf. left. reflexivity.
Qed.

(** The words of the table are cleaned tokens of the lower-cased content. *)
Lemma wordFreq_key content wd n :
  In (wd, n) (wordFreq content) →
  is_candidate wd = true ∧
  JS.forall_char JS.is_word wd = true ∧
  JS.forall_char (λ c, negb (JS.is_upper c)) wd = true.
Proof.
  intros H. apply wordFreq_member in H as (Hc & -> & Hpos).
  split; [assumption|].
  apply countb_witness in Hpos as (t & Ht & Heq).
  apply String.eqb_eq in Heq. subst wd. unfold cleanWord.
  split; [apply filter_chars_all|].
  apply filter_chars_forall.
  assert (Hall : Forall (λ t, JS.forall_char (λ c, negb (JS.is_upper c)) t = true)
                   (tokens_of content)).
  { apply split_runs_go_forall; [reflexivity|apply toLowerCase_not_upper]. }
  rewrite Forall_forall in Hall. apply Hall, list_elem_of_In, Ht.
Qed.

Lemma upper_char_undone c : JS.is_upper c = false → uncapital (JS.upper_char c) = c.
Proof.
  destruct c as [[] [] [] [] [] [] [] []]; vm_compute; intros H;
    first [reflexivity | discriminate].
Qed.

Lemma upper_char_word c : JS.is_word c = true → JS.is_word (JS.upper_char c) = true.
Proof.
  destruct c as [[] [] [] [] [] [] [] []]; vm_compute; intros H;
    first [reflexivity | discriminate].
Qed.

Lemma capitalize_inj a b :
  JS.forall_char (λ c, negb (JS.is_upper c)) a = true →
  JS.forall_char (λ c, negb (JS.is_upper c)) b = true →
  capitalize a = capitalize b → a = b.
Proof.
  destruct a as [|x a], b as [|y b]; simpl; try discriminate; [reflexivity|].
  intros Ha Hb [= Hxy ->].
  apply andb_true_iff in Ha as [Hx _]. apply andb_true_iff in Hb as [Hy _].
  apply negb_true_iff in Hx, Hy.
  rewrite <- (upper_char_undone x Hx), <- (upper_char_undone y Hy), Hxy. reflexivity.
Qed.

Lemma capitalize_length wd : String.length (capitalize wd) = String.length wd.
Proof. destruct wd; reflexivity. Qed.

Lemma capitalize_word wd :
  JS.forall_char JS.is_word wd = true → JS.forall_char JS.is_word (capitalize wd) = true.
Proof.
  destruct wd as [|c wd]; simpl; [reflexivity|].
  intros H. apply andb_true_iff in H as [Hc Hw].
  rewrite (upper_char_word c Hc), Hw. reflexivity.
Qed.

Lemma NoDup_map_on {X Y} (f : X → Y) l :
  (∀ x y, In x l → In y l → f x = f y → x = y) → NoDup l → NoDup (map f l).
Proof.
  intros Hinj Hnd. induction Hnd as [|x l Hx Hnd IH]; simpl; constructor.
  - intros Hin. apply list_elem_of_In, in_map_iff in Hin as (y & Hxy & Hy).
    apply Hx. apply list_elem_of_In.
    rewrite (Hinj x y); [assumption|left; reflexivity|right; assumption|congruence].
  - apply IH. intros a b Ha Hb. apply Hinj; right; assumption.
Qed.

Lemma capital_undone c :
  JS.is_word c = true → JS.is_upper c = false → JS.lower_char (JS.upper_char c) = c.
Proof.
  destruct c as [[] [] [] [] [] [] [] []]; vm_compute; intros H1 H2;
    first [reflexivity | discriminate].
Qed.

Lemma lower_char_fixed c :
  JS.is_word c = true → JS.is_upper c = false → JS.lower_char c = c.
Proof.
  destruct c as [[] [] [] [] [] [] [] []]; vm_compute; intros H1 H2;
    first [reflexivity | discriminate].
Qed.

Lemma toLowerCase_fixed wd :
  JS.forall_char JS.is_word wd = true →
  JS.forall_char (λ c, negb (JS.is_upper c)) wd = true →
  JS.toLowerCase wd = wd.
Proof.
  unfold JS.toLowerCase. induction wd as [|c wd IH]; simpl; [reflexivity|].
  intros Hw Hu. apply andb_true_iff in Hw as [Hc Hw]. apply andb_true_iff in Hu as [Hn Hu].
  apply negb_true_iff in Hn. rewrite (lower_char_fixed c Hc Hn), (IH Hw Hu). reflexivity.
Qed.

Lemma toLowerCase_capitalize wd :
  JS.forall_char JS.is_word wd = true →
  JS.forall_char (λ c, negb (JS.is_upper c)) wd = true →
  JS.toLowerCase (capitalize wd) = wd.
Proof.
  destruct wd as [|c wd]; [reflexivity|]. simpl.
  intros Hw Hu. apply andb_true_iff in Hw as [Hc Hw]. apply andb_true_iff in Hu as [Hn Hu].
  apply negb_true_iff in Hn. unfold JS.toLowerCase. simpl.
  rewrite (capital_undone c Hc Hn). f_equal. apply toLowerCase_fixed; assumption.
Qed.

Lemma extractConcepts_keys content :
  extractConcepts content =
  map capitalize (take 8 (map fst (sort_desc (wordFreq content)))).
Proof. unfold extractConcepts. rewrite firstn_map, map_map. reflexivity. Qed.

(** X14. The concepts of a content are pairwise distinct, there are at
    most eight of them, and each is a word of more than three characters
    made of letters, digits and underscores, whose lower-case form is not a
    stop word. *)
Theorem concepts_are_distinct_words content :
  NoDup (extractConcepts content) ∧
  length (extractConcepts content) ≤ 8 ∧
  Forall (λ c, 3 < String.length c ∧ JS.forall_char JS.is_word c = true ∧
               JS.toLowerCase c ∉ commonWords)
         (extractConcepts content).
Proof.
  rewrite extractConcepts_keys.
  set (keys := take 8 (map fst (sort_desc (wordFreq content)))).
  assert (Hkey : ∀ wd, In wd keys →
            is_candidate wd = true ∧ JS.forall_char JS.is_word wd = true ∧
            JS.forall_char (λ c, negb (JS.is_upper c)) wd = true).
  { intros wd Hwd. apply list_elem_of_In, elem_of_take in Hwd as (i & Hi & _).
    apply list_elem_of_lookup_2, list_elem_of_In, in_map_iff in Hi as ([wd' n] & <- & He).
    apply (wordFreq_key content wd' n).
    apply list_elem_of_In. rewrite <- (sort_desc_perm (wordFreq content)).
    apply list_elem_of_In. exact He. }
  assert (Hnd : NoDup keys).
  { eapply sublist_NoDup; [|apply sublist_take].
    rewrite map_fmap, (sort_desc_perm (wordFreq content)), <- map_fmap.
    apply wordFreq_well_formed. }
  split; [|split].
  - apply NoDup_map_on; [|exact Hnd].
    intros a b Ha Hb. destruct (Hkey _ Ha) as (_ & _ & Hua), (Hkey _ Hb) as (_ & _ & Hub).
    apply capitalize_inj; assumption.
  - rewrite length_map. unfold keys. rewrite length_take. lia.
  - apply Forall_forall. intros c Hc.
    apply list_elem_of_In, in_map_iff in Hc as (wd & <- & Hwd).
    destruct (Hkey _ Hwd) as (Hcand & Hword & Hup).
    unfold is_candidate in Hcand. apply andb_true_iff in Hcand as [Hlen Hstop].
    split; [rewrite capitalize_length; apply Nat.ltb_lt; assumption|].
    split; [apply capitalize_word; assumption|].
    rewrite (toLowerCase_capitalize wd Hword Hup).
    apply negb_true_iff, bool_decide_eq_false in Hstop. exact Hstop.
Qed.

(** ** The audio script: its duration *)

Lemma split_runs_go_length sep s cur in_run :
  1 ≤ length (JS.split_runs_go sep s cur in_run).
Proof.
  revert cur in_run. induction s as [|c t IH]; intros cur in_run; simpl; [lia|].
  destruct (sep c); [destruct in_run; simpl|]; try apply IH.
  specialize (IH EmptyString true). lia.
Qed.

Lemma split_runs_go_in_run sep s :
  JS.forall_char sep s = true →
  JS.split_runs_go sep s EmptyString true = [EmptyString].
Proof.
  induction s as [|c t IH]; simpl; [reflexivity|].
  intros H. apply andb_true_iff in H as [-> Ht]. auto.
Qed.

Lemma split_runs_blank sep s :
  JS.forall_char sep s = true → length (JS.split_runs sep s) ≤ 2.
Proof.
  unfold JS.split_runs. destruct s as [|c t]; simpl; [lia|].
  intros H. apply andb_true_iff in H as [-> Ht].
  rewrite (split_runs_go_in_run sep t Ht). simpl. lia.
Qed.

Lemma blank_has_no_sentence text :
  JS.forall_char JS.is_space text = true →
  List.filter TextValidator.nonblank (JS.split_runs TextValidator.is_terminal text) = [].
Proof.
  intros Hall. apply filter_nothing. intros y Hy.
  assert (Hf : Forall (λ t, JS.forall_char JS.is_space t = true)
                 (JS.split_runs TextValidator.is_terminal text)).
  { apply split_runs_go_forall; [reflexivity|assumption]. }
  rewrite Forall_forall in Hf. apply list_elem_of_In, Hf, trim_empty in Hy.
  unfold TextValidator.nonblank. rewrite Hy. reflexivity.
Qed.

Lemma ceil_div_3 n :
  n ≤ 3 * TextValidator.ceil_div n 3 ∧ 3 * TextValidator.ceil_div n 3 < n + 3.
Proof.
  unfold TextValidator.ceil_div. change (3 - 1) with 2.
  pose proof (Nat.div_mod_eq (n + 2) 3) as Hd.
  pose proof (Nat.mod_upper_bound (n + 2) 3). lia.
Qed.

(** X15. The audio lesson allows one second for every three words of its
    text, rounded up, where the words are the fields between the runs of
    white space.  There is always at least one such field, so the duration
    is never below one second: a text that is empty or blank gets a lesson
    of one second without any segment. *)
Theorem audio_duration_is_a_third_of_the_words env text p w :
  ∃ a w', generateAudioLesson env text p w = (inr a, w') ∧
    let n := length (JS.split_runs JS.is_space text) in
    1 ≤ duration a ∧ n ≤ 3 * duration a ∧ 3 * duration a < n + 3 ∧
    (JS.trim text = EmptyString → duration a = 1 ∧ segments a = []).
Proof.
  destruct (generateAudioLesson_run env p text w) as (a & w' & H & _ & Hd & Hsegs).
  exists a, w'. split; [exact H|]. cbv zeta.
  pose proof (split_runs_go_length JS.is_space text EmptyString false) as Hn.
  fold (JS.split_runs JS.is_space text) in Hn.
  pose proof (ceil_div_3 (length (JS.split_runs JS.is_space text))) as [Hlo Hhi].
  rewrite <- Hd in Hlo, Hhi.
  split; [lia|]. split; [lia|]. split; [lia|].
  intros Hblank. apply trim_empty in Hblank.
  pose proof (split_runs_blank JS.is_space text Hblank).
  split; [lia|].
  rewrite Hsegs. unfold createAudioSegments. cbv zeta.
  rewrite (blank_has_no_sentence text Hblank). reflexivity.
Qed.

(** ** The answers of the writer *)

Lemma same_bind {A B} (m1 m2 : M A) (k1 k2 : A → M B) :
  same m1 m2 → (∀ a, same (k1 a) (k2 a)) → same (bind m1 k1) (bind m2 k2).
Proof.
  intros Hm Hk w. unfold bind. rewrite (Hm w).
  destruct (m2 w) as [[e|a] w1]; [reflexivity|apply Hk].
Qed.

Lemma same_try_catch {A} (b1 b2 : M A) h1 h2 :
  same b1 b2 → (∀ e, same (h1 e) (h2 e)) → same (try_catch b1 h1) (try_catch b2 h2).
Proof.
  intros Hb Hh w. unfold try_catch. rewrite (Hb w).
  destruct (b2 w) as [[e|a] w1]; [apply Hh|reflexivity].
Qed.

Section WriterAnswers.

Variables (answer : nat → string → option string → string) (env : Env).

(** A call of the writer whose answer is not used goes the same way on
    both hosts. *)
Lemma write_answer_unused {B} input opts (k1 k2 : string → M B) :
  (∀ a b, same (k1 a) (k2 b)) →
  same (bind (write (with_writer_answers answer env) input opts) k1)
       (bind (write env input opts) k2).
Proof.
  intros Hk w.
  unfold write, transformWith, createHandle, bind, get, modify, log, try_catch,
    try_finally, lift_result, throw, ret.
  simpl.
  destruct (supported (api env WriterAPI (requests w))); simpl; [|reflexivity].
  destruct (availability (api env WriterAPI (requests w))) as [e|a]; simpl; [reflexivity|].
  destruct a; simpl; try reflexivity.
  all: destruct (create (api env WriterAPI (requests w)) opts); simpl; try reflexivity.
  all: destruct (transform (api env WriterAPI (requests w)) input (o_context opts));
    simpl; [reflexivity|apply Hk].
Qed.

Lemma generateMindMap_same content p :
  same (generateMindMap (with_writer_answers answer env) content p)
       (generateMindMap env content p).
Proof.
  unfold generateMindMap. apply write_answer_unused. intros a b w. reflexivity.
Qed.

Lemma generateQuiz_same content p :
  same (generateQuiz (with_writer_answers answer env) content p)
       (generateQuiz env content p).
Proof.
  unfold generateQuiz. cbv zeta. apply write_answer_unused. intros a b w. reflexivity.
Qed.

End WriterAnswers.

Ltac same_go :=
  cbv zeta;
  lazymatch goal with
  | |- same (bind _ _) (bind _ _) => apply same_bind; [same_go | intros ?; same_go]
  | |- same (try_catch _ _) (try_catch _ _) =>
      apply same_try_catch; [same_go | intros ?; same_go]
  | |- same (generateMindMap _ _ _) _ => apply generateMindMap_same
  | |- same (generateQuiz _ _ _) _ => apply generateQuiz_same
  | |- same (generation_steps _ _ _ _ _) _ => unfold generation_steps; same_go
  | |- same (pipeline _ _ _ _ _) _ => unfold pipeline; same_go
  | |- same _ _ => intros ?; reflexivity
  end.

(** X16. What the writer answers is never read.  Replace the answers of
    the writer by any others, leaving alone whether its calls resolve: the
    run returns the same result, with the same map and the same questions,
    and leaves the same trace, progress entries and statistics. *)
Theorem writer_answers_are_never_read answer env content p opts w :
  processContent (with_writer_answers answer env) content p opts w =
  processContent env content p opts w.
Proof.
  revert w.
  change (same (processContent (with_writer_answers answer env) content p opts)
               (processContent env content p opts)).
  unfold processContent. same_go.
Qed.

(** ** The capability check *)

Lemma is_available_spec v :
  Capabilities.is_available v = true ↔
  v = Capabilities.str "readily" ∨ v = Capabilities.str "after-download".
Proof.
  destruct v as [|s|b]; simpl.
  - split; [discriminate|intros [H|H]; discriminate].
  - rewrite orb_true_iff, !String.eqb_eq.
    split; [intros [-> | ->]; auto|intros [H|H]; injection H as ->; auto].
  - split; [discriminate|intros [H|H]; discriminate].
Qed.

Lemma supports_getAPISupport h g :
  Capabilities.supports (Capabilities.getAPISupport h) g = Capabilities.defined (h g).
Proof. destruct g; reflexivity. Qed.

Lemma element_throws h g e :
  Capabilities.element h (Capabilities.getAPISupport h) g = inl e ↔
  Capabilities.defined (h g) = true ∧
  Capabilities.availability_call (h g) = Capabilities.throws_at_once e.
Proof.
  unfold Capabilities.element. rewrite supports_getAPISupport.
  destruct (Capabilities.defined (h g)).
  - destruct (Capabilities.availability_call (h g)); split;
      try discriminate; try (intros [_ H]; discriminate).
    + intros [= ->]. auto.
    + intros [_ [= ->]]. reflexivity.
  - split; [discriminate|]. intros [H _]. discriminate.
Qed.

Lemma elements_throw h s gs g e :
  In g gs → Capabilities.element h s g = inl e →
  ∃ e', Capabilities.elements h s gs = inl e'.
Proof.
  induction gs as [|g0 rest IH]; simpl; [contradiction|].
  intros [->|Hin] He.
  - rewrite He. eauto.
  - destruct (Capabilities.element h s g0); [eauto|].
    destruct (IH Hin He) as [e' ->]. eauto.
Qed.

Lemma elements_settle h s gs :
  (∀ g e, In g gs → Capabilities.element h s g ≠ inl e) →
  Capabilities.elements h s gs =
  inr (map (λ g, match Capabilities.element h s g with
                 | inr c => c
                 | inl e => Capabilities.rejected e
                 end) gs).
Proof.
  induction gs as [|g0 rest IH]; simpl; intros H; [reflexivity|].
  destruct (Capabilities.element h s g0) as [e|c] eqn:He.
  - exfalso. apply (H g0 e); auto.
  - rewrite IH; [reflexivity|]. intros g e Hin. apply H. auto.
Qed.

Lemma In_globals g : In g Capabilities.globals.
Proof. destruct g; simpl; auto 10. Qed.

Lemma unsupported_host_reports h g :
  existsb id (Capabilities.support_values (Capabilities.getAPISupport h)) = false →
  Capabilities.defined (h g) = false.
Proof.
  simpl. unfold Capabilities.isGlobalSupported, id. intros H.
  repeat (apply orb_false_iff in H as [? H]). destruct g; assumption.
Qed.

(** What one element of the array settles to when its call does not
    throw. *)
Lemma element_reported h g c :
  Capabilities.element h (Capabilities.getAPISupport h) g = inr c →
  match c with
  | Capabilities.fulfilled v => v
  | Capabilities.rejected _ => Capabilities.str "no"
  end = Capabilities.reported h g.
Proof.
  unfold Capabilities.element, Capabilities.reported. rewrite supports_getAPISupport.
  destruct (Capabilities.defined (h g)); [|intros [= <-]; reflexivity].
  destruct (Capabilities.availability_call (h g)); intros [= <-]; reflexivity.
Qed.

Lemma getResult_reported h i g :
  (∀ g' e, Capabilities.element h (Capabilities.getAPISupport h) g' ≠ inl e) →
  Capabilities.globals !! i = Some g →
  Capabilities.getResult
    (map (λ g, match Capabilities.element h (Capabilities.getAPISupport h) g with
               | inr c => c
               | inl e => Capabilities.rejected e
               end) Capabilities.globals) i = Capabilities.reported h g.
Proof.
  intros Hno Hi. unfold Capabilities.getResult.
  rewrite map_fmap, list_lookup_fmap, Hi. simpl.
  destruct (Capabilities.element h (Capabilities.getAPISupport h) g) as [e|c] eqn:He.
  - exfalso. exact (Hno g e He).
  - rewrite <- (element_reported h g c He). destruct c; reflexivity.
Qed.

(** The whole answer of the check when no call throws at once. *)
Lemma checkCapabilities_settled h :
  (∀ g e, Capabilities.defined (h g) = true →
          Capabilities.availability_call (h g) ≠ Capabilities.throws_at_once e) →
  Capabilities.checkCapabilities h =
  {| Capabilities.summarizer := Capabilities.reported h Capabilities.Summarizer;
     Capabilities.rewriter := Capabilities.reported h Capabilities.Rewriter;
     Capabilities.writer := Capabilities.reported h Capabilities.Writer;
     Capabilities.languageModel := Capabilities.reported h Capabilities.LanguageModel;
     Capabilities.proofreader := Capabilities.reported h Capabilities.Proofreader;
     Capabilities.translator := Capabilities.reported h Capabilities.Translator;
     Capabilities.languageDetector := Capabilities.reported h Capabilities.LanguageDetector;
     Capabilities.overall :=
       existsb Capabilities.is_available
         (map (Capabilities.reported h) Capabilities.globals) |}.
Proof.
  intros Hno.
  assert (Hel : ∀ g e, Capabilities.element h (Capabilities.getAPISupport h) g ≠ inl e).
  { intros g e He. apply element_throws in He as [Hd Hc]. exact (Hno g e Hd Hc). }
  unfold Capabilities.checkCapabilities. cbv zeta.
  destruct (existsb id _) eqn:Hany; cbn [negb].
  - rewrite elements_settle by (intros g e _; apply Hel).
    cbn [Capabilities.summarizer Capabilities.rewriter Capabilities.writer
         Capabilities.languageModel Capabilities.proofreader Capabilities.translator
         Capabilities.languageDetector Capabilities.capability_values].
    rewrite !(getResult_reported h _ _ Hel) by reflexivity.
    reflexivity.
  - assert (Hall : ∀ g, Capabilities.reported h g = Capabilities.str "no").
    { intros g. unfold Capabilities.reported.
      rewrite (unsupported_host_reports h g Hany). reflexivity. }
    cbn [map Capabilities.globals]. rewrite !Hall. reflexivity.
Qed.

(** The check gives up as soon as one element throws. *)
Lemma checkCapabilities_caught h e :
  Capabilities.elements h (Capabilities.getAPISupport h) Capabilities.globals = inl e →
  Capabilities.checkCapabilities h = Capabilities.none_available.
Proof.
  intros He. unfold Capabilities.checkCapabilities. cbv zeta. rewrite He.
  destruct (negb _); reflexivity.
Qed.

(** X17. When no call of [availability] throws at once, the check reports
    for every global object what that object answers: the resolved value as
    it is, whatever it is; [undefined] when the member is missing; and [no]
    when the promise rejects or the global object is not defined. *)
Theorem capabilities_report_each_answer h g :
  (∀ g' e, Capabilities.defined (h g') = true →
           Capabilities.availability_call (h g') ≠ Capabilities.throws_at_once e) →
  Capabilities.status_of (Capabilities.checkCapabilities h) g = Capabilities.reported h g.
Proof.
  intros Hno. rewrite (checkCapabilities_settled h Hno).
  destruct g; reflexivity.
Qed.

Lemma capabilities_report_each_answer_witness :
  (∀ g' e, Capabilities.defined (Capabilities.summarizer_only g') = true →
           Capabilities.availability_call (Capabilities.summarizer_only g') ≠
           Capabilities.throws_at_once e) ∧
  Capabilities.status_of (Capabilities.checkCapabilities Capabilities.summarizer_only)
    Capabilities.Summarizer =
  Capabilities.reported Capabilities.summarizer_only Capabilities.Summarizer.
Proof.
  assert (H : ∀ g' e, Capabilities.defined (Capabilities.summarizer_only g') = true →
           Capabilities.availability_call (Capabilities.summarizer_only g') ≠
           Capabilities.throws_at_once e)
    by (intros [] e; simpl; discriminate).
  split; [exact H|].
  exact (capabilities_report_each_answer Capabilities.summarizer_only
           Capabilities.Summarizer H).
Defined.

(** X18. One call that throws at once hides every other answer: when the
    [availability] member of a global object that is defined throws at
    once, the check reports [no] for all seven objects and [overall] is
    false, whatever the other objects would have answered. *)
Theorem one_throwing_global_hides_the_others h g e :
  Capabilities.defined (h g) = true →
  Capabilities.availability_call (h g) = Capabilities.throws_at_once e →
  Capabilities.checkCapabilities h = Capabilities.none_available.
Proof.
  intros Hd Hc.
  destruct (elements_throw h (Capabilities.getAPISupport h) Capabilities.globals g e
              (In_globals g)) as [e' He'].
  - apply element_throws. auto.
  - exact (checkCapabilities_caught h e' He').
Qed.

Lemma one_throwing_global_hides_the_others_witness :
  Capabilities.defined (Capabilities.broken_translator Capabilities.Translator) = true ∧
  Capabilities.availability_call (Capabilities.broken_translator Capabilities.Translator) =
    Capabilities.throws_at_once (JsError "TypeError" "not a function") ∧
  Capabilities.checkCapabilities Capabilities.broken_translator =
    Capabilities.none_available.
Proof.
  split; [reflexivity|]. split; [reflexivity|].
  apply (one_throwing_global_hides_the_others Capabilities.broken_translator
           Capabilities.Translator (JsError "TypeError" "not a function"));
    reflexivity.
Defined.

(** X19. The [overall] flag of the check is set exactly when no call
    throws at once and some global object that is defined resolves its
    [availability] to one of the two strings [readily] and
    [after-download]. *)
Theorem overall_needs_a_usable_model h :
  Capabilities.overall (Capabilities.checkCapabilities h) = true ↔
  (∀ g e, Capabilities.defined (h g) = true →
          Capabilities.availability_call (h g) ≠ Capabilities.throws_at_once e) ∧
  ∃ g, Capabilities.defined (h g) = true ∧
       (Capabilities.availability_call (h g) =
          Capabilities.resolves (Capabilities.str "readily") ∨
        Capabilities.availability_call (h g) =
          Capabilities.resolves (Capabilities.str "after-download")).
Proof.
  assert (Husable : ∀ g,
            Capabilities.is_available (Capabilities.reported h g) = true ↔
            Capabilities.defined (h g) = true ∧
            (Capabilities.availability_call (h g) =
               Capabilities.resolves (Capabilities.str "readily") ∨
             Capabilities.availability_call (h g) =
               Capabilities.resolves (Capabilities.str "after-download"))).
  { intros g. rewrite is_available_spec. unfold Capabilities.reported.
    destruct (Capabilities.defined (h g)).
    - destruct (Capabilities.availability_call (h g)); split;
        try (intros [H|H]; discriminate); try (intros [_ [H|H]]; discriminate).
      + intros [-> | ->]; auto.
      + intros [_ [[= ->] | [= ->]]]; auto.
    - split; [intros [H|H]; discriminate|intros [H _]; discriminate]. }
  split.
  - intros Hov.
    assert (Hno : ∀ g e, Capabilities.defined (h g) = true →
              Capabilities.availability_call (h g) ≠ Capabilities.throws_at_once e).
    { intros g e Hd Hc.
      destruct (elements_throw h (Capabilities.getAPISupport h) Capabilities.globals g e
                  (In_globals g)) as [e' He']; [apply element_throws; auto|].
      rewrite (checkCapabilities_caught h e' He') in Hov. discriminate. }
    split; [exact Hno|].
    rewrite (checkCapabilities_settled h Hno) in Hov. cbn [Capabilities.overall] in Hov.
    apply existsb_exists in Hov as (v & Hv & Hav).
    apply in_map_iff in Hv as (g & <- & _).
    exists g. apply Husable. exact Hav.
  - intros [Hno (g & Hg)].
    rewrite (checkCapabilities_settled h Hno). cbn [Capabilities.overall].
    apply existsb_exists. exists (Capabilities.reported h g).
    split; [apply in_map, In_globals|]. apply Husable. exact Hg.
Qed.

(** ** The session store *)

Section StoreFacts.

Variable browser : Storage.Browser.

Lemma findIndex_Some id sessions i :
  Storage.findIndex id sessions = Some i →
  (∃ s, sessions !! i = Some s ∧ Storage.sd_id s = id) ∧
  ∀ j s, j < i → sessions !! j = Some s → Storage.sd_id s ≠ id.
Proof.
  revert i. induction sessions as [|s rest IH]; intros i; simpl; [discriminate|].
  destruct (String.eqb_spec (Storage.sd_id s) id) as [Heq|Hne].
  - intros [= <-]. split; [eauto|]. intros j s' Hj. lia.
  - destruct (Storage.findIndex id rest) as [i'|]; [|discriminate].
    intros [= <-]. destruct (IH i' eq_refl) as [Hs Hbefore]. split; [exact Hs|].
    intros [|j] s' Hj; simpl.
    + intros [= <-]. exact Hne.
    + apply Hbefore. lia.
Qed.

Lemma findIndex_None id sessions :
  Storage.findIndex id sessions = None ↔
  Forall (λ s, Storage.sd_id s ≠ id) sessions.
Proof.
  induction sessions as [|s rest IH]; simpl.
  { split; [intros _; constructor|reflexivity]. }
  destruct (String.eqb_spec (Storage.sd_id s) id) as [Heq|Hne].
  - split; [discriminate|]. intros H. inversion H. contradiction.
  - destruct (Storage.findIndex id rest); simpl.
    + split; [discriminate|]. intros H. inversion H as [|? ? _ Hr].
      apply IH in Hr. discriminate.
    + split; [|reflexivity]. intros _. constructor; [assumption|]. apply IH. reflexivity.
Qed.

Lemma find_by_id_insert id sessions i session :
  Storage.findIndex id sessions = Some i → Storage.sd_id session = id →
  List.find (λ s, String.eqb (Storage.sd_id s) id) (<[i := session]> sessions) =
  Some session.
Proof.
  revert i. induction sessions as [|s rest IH]; intros i; simpl; [discriminate|].
  intros Hi Hid. destruct (String.eqb_spec (Storage.sd_id s) id) as [Heq|Hne].
  - injection Hi as <-. simpl. rewrite Hid, String.eqb_refl. reflexivity.
  - destruct (Storage.findIndex id rest) as [i'|]; [|discriminate].
    injection Hi as <-. simpl.
    destruct (String.eqb_spec (Storage.sd_id s) id); [contradiction|].
    apply IH; [reflexivity|assumption].
Qed.

Lemma getAllSessions_json sessions :
  Storage.isAvailable browser = true →
  Storage.getAllSessions browser (Storage.json sessions) = sessions.
Proof. unfold Storage.getAllSessions. intros ->. reflexivity. Qed.

Lemma saveSession_stored session item :
  (Storage.saveSession browser session item).1 = true →
  Storage.isAvailable browser = true ∧
  (Storage.saveSession browser session item).2 =
    Storage.json
      match Storage.findIndex (Storage.sd_id session)
              (Storage.getAllSessions browser item) with
      | Some i => <[i := session]> (Storage.getAllSessions browser item)
      | None => take Storage.MAX_SESSIONS (session :: Storage.getAllSessions browser item)
      end.
Proof.
  unfold Storage.saveSession, Storage.setItem.
  destruct (Storage.isAvailable browser); simpl; [|discriminate].
  destruct (Storage.accepts browser _); simpl; [auto|discriminate].
Qed.

(** X20. A session that has been saved is found again under its id: when
    [saveSession] reports success, [getSession] finds under the id of the
    session a session with this id and with the time stamp, the title, the
    content, the preferences and, when it has materials, the summary and
    the adapted text that were saved, whether the session replaced an
    earlier one or was added.  These members are text and whole numbers;
    nothing is stated about the other members of the materials. *)
Theorem saved_session_is_read_back session item :
  (Storage.saveSession browser session item).1 = true →
  ∃ found,
    Storage.getSession browser (Storage.sd_id session)
      (Storage.saveSession browser session item).2 = Some found ∧
    Storage.sd_id found = Storage.sd_id session ∧
    Storage.sd_timestamp found = Storage.sd_timestamp session ∧
    Storage.sd_title found = Storage.sd_title session ∧
    Storage.sd_content found = Storage.sd_content session ∧
    Storage.sd_preferences found = Storage.sd_preferences session ∧
    Storage.st_summary <$> Storage.sd_materials found =
      Storage.st_summary <$> Storage.sd_materials session ∧
    Storage.st_adaptedContent <$> Storage.sd_materials found =
      Storage.st_adaptedContent <$> Storage.sd_materials session.
Proof.
  intros Hok. destruct (saveSession_stored session item Hok) as [Hav ->].
  exists session. split; [|repeat split].
  unfold Storage.getSession. rewrite (getAllSessions_json _ Hav).
  destruct (Storage.findIndex _ _) as [i|] eqn:Hi.
  - apply find_by_id_insert; [exact Hi|reflexivity].
  - simpl. rewrite String.eqb_refl. reflexivity.
Qed.

(** X21. Saving keeps the store in order: after a successful
    [saveSession] the store holds at most ten sessions if it held at most
    ten before, and no two of them share an id if no two did before.  A
    session saved under an id that is already stored takes the place of the
    earlier one, so the ids are stored in the same order as before; a
    session with a new id is put first, and of eleven the last is dropped. *)
Theorem saving_keeps_the_store_in_order session item :
  (Storage.saveSession browser session item).1 = true →
  let before := Storage.getAllSessions browser item in
  let after := Storage.getAllSessions browser (Storage.saveSession browser session item).2 in
  (length before ≤ Storage.MAX_SESSIONS → length after ≤ Storage.MAX_SESSIONS) ∧
  (NoDup (map Storage.sd_id before) → NoDup (map Storage.sd_id after)) ∧
  (In (Storage.sd_id session) (map Storage.sd_id before) →
   map Storage.sd_id after = map Storage.sd_id before) ∧
  (¬ In (Storage.sd_id session) (map Storage.sd_id before) →
   after = session :: take (Storage.MAX_SESSIONS - 1) before).
Proof.
  intros Hok. cbv zeta. destruct (saveSession_stored session item Hok) as [Hav ->].
  rewrite (getAllSessions_json _ Hav).
  set (before := Storage.getAllSessions browser item).
  destruct (Storage.findIndex (Storage.sd_id session) before) as [i|] eqn:Hi.
  - destruct (findIndex_Some _ _ _ Hi) as [(s & Hs & Hid) _].
    assert (Hids : map Storage.sd_id (<[i := session]> before) = map Storage.sd_id before).
    { rewrite !map_fmap, list_fmap_insert. apply list_insert_id.
      rewrite list_lookup_fmap, Hs. simpl. congruence. }
    split; [rewrite length_insert; auto|]. split; [rewrite Hids; auto|].
    split; [auto|]. intros Hnew. exfalso. apply Hnew.
    rewrite <- Hid. apply in_map. apply list_elem_of_In. eapply list_elem_of_lookup_2. exact Hs.
  - apply findIndex_None in Hi.
    assert (Hnew : ¬ In (Storage.sd_id session) (map Storage.sd_id before)).
    { intros Hin. apply in_map_iff in Hin as (s & Hs & Hin).
      rewrite Forall_forall in Hi. apply (Hi s); [apply list_elem_of_In|]; assumption. }
    split; [intros _; rewrite length_take; unfold Storage.MAX_SESSIONS; lia|].
    split.
    + intros Hnd. rewrite map_fmap, fmap_take.
      eapply sublist_NoDup; [|apply sublist_take].
      rewrite <- map_fmap. simpl. constructor; [|exact Hnd].
      intros Hin. apply Hnew, list_elem_of_In, Hin.
    + split; [contradiction|]. intros _. reflexivity.
Qed.

(** X22. Deleting removes one id and nothing else: after a successful
    [deleteSession] no session is found under the deleted id, and under
    every other id [getSession] finds what it found before. *)
Theorem deleting_removes_one_id id id' item :
  (Storage.deleteSession browser id item).1 = true →
  let item' := (Storage.deleteSession browser id item).2 in
  Storage.getSession browser id item' = None ∧
  (id' ≠ id → Storage.getSession browser id' item' = Storage.getSession browser id' item).
Proof.
  unfold Storage.deleteSession, Storage.setItem, Storage.getSession.
  destruct (Storage.isAvailable browser) eqn:Hav; simpl; [|discriminate].
  destruct (Storage.accepts browser _); simpl; [|discriminate].
  intros _. rewrite !(getAllSessions_json _ Hav).
  generalize (Storage.getAllSessions browser item). intros sessions.
  split.
  - induction sessions as [|s rest IH]; simpl; [reflexivity|].
    destruct (String.eqb (Storage.sd_id s) id) eqn:Hs; simpl; [exact IH|].
    rewrite Hs. exact IH.
  - intros Hne. induction sessions as [|s rest IH]; simpl; [reflexivity|].
    destruct (String.eqb_spec (Storage.sd_id s) id) as [Hs|Hs]; simpl.
    + destruct (String.eqb_spec (Storage.sd_id s) id'); [congruence|exact IH].
    + destruct (String.eqb (Storage.sd_id s) id'); [reflexivity|exact IH].
Qed.

End StoreFacts.

Lemma saved_session_is_read_back_witness :
  (Storage.saveSession Storage.roomy (Storage.session_of "s1" "Plants make food")
     Storage.two_sessions).1 = true ∧
  ∃ found,
    Storage.getSession Storage.roomy
      (Storage.sd_id (Storage.session_of "s1" "Plants make food"))
      (Storage.saveSession Storage.roomy (Storage.session_of "s1" "Plants make food")
         Storage.two_sessions).2 = Some found ∧
    Storage.sd_id found = Storage.sd_id (Storage.session_of "s1" "Plants make food") ∧
    Storage.sd_timestamp found =
      Storage.sd_timestamp (Storage.session_of "s1" "Plants make food") ∧
    Storage.sd_title found = Storage.sd_title (Storage.session_of "s1" "Plants make food") ∧
    Storage.sd_content found =
      Storage.sd_content (Storage.session_of "s1" "Plants make food") ∧
    Storage.sd_preferences found =
      Storage.sd_preferences (Storage.session_of "s1" "Plants make food") ∧
    Storage.st_summary <$> Storage.sd_materials found =
      Storage.st_summary <$>
        Storage.sd_materials (Storage.session_of "s1" "Plants make food") ∧
    Storage.st_adaptedContent <$> Storage.sd_materials found =
      Storage.st_adaptedContent <$>
        Storage.sd_materials (Storage.session_of "s1" "Plants make food").
Proof.
  split; [reflexivity|].
  apply (saved_session_is_read_back Storage.roomy
           (Storage.session_of "s1" "Plants make food") Storage.two_sessions).
  reflexivity.
Defined.

Lemma saving_keeps_the_store_in_order_witness :
  (Storage.saveSession Storage.roomy (Storage.session_of "s3" "Oxygen is released")
     Storage.two_sessions).1 = true ∧
  let session := Storage.session_of "s3" "Oxygen is released" in
  let before := Storage.getAllSessions Storage.roomy Storage.two_sessions in
  let after :=
    Storage.getAllSessions Storage.roomy
      (Storage.saveSession Storage.roomy session Storage.two_sessions).2 in
  (length before ≤ Storage.MAX_SESSIONS → length after ≤ Storage.MAX_SESSIONS) ∧
  (NoDup (map Storage.sd_id before) → NoDup (map Storage.sd_id after)) ∧
  (In (Storage.sd_id session) (map Storage.sd_id before) →
   map Storage.sd_id after = map Storage.sd_id before) ∧
  (¬ In (Storage.sd_id session) (map Storage.sd_id before) →
   after = session :: take (Storage.MAX_SESSIONS - 1) before).
Proof.
  split; [reflexivity|].
  apply (saving_keeps_the_store_in_order Storage.roomy
           (Storage.session_of "s3" "Oxygen is released") Storage.two_sessions).
  reflexivity.
Defined.

Lemma deleting_removes_one_id_witness :
  (Storage.deleteSession Storage.roomy "s2" Storage.two_sessions).1 = true ∧
  let item' := (Storage.deleteSession Storage.roomy "s2" Storage.two_sessions).2 in
  Storage.getSession Storage.roomy "s2" item' = None ∧
  ("s1" ≠ "s2" →
   Storage.getSession Storage.roomy "s1" item' =
   Storage.getSession Storage.roomy "s1" Storage.two_sessions).
Proof.
  split; [reflexivity|].
  apply (deleting_removes_one_id Storage.roomy "s2" "s1" Storage.two_sessions).
  reflexivity.
Defined.

(** ** The title of a session *)

Lemma split_runs_go_head sep s cur :
  cur ≠ EmptyString →
  ∃ w rest, JS.split_runs_go sep s cur false = w :: rest ∧ w ≠ EmptyString.
Proof.
  revert cur. induction s as [|c t IH]; intros cur Hcur; simpl; [eauto|].
  destruct (sep c); [eauto|].
  apply IH. destruct cur; discriminate.
Qed.

Lemma trim_head s :
  JS.trim s ≠ EmptyString → ∃ c t, JS.trim s = String c t ∧ JS.is_space c = false.
Proof.
  unfold JS.trim. pose proof (drop_while_head JS.is_space s) as Hh.
  destruct (JS.drop_while JS.is_space s) as [|c t]; [contradiction|].
  intros _. destruct (drop_while_end_head JS.is_space c t Hh) as [t' ->]. eauto.
Qed.

Lemma length_append a b : String.length (a +:+ b) = String.length a + String.length b.
Proof.
  induction a as [|c a IH]; [reflexivity|]. rewrite append_cons. simpl. rewrite IH. reflexivity.
Qed.

Lemma length_substring0 n s :
  String.length (JS.substring0 n s) = Nat.min n (String.length s).
Proof.
  unfold JS.substring0. revert n. induction s as [|c s IH]; intros [|n]; simpl; auto.
Qed.

Lemma join_head sep w rest : w ≠ EmptyString → JS.join sep (w :: rest) ≠ EmptyString.
Proof.
  intros Hw. simpl. destruct rest; [exact Hw|].
  destruct w; [contradiction|]. rewrite append_cons. discriminate.
Qed.

(** X23. The title of a session is never empty.  For a content that is
    not blank and a limit of at least three characters it is no longer than
    the limit: it is made of the first eight words, cut to the limit with
    three dots in place of its end when it is too long.  A blank content is
    titled [Untitled Session], which is longer than a limit below sixteen. *)
Theorem session_title_fits content maxLength :
  let title := Storage.generateSessionTitle content maxLength in
  title ≠ EmptyString ∧
  (JS.trim content = EmptyString → (0 ≤ maxLength)%Z → title = "Untitled Session") ∧
  (JS.trim content ≠ EmptyString → (3 ≤ maxLength)%Z →
   (Z.of_nat (String.length title) ≤ maxLength)%Z).
Proof.
  cbv zeta. unfold Storage.generateSessionTitle. cbv zeta.
  set (title0 := JS.join " " (take 8 (JS.split_runs JS.is_space (JS.trim content)))).
  split; [|split].
  - destruct (String.eqb_spec
                (if (maxLength <? Z.of_nat (String.length title0))%Z
                 then JS.substring0 (Z.to_nat (maxLength - 3)) title0 +:+ "..."
                 else title0) EmptyString); [discriminate|assumption].
  - intros Hblank Hmax. unfold title0. rewrite Hblank. simpl.
    change (Z.of_nat 0) with 0%Z.
    destruct (Z.ltb_spec maxLength 0); [lia|reflexivity].
  - intros Hnb Hmax.
    assert (Hne : title0 ≠ EmptyString).
    { destruct (trim_head content Hnb) as (c & t & Ht & Hc).
      unfold title0. rewrite Ht. unfold JS.split_runs. simpl. rewrite Hc.
      destruct (split_runs_go_head JS.is_space t (EmptyString +:+ String c EmptyString))
        as (w & rest & -> & Hw); [discriminate|].
      simpl take. apply join_head, Hw. }
    destruct (Z.ltb_spec maxLength (Z.of_nat (String.length title0))) as [Hlong|Hshort].
    + assert (Hlen : String.length (JS.substring0 (Z.to_nat (maxLength - 3)) title0 +:+ "...")
                     = Z.to_nat maxLength).
      { rewrite length_append, length_substring0. simpl. lia. }
      destruct (String.eqb_spec (JS.substring0 (Z.to_nat (maxLength - 3)) title0 +:+ "...")
                  EmptyString) as [Heq|_].
      * rewrite Heq in Hlen. simpl in Hlen. lia.
      * rewrite Hlen. lia.
    + destruct (String.eqb_spec title0 EmptyString); [contradiction|lia].
Qed.

Example session_title_examples :
  Storage.generateSessionTitle sample_text 50 =
    "Plants make food from sunlight. Leaves take in" ∧
  Storage.generateSessionTitle sample_text 20 = "Plants make food ..." ∧
  Storage.generateSessionTitle "  Plants make food " 50 = "Plants make food" ∧
  Storage.generateSessionTitle "   " 10 = "Untitled Session" ∧
  Storage.generateSessionTitle "Plants" 2 = "...".
Proof. vm_compute. repeat split. Qed.

(** ** The times of a run *)

#[global] Instance steady_preorder : PreOrder steady.
Proof.
  split; [intros w; split; [lia|reflexivity]|].
  intros w1 w2 w3 [? E1] [? E2]. split; [lia|congruence].
Qed.

Section Clock.

Variable env : Env.

Lemma transformWith_steady k input opts : preserves steady (transformWith env k input opts).
Proof.
  intros w. destruct (transformWith_run env k input opts w)
    as (seg & used & _ & _ & _ & _ & _ & _ & _ & _ & Hs & Ht & _).
  split; [lia|congruence].
Qed.

Lemma updateProgress_steady cb s st n msg :
  preserves steady (updateProgress env cb s st n msg).
Proof.
  intros w. destruct cb as [[]|]; [destruct st|]; simpl; (split; [simpl; lia|reflexivity]).
Qed.

Lemma caller_turn_steady opts k : preserves steady (caller_turn env opts k).
Proof.
  intros w. unfold caller_turn, abort, bind, modify, ret.
  destruct (signal opts); [case_decide|]; case_decide; simpl; (split; [simpl; lia|reflexivity]).
Qed.

Lemma validate_steady content : preserves steady (validate content).
Proof.
  intros w. unfold validate. destruct (TextValidator.validate _ _).
  split; [simpl; lia|reflexivity].
Qed.

Lemma Date_now_run w t w' :
  Date_now env w = (inr t, w') →
  t = clock env (ticks w) ∧ ticks w' = S (ticks w) ∧
  stepTimes (run_stats w') = stepTimes (run_stats w).
Proof. intros [= <- <-]. repeat split. Qed.

Lemma set_stepTime_run name ms w u w' :
  set_stepTime name ms w = (inr u, w') →
  ticks w' = ticks w ∧
  stepTimes (run_stats w') = <[name := ms]> (stepTimes (run_stats w)).
Proof. intros [= _ <-]. split; reflexivity. Qed.

End Clock.

Ltac clocked :=
  cbv zeta;
  lazymatch goal with
  | |- preserves _ (bind _ _) => apply preserves_bind; [apply _ | clocked | intros ?; clocked]
  | |- preserves _ (ret _) => apply preserves_ret; apply _
  | |- preserves _ (throw _) => apply preserves_throw; apply _
  | |- preserves _ (if ?b then _ else _) => destruct b; clocked
  | |- preserves _ (updateProgress _ _ _ _ _ _) => apply updateProgress_steady
  | |- preserves _ (caller_turn _ _ _) => apply caller_turn_steady
  | |- preserves _ (validate _) => apply validate_steady
  | |- preserves _ (summarize _ _ _) => apply transformWith_steady
  | |- preserves _ (rewrite _ _ _) => apply transformWith_steady
  | |- preserves _ (write _ _ _) => apply transformWith_steady
  | |- preserves _ (generateSummary _ _ _) => unfold generateSummary; clocked
  | |- preserves _ (adaptContentForGrade _ _ _) => unfold adaptContentForGrade; clocked
  | |- preserves _ (generateMindMap _ _ _) => unfold generateMindMap; clocked
  | |- preserves _ (generateAudioLesson _ _ _) => unfold generateAudioLesson; clocked
  | |- preserves _ (generateQuiz _ _ _) => unfold generateQuiz; clocked
  | |- preserves _ (validation_step _ _ _) => unfold validation_step; clocked
  | |- preserves steady _ => intros ?; split; [simpl; lia|reflexivity]
  end.

Lemma step_steady {A} (m : M A) w a w' :
  preserves steady m → m w = (inr a, w') →
  ticks w ≤ ticks w' ∧ stepTimes (run_stats w') = stepTimes (run_stats w).
Proof. intros Hm H. specialize (Hm w). rewrite H in Hm. exact Hm. Qed.

(** The readings of the clock in a complete run: the two around each of
    the five timed stages, and the three at the end that give the
    processing time of the materials, their date, and the total time. *)
Lemma generation_steps_readings env t content p opts w r w' :
  generation_steps env t content p opts w = (inr r, w') →
  ∃ mt i a1 b1 a2 b2 a3 b3 a4 b4 a5 b5,
    materials r = Some mt ∧
    (ticks w ≤ a1 ∧ a1 ≤ b1 ∧ b1 ≤ a2 ∧ a2 ≤ b2 ∧ b2 ≤ a3 ∧ a3 ≤ b3 ∧
     b3 ≤ a4 ∧ a4 ≤ b4 ∧ b4 ≤ a5 ∧ a5 ≤ b5 ∧ b5 ≤ i) ∧
    stepTimes (stats r) =
      <["creating_quiz" := (clock env b5 - clock env a5)%Z]>
        (<["generating_audio" := (clock env b4 - clock env a4)%Z]>
           (<["creating_mindmap" := (clock env b3 - clock env a3)%Z]>
              (<["adapting" := (clock env b2 - clock env a2)%Z]>
                 (<["summarizing" := (clock env b1 - clock env a1)%Z]>
                    (stepTimes (run_stats w)))))) ∧
    gm_processingTime mt = (clock env i - t)%Z ∧
    gm_generatedAt mt = clock env (S i) ∧
    totalTime (stats r) = (clock env (S (S i)) - t)%Z.
Proof.
  unfold generation_steps. cbv zeta. intros H.
  repeat (apply bind_inr in H; destruct H as (? & ? & ?Hstep & H)).
  injection H as <- <-.
  match goal with Hg : get _ = _ |- _ => injection Hg as <- <- end.
  match goal with
  | H3 : Date_now env ?c = (inr ?tt, ?d),
    Hm : modify _ ?d = (inr _, ?e),
    Hu : updateProgress _ _ _ _ _ _ ?e = (inr _, ?f) |- _ =>
      assert (Htotal : totalTime (run_stats f) = (tt - t)%Z);
      [ destruct (updateProgress_run env (onProgress opts) "finalizing" completed 100
                    "Learning materials ready!" e)
          as (? & ? & Hq & _ & _ & _ & _ & _ & Hrs & _);
        rewrite Hu in Hq; injection Hq as _ <-;
        injection Hm as _ <-; rewrite Hrs; reflexivity |]
  end.
  repeat match goal with
  | Hs : Date_now env _ = (inr _, _) |- _ =>
      apply Date_now_run in Hs; destruct Hs as (-> & ? & ?)
  | Hs : set_stepTime _ _ _ = (inr _, _) |- _ =>
      apply set_stepTime_run in Hs; destruct Hs as (? & ?)
  | Hs : ?m ?x = (inr _, ?y) |- _ =>
      eapply (step_steady m x _ y) in Hs; [destruct Hs as (? & ?)|clocked]
  end.
  match goal with
  | _ : stepTimes _ = <["summarizing" := (clock env ?b1 - clock env ?a1)%Z]> _,
    _ : stepTimes _ = <["adapting" := (clock env ?b2 - clock env ?a2)%Z]> _,
    _ : stepTimes _ = <["creating_mindmap" := (clock env ?b3 - clock env ?a3)%Z]> _,
    _ : stepTimes _ = <["generating_audio" := (clock env ?b4 - clock env ?a4)%Z]> _,
    _ : stepTimes _ = <["creating_quiz" := (clock env ?b5 - clock env ?a5)%Z]> _,
    _ : ticks ?c = S ?i, _ : ticks ?d = S (ticks ?c),
    _ : totalTime _ = (clock env (ticks ?d) - t)%Z |- _ =>
      eexists _, i, a1, b1, a2, b2, a3, b3, a4, b4, a5, b5
  end.
  split; [reflexivity|]. split; [lia|]. simpl.
  split; [congruence|]. split; [reflexivity|]. split; congruence.
Qed.

Lemma successful_run_readings env content p opts w r w' :
  processContent env content p opts w = (inr r, w') →
  success r = true →
  ∃ mt i a1 b1 a2 b2 a3 b3 a4 b4 a5 b5,
    materials r = Some mt ∧
    (ticks w < a1 ∧ a1 ≤ b1 ∧ b1 ≤ a2 ∧ a2 ≤ b2 ∧ b2 ≤ a3 ∧ a3 ≤ b3 ∧
     b3 ≤ a4 ∧ a4 ≤ b4 ∧ b4 ≤ a5 ∧ a5 ≤ b5 ∧ b5 ≤ i) ∧
    stepTimes (stats r) =
      step_times (clock env b1 - clock env a1) (clock env b2 - clock env a2)
                 (clock env b3 - clock env a3) (clock env b4 - clock env a4)
                 (clock env b5 - clock env a5) ∧
    gm_processingTime mt = (clock env i - clock env (ticks w))%Z ∧
    gm_generatedAt mt = clock env (S i) ∧
    totalTime (stats r) = (clock env (S (S i)) - clock env (ticks w))%Z.
Proof.
  intros H Hs. apply processContent_success in H; [|assumption].
  unfold pipeline in H.
  apply bind_inr in H as ([] & w1 & H1 & H). injection H1 as <-.
  apply bind_inr in H as ([] & w2 & H2 & H).
  assert (Hw2 : steady (set_controller (Some false) (entered w)) w2).
  { apply (step_steady (if validation_enabled opts
                        then validation_step env content opts else ret tt)
             (set_controller (Some false) (entered w)) tt w2); [|exact H2].
    destruct (validation_enabled opts); clocked. }
  destruct Hw2 as [Hticks Hstats]. simpl in Hticks, Hstats.
  apply generation_steps_readings in H
    as (mt & i & a1 & b1 & a2 & b2 & a3 & b3 & a4 & b4 & a5 & b5 &
        Hm & Hord & Hst & Hp & Hg & Ht).
  exists mt, i, a1, b1, a2, b2, a3, b3, a4, b4, a5, b5.
  split; [exact Hm|]. split; [lia|]. rewrite Hst, Hstats.
  split; [reflexivity|]. auto.
Qed.

(** X24. The times of a successful run are three readings of the clock
    taken one after another: the processing time of the materials is the
    first of them less the start of the run, the date of the materials is
    the second, and the total time of the statistics is the third less the
    start.  So on a clock that never goes back the processing time is not
    negative and not above the total time. *)
Theorem total_time_is_read_after_processing_time env content p opts w r w' :
  monotone_clock env →
  processContent env content p opts w = (inr r, w') →
  success r = true →
  ∃ mt i, materials r = Some mt ∧ ticks w < i ∧
    gm_processingTime mt = (clock env i - clock env (ticks w))%Z ∧
    gm_generatedAt mt = clock env (S i) ∧
    totalTime (stats r) = (clock env (S (S i)) - clock env (ticks w))%Z ∧
    (0 ≤ gm_processingTime mt ≤ totalTime (stats r))%Z.
Proof.
  intros Hmono H Hs.
  destruct (successful_run_readings env content p opts w r w' H Hs)
    as (mt & i & a1 & b1 & a2 & b2 & a3 & b3 & a4 & b4 & a5 & b5 &
        Hm & Hord & _ & Hp & Hg & Ht).
  exists mt, i.
  split; [exact Hm|]. split; [lia|]. split; [exact Hp|]. split; [exact Hg|].
  split; [exact Ht|]. rewrite Hp, Ht.
  pose proof (Hmono (ticks w) i ltac:(lia)). pose proof (Hmono i (S (S i)) ltac:(lia)). lia.
Qed.

Lemma ok_env_clock_is_monotone : monotone_clock ok_env.
Proof. intros i j Hij. simpl. lia. Qed.

Lemma total_time_is_read_after_processing_time_witness :
  ∃ r w',
    monotone_clock ok_env ∧
    processContent ok_env sample_text prefs7 default_options world0 = (inr r, w') ∧
    success r = true ∧
    ∃ mt i, materials r = Some mt ∧ ticks world0 < i ∧
      gm_processingTime mt = (clock ok_env i - clock ok_env (ticks world0))%Z ∧
      gm_generatedAt mt = clock ok_env (S i) ∧
      totalTime (stats r) = (clock ok_env (S (S i)) - clock ok_env (ticks world0))%Z ∧
      (0 ≤ gm_processingTime mt ≤ totalTime (stats r))%Z.
Proof.
  eexists _, _. split; [exact ok_env_clock_is_monotone|].
  split; [vm_compute; reflexivity|]. split; [reflexivity|].
  eapply (total_time_is_read_after_processing_time ok_env sample_text prefs7
            default_options world0);
    [exact ok_env_clock_is_monotone | vm_compute; reflexivity | reflexivity].
Defined.

(** X25. A successful run times exactly five stages, the ones that
    generate something: summarizing, adapting, creating the mind map,
    generating the audio and creating the quiz; the validation and the
    finalizing are not timed.  Each step time is the difference of two
    readings of the clock, and the stages are timed one after another
    inside the run: on a clock that never goes back no step time is
    negative and the five together do not exceed the total time. *)
Theorem step_times_add_up_to_the_total_at_most env content p opts w r w' :
  monotone_clock env →
  processContent env content p opts w = (inr r, w') →
  success r = true →
  ∃ d1 d2 d3 d4 d5,
    stepTimes (stats r) = step_times d1 d2 d3 d4 d5 ∧
    dom (stepTimes (stats r)) =
      ({["summarizing"; "adapting"; "creating_mindmap"; "generating_audio";
         "creating_quiz"]} : gset string) ∧
    (0 ≤ d1 ∧ 0 ≤ d2 ∧ 0 ≤ d3 ∧ 0 ≤ d4 ∧ 0 ≤ d5 ∧
     d1 + d2 + d3 + d4 + d5 ≤ totalTime (stats r))%Z.
Proof.
  intros Hmono H Hs.
  destruct (successful_run_readings env content p opts w r w' H Hs)
    as (mt & i & a1 & b1 & a2 & b2 & a3 & b3 & a4 & b4 & a5 & b5 &
        Hm & Hord & Hst & Hp & Hg & Ht).
  eexists _, _, _, _, _. split; [exact Hst|]. split.
  - rewrite Hst. unfold step_times. rewrite !dom_insert_L, dom_empty_L. set_solver.
  - rewrite Ht.
    pose proof (Hmono (ticks w) a1 ltac:(lia)). pose proof (Hmono a1 b1 ltac:(lia)).
    pose proof (Hmono b1 a2 ltac:(lia)). pose proof (Hmono a2 b2 ltac:(lia)).
    pose proof (Hmono b2 a3 ltac:(lia)). pose proof (Hmono a3 b3 ltac:(lia)).
    pose proof (Hmono b3 a4 ltac:(lia)). pose proof (Hmono a4 b4 ltac:(lia)).
    pose proof (Hmono b4 a5 ltac:(lia)). pose proof (Hmono a5 b5 ltac:(lia)).
    pose proof (Hmono b5 (S (S i)) ltac:(lia)). lia.
Qed.

Lemma step_times_add_up_to_the_total_at_most_witness :
  ∃ r w',
    monotone_clock ok_env ∧
    processContent ok_env sample_text prefs7 default_options world0 = (inr r, w') ∧
    success r = true ∧
    ∃ d1 d2 d3 d4 d5,
      stepTimes (stats r) = step_times d1 d2 d3 d4 d5 ∧
      dom (stepTimes (stats r)) =
        ({["summarizing"; "adapting"; "creating_mindmap"; "generating_audio";
           "creating_quiz"]} : gset string) ∧
      (0 ≤ d1 ∧ 0 ≤ d2 ∧ 0 ≤ d3 ∧ 0 ≤ d4 ∧ 0 ≤ d5 ∧
       d1 + d2 + d3 + d4 + d5 ≤ totalTime (stats r))%Z.
Proof.
  eexists _, _. split; [exact ok_env_clock_is_monotone|].
  split; [vm_compute; reflexivity|]. split; [reflexivity|].
  eapply (step_times_add_up_to_the_total_at_most ok_env sample_text prefs7
            default_options world0);
    [exact ok_env_clock_is_monotone | vm_compute; reflexivity | reflexivity].
Defined.

(** ** The requests of a run *)

Lemma service_calls_app s1 s2 :
  service_calls (s1 ++ s2) = service_calls s1 ++ service_calls s2.
Proof. unfold service_calls. apply omap_app. Qed.

Lemma asks_quiet {A} (m : M A) :
  (∀ w, ∃ a w', m w = (inr a, w') ∧ trace w' = trace w) → asks m [] [].
Proof.
  intros H w. destruct (H w) as (a & w' & -> & Ht). exists []. simpl.
  rewrite app_nil_r. auto.
Qed.

Lemma asks_throw {A} e ok : asks (@throw A e) ok [[]].
Proof. intros w. exists []. simpl. rewrite app_nil_r. split; [reflexivity|left]. Qed.

Lemma asks_bind {A B} (m : M A) (k : A → M B) ok1 ko1 ok2 ko2 :
  asks m ok1 ko1 → (∀ a, asks (k a) ok2 ko2) →
  asks (bind m k) (ok1 ++ ok2) (ko1 ++ map (app ok1) ko2).
Proof.
  intros Hm Hk w. unfold bind. destruct (Hm w) as (s1 & T1 & C1).
  destruct (m w) as [[e|a] w1]; simpl in *.
  - exists s1. split; [assumption|]. apply elem_of_app. left. assumption.
  - destruct (Hk a w1) as (s2 & T2 & C2).
    exists (s1 ++ s2). rewrite T2, T1, app_assoc, service_calls_app, C1.
    split; [reflexivity|].
    destruct (k a w1) as [[e|b] w2]; simpl in *.
    + apply elem_of_app. right. apply list_elem_of_In, in_map, list_elem_of_In. assumption.
    + rewrite C2. reflexivity.
Qed.

Lemma asks_weaken {A} (m : M A) ok ko ko' : asks m ok ko → ko ⊆ ko' → asks m ok ko'.
Proof.
  intros Hm Hsub w. destruct (Hm w) as (seg & T & C). exists seg. split; [assumption|].
  destruct (m w).1; [apply Hsub|]; assumption.
Qed.

Lemma asks_eq {A} (m : M A) ok ko ok' ko' :
  asks m ok ko → ok = ok' → ko = ko' → asks m ok' ko'.
Proof. intros H <- <-. exact H. Qed.

Section Requests.

Variable env : Env.

Lemma asks_untouched {A} (m : M A) :
  preserves untouched m → (∀ w, ∃ a w', m w = (inr a, w')) → asks m [] [].
Proof.
  intros Hq Hr. apply asks_quiet. intros w. destruct (Hr w) as (a & w' & Hw).
  exists a, w'. split; [assumption|]. specialize (Hq w). rewrite Hw in Hq. apply Hq.
Qed.

Lemma asks_updateProgress cb s st n msg : asks (updateProgress env cb s st n msg) [] [].
Proof.
  apply asks_quiet. intros w.
  destruct (updateProgress_run env cb s st n msg w) as (l & w' & H & _ & Ht & _). eauto.
Qed.

Lemma asks_transformWith k input opts :
  asks (transformWith env k input opts) [(k, input)] [[(k, input)]].
Proof.
  intros w. destruct (transformWith_run env k input opts w) as (seg & used & Hs & Ht & _).
  exists seg. split; [assumption|].
  assert (Hc : service_calls seg = [(k, input)]) by (destruct Hs; reflexivity).
  rewrite Hc. destruct (transformWith env k input opts w).1; [left|reflexivity].
Qed.

End Requests.

Lemma asks_caller_turn env opts k : asks (caller_turn env opts k) [] [].
Proof.
  apply asks_quiet. intros w. unfold caller_turn, abort, bind, modify, ret.
  destruct (signal opts); [case_decide|]; case_decide; eexists _, _; split; reflexivity.
Qed.

Ltac asking :=
  cbv zeta;
  lazymatch goal with
  | |- asks (bind _ _) _ _ => eapply asks_bind; [asking | intros ?; asking]
  | |- asks (updateProgress _ _ _ _ _ _) _ _ => apply asks_updateProgress
  | |- asks (caller_turn _ _ _) _ _ => apply asks_caller_turn
  | |- asks (summarize _ _ _) _ _ => apply asks_transformWith
  | |- asks (rewrite _ _ _) _ _ => apply asks_transformWith
  | |- asks (write _ _ _) _ _ => apply asks_transformWith
  | |- asks (generateSummary _ _ _) _ _ => unfold generateSummary; asking
  | |- asks (adaptContentForGrade _ _ _) _ _ => unfold adaptContentForGrade; asking
  | |- asks (generateMindMap _ _ _) _ _ => unfold generateMindMap; asking
  | |- asks (generateAudioLesson _ _ _) _ _ => unfold generateAudioLesson; asking
  | |- asks (generateQuiz _ _ _) _ _ => unfold generateQuiz; asking
  | |- asks _ _ _ =>
      apply asks_quiet; intros ?; eexists _, _; split; reflexivity
  end.

Lemma generation_steps_asks env t content p opts :
  asks (generation_steps env t content p opts) (request_plan content p)
    [take 1 (request_plan content p); take 2 (request_plan content p);
     take 3 (request_plan content p); request_plan content p].
Proof.
  eapply asks_eq; [unfold generation_steps; asking| |]; reflexivity.
Qed.

Lemma validation_step_asks env content opts :
  asks (validation_step env content opts) [] [[]].
Proof.
  unfold validation_step. cbv zeta.
  eapply asks_eq; [eapply asks_bind; [apply asks_updateProgress|intros _]| |].
  - eapply asks_bind; [|intros v].
    + apply asks_quiet. intros w. unfold validate.
      destruct (TextValidator.validate _ _). eexists _, _. split; reflexivity.
    + destruct (negb (isValid v)).
      * apply asks_throw.
      * eapply asks_weaken; [asking|]. apply list_subseteq_nil.
  - reflexivity.
  - reflexivity.
Qed.

Lemma pipeline_asks env t content p opts :
  asks (pipeline env t content p opts) (request_plan content p)
    ((if validation_enabled opts then [[]] else []) ++
     [take 1 (request_plan content p); take 2 (request_plan content p);
      take 3 (request_plan content p); request_plan content p]).
Proof.
  unfold pipeline.
  eapply asks_eq.
  - eapply asks_bind; [|intros _; eapply asks_bind; [|intros _]].
    + apply asks_quiet. intros w. eexists _, _. split; reflexivity.
    + instantiate (1 := if validation_enabled opts then [[]] else []).
      instantiate (1 := []).
      destruct (validation_enabled opts);
        [apply validation_step_asks | apply asks_quiet; intros w; eexists _, _; split; reflexivity].
    + apply generation_steps_asks.
  - reflexivity.
  - destruct (validation_enabled opts); reflexivity.
Qed.

(** X26. The requests of a run are the first so many of a fixed plan:
    the content to the summarizer, the content again to the rewriter, and
    the two prompts built from the content to the writer.  A run that
    succeeds has made all four, in this order; a run that fails has made
    the plan up to the request that failed, or none when the validation
    stopped it.  Every input is built from the content alone: neither the
    summary nor the adapted text is the input of a later request. *)
Theorem requests_follow_the_plan env content p opts w r w' :
  processContent env content p opts w = (inr r, w') →
  ∃ seg n, trace w' = trace w ++ seg ∧
    service_calls seg = take n (request_plan content p) ∧
    (success r = true → n = 4) ∧
    (success r = false → (n = 0 ∧ validation_enabled opts = true) ∨ 1 ≤ n ≤ 4).
Proof.
  rewrite processContent_unfold.
  destruct (pipeline_asks env (clock env (ticks w)) content p opts (entered w))
    as (seg & Ht & Hc).
  destruct (pipeline _ _ _ _ _ _) as [[e|r1] w1] eqn:Hp; simpl in Ht, Hc.
  - destruct (on_failure_run env opts (clock env (ticks w)) e w1)
      as (r2 & w2 & -> & Hs & _ & _ & _ & Ht2 & _).
    intros [= <- <-]. rewrite Hs, Ht2, Ht.
    apply elem_of_app in Hc as [Hc|Hc].
    + destruct (validation_enabled opts); [|inversion Hc].
      apply list_elem_of_singleton in Hc.
      exists seg, 0. split; [reflexivity|]. split; [exact Hc|].
      split; [discriminate|]. intros _. left. split; reflexivity.
    + repeat (apply elem_of_cons in Hc as [Hc|Hc]); [..|inversion Hc].
      * exists seg, 1. repeat split; try assumption; try discriminate. right. lia.
      * exists seg, 2. repeat split; try assumption; try discriminate. right. lia.
      * exists seg, 3. repeat split; try assumption; try discriminate. right. lia.
      * exists seg, 4. repeat split; try assumption; try discriminate. right. lia.
  - intros [= <- <-]. rewrite (pipeline_succeeds _ _ _ _ _ _ _ _ Hp).
    exists seg, 4. split; [exact Ht|]. split; [exact Hc|].
    split; [reflexivity|discriminate].
Qed.

Lemma requests_follow_the_plan_witness :
  ∃ r w',
    processContent no_rewriter_env sample_text prefs7 default_options world0 = (inr r, w') ∧
    ∃ seg n, trace w' = trace world0 ++ seg ∧
      service_calls seg = take n (request_plan sample_text prefs7) ∧
      (success r = true → n = 4) ∧
      (success r = false →
       (n = 0 ∧ validation_enabled default_options = true) ∨ 1 ≤ n ≤ 4).
Proof.
  eexists _, _. split; [vm_compute; reflexivity|].
  eapply (requests_follow_the_plan no_rewriter_env sample_text prefs7 default_options
            world0).
  vm_compute. reflexivity.
Defined.

(** ** Runs without a callback *)

(** X27. Without a progress callback a run delivers no entry at all,
    whether it succeeds or fails: the entry for the error is only built
    when there is someone to receive it. *)
Theorem without_a_callback_nothing_is_delivered env content p opts w :
  onProgress opts = None →
  emitted (processContent env content p opts w).2 = emitted w.
Proof.
  intros Hcb.
  assert (H : preserves (log_ext emitted (λ _, False)) (processContent env content p opts)).
  { unfold processContent, pipeline, on_failure, generation_steps, validation_step.
    rewrite Hcb. pres no_side. }
  destruct (H w) as (l & He & Hl). rewrite He.
  destruct l as [|g l]; [apply app_nil_r|]. inversion Hl. contradiction.
Qed.

Lemma without_a_callback_nothing_is_delivered_witness :
  onProgress silent_options = None ∧
  emitted (processContent no_rewriter_env sample_text prefs7 silent_options world0).2 =
  emitted world0.
Proof.
  split; [reflexivity|].
  apply (without_a_callback_nothing_is_delivered no_rewriter_env sample_text prefs7
           silent_options world0).
  reflexivity.
Defined.

(** ** The helpers on small inputs *)

Example validate_ex1 :
  errors (fst (TextValidator.validate "too short" validator_init)) =
  ["Content must be at least 50 characters long (currently 9)";
   "Content must contain at least 10 words (currently 2)"].
Proof. vm_compute. reflexivity. Qed.
Example validate_ex2 :
  TextValidator.validate sample_text validator_init =
  ({| isValid := true; errors := []; wordCount := 18; characterCount := 109;
      estimatedReadingTime := 1 |}, validator_init).
Proof. vm_compute. reflexivity. Qed.
Example validate_ex3 :
  let t := "Some long enough text with a tag <SCRIPT src=x>alert(1)</script> inside of the words here" in
  let (v1, s1) := TextValidator.validate t validator_init in
  let (v2, s2) := TextValidator.validate t s1 in
  (isValid v1, s1, isValid v2, s2) = (false, {| scriptLastIndex := 64; iframeLastIndex := 0 |}, true, validator_init).
Proof. vm_compute. reflexivity. Qed.

Example concepts_ex1 :
  extractConcepts sample_text = ["Plants"; "Make"; "Food"; "From"; "Sunlight"; "Leaves"; "Take"; "Light"].
Proof. vm_compute. reflexivity. Qed.
Example concepts_ex2 :
  extractConcepts "the cat sat on the mat and the dog ate" = [].
Proof. vm_compute. reflexivity. Qed.
Example concepts_ex3 :
  extractConcepts "Water water WATER! cycle, cycle; rain" = ["Water"; "Cycle"; "Rain"].
Proof. vm_compute. reflexivity. Qed.
Example keypoints_ex :
  extractKeyPoints ("- first" +:+ nl +:+ "  - second" +:+ nl +:+ "plain" +:+ nl +:+ "-") = ["first"; "- second"].
Proof. vm_compute. reflexivity. Qed.

